(** * libcpath: path classification, resolution, sanitizing and joining

    A shallow embedding of [libcpath/libcpath_path.c] (narrow-character
    functions) and the properties of its specification.

    Conventions of the embedding:
    - a C string is the list of its characters without the terminating
      NUL; reading at or past the end yields NUL;
    - [size_t] values are integers in [0, SIZE_MAX] and their arithmetic
      wraps around (LP64: 64 bits); [int] indices are plain integers;
    - a function returning 1 or -1 and filling output parameters becomes
      a function into [result]: [Ok] carries the outputs, [Err] the
      libcerror error that was set;
    - an output parameter is an [option]: [None] is the NULL pointer,
      [Some v] a valid pointer whose slot currently holds [v]. *)

From Stdlib Require Import ZArith Ascii String Bool Lia.
From stdpp Require Import base list.

Open Scope Z_scope.

(** ** Characters and C strings *)

Abbreviation cstring := (list ascii).

Definition str (s : string) : cstring := list_ascii_of_string s.

Definition NUL : ascii := Ascii.zero.

(** [s[i]] for a [size_t] index *)
Definition char_at (s : cstring) (i : Z) : ascii := nth (Z.to_nat i) s NUL.

(** The integer value of a [char] (signed, as on x86; the comparisons of
    the source select the same branches when [char] is unsigned). *)
Definition char_value (c : ascii) : Z :=
  let n := Z.of_N (N_of_ascii c) in
  if n <? 128 then n else n - 256.

Definition char_eqb (a b : ascii) : bool := Ascii.eqb a b.

Definition SIZE_MAX : Z := 2 ^ 64 - 1.
Definition SSIZE_MAX : Z := 2 ^ 63 - 1.

Definition size_add (a b : Z) : Z := (a + b) mod 2 ^ 64.
Definition size_sub (a b : Z) : Z := (a - b) mod 2 ^ 64.

Definition narrow_string_length (s : cstring) : Z := Z.of_nat (length s).

(** ** libcerror *)

Inductive libcerror_domain : Type :=
| LIBCERROR_ERROR_DOMAIN_ARGUMENTS
| LIBCERROR_ERROR_DOMAIN_MEMORY
| LIBCERROR_ERROR_DOMAIN_RUNTIME.

Inductive libcerror_code : Type :=
| LIBCERROR_ARGUMENT_ERROR_INVALID_VALUE
| LIBCERROR_ARGUMENT_ERROR_VALUE_ZERO_OR_LESS
| LIBCERROR_ARGUMENT_ERROR_VALUE_EXCEEDS_MAXIMUM
| LIBCERROR_ARGUMENT_ERROR_VALUE_TOO_SMALL
| LIBCERROR_ARGUMENT_ERROR_VALUE_OUT_OF_BOUNDS
| LIBCERROR_MEMORY_ERROR_INSUFFICIENT
| LIBCERROR_RUNTIME_ERROR_VALUE_MISSING
| LIBCERROR_RUNTIME_ERROR_VALUE_ALREADY_SET
| LIBCERROR_RUNTIME_ERROR_INITIALIZE_FAILED
| LIBCERROR_RUNTIME_ERROR_GET_FAILED
| LIBCERROR_RUNTIME_ERROR_SET_FAILED
| LIBCERROR_RUNTIME_ERROR_VALUE_OUT_OF_BOUNDS.

(** An error keeps the domain and code it was created with; every later
    [libcerror_error_set] on the way up adds a message. *)
Record libcerror_error_t : Type := mk_error {
  error_domain : libcerror_domain;
  error_code : libcerror_code;
  error_messages : list string
}.

Definition libcerror_error_set (error : option libcerror_error_t)
    (d : libcerror_domain) (c : libcerror_code) (message : string)
    : libcerror_error_t :=
  match error with
  | None => mk_error d c [message]
  | Some e => mk_error (error_domain e) (error_code e) (error_messages e ++ [message])
  end.

Inductive result (A : Type) : Type :=
| Ok (a : A)
| Err (e : libcerror_error_t).

Arguments Ok {A} a.
Arguments Err {A} e.

(** A fresh error: the function returns -1 *)
Definition fail {A : Type} (d : libcerror_domain) (c : libcerror_code)
    (message : string) : result A :=
  Err (libcerror_error_set None d c message).

(** [do x <- call else (d, c, message); rest]: when the call returns -1
    the caller adds its own message and returns -1 as well. *)
Definition bind_or {A B : Type} (r : result A) (d : libcerror_domain)
    (c : libcerror_code) (message : string) (k : A -> result B) : result B :=
  match r with
  | Ok a => k a
  | Err e => Err (libcerror_error_set (Some e) d c message)
  end.

Notation "'do' x <- r 'else' ( d , c , m ) ; k" :=
  (bind_or r d c m (fun x => k))
  (at level 10, x pattern, r at level 100, k at level 200,
   format "'[v' 'do'  x  <-  r  'else'  ( d ,  c ,  m ) ; '/' k ']'").

(** [do x <- call; rest]: the error of a failed step is returned as is. *)
Definition bind {A B : Type} (r : result A) (k : A -> result B) : result B :=
  match r with
  | Ok a => k a
  | Err e => Err e
  end.

Notation "'do' x <- r ; k" :=
  (bind r (fun x => k))
  (at level 10, x pattern, r at level 100, k at level 200,
   format "'[v' 'do'  x  <-  r ; '/' k ']'").

(** ** Loops *)

(** [for( i = start; i < start + n; i++ ) body], leaving at the first
    failure *)
Fixpoint for_loop {S : Type} (n : nat) (i : Z) (body : Z -> S -> result S)
    (s : S) : result S :=
  match n with
  | O => Ok s
  | Datatypes.S n' =>
      match body i s with
      | Ok s' => for_loop n' (i + 1) body s'
      | Err e => Err e
      end
  end.

(** ** Path types ([libcpath_definitions.h], an enumeration) *)

Inductive LIBCPATH_TYPE : Type :=
| LIBCPATH_TYPE_ABSOLUTE
| LIBCPATH_TYPE_DEVICE
| LIBCPATH_TYPE_EXTENDED_LENGTH
| LIBCPATH_TYPE_EXTENDED_LENGTH_UNC
| LIBCPATH_TYPE_RELATIVE
| LIBCPATH_TYPE_UNC.

Definition LIBCPATH_TYPE_eqb (a b : LIBCPATH_TYPE) : bool :=
  match a, b with
  | LIBCPATH_TYPE_ABSOLUTE, LIBCPATH_TYPE_ABSOLUTE
  | LIBCPATH_TYPE_DEVICE, LIBCPATH_TYPE_DEVICE
  | LIBCPATH_TYPE_EXTENDED_LENGTH, LIBCPATH_TYPE_EXTENDED_LENGTH
  | LIBCPATH_TYPE_EXTENDED_LENGTH_UNC, LIBCPATH_TYPE_EXTENDED_LENGTH_UNC
  | LIBCPATH_TYPE_RELATIVE, LIBCPATH_TYPE_RELATIVE
  | LIBCPATH_TYPE_UNC, LIBCPATH_TYPE_UNC => true
  | _, _ => false
  end.

(** ** Memory: a heap buffer of characters *)

(** The characters of an allocation, and the stores that fell outside of
    it (undefined behaviour in C, recorded here with their index). *)
Record buffer : Type := mk_buffer {
  buffer_data : cstring;
  buffer_overrun : list (Z * ascii)
}.

Definition buffer_size (b : buffer) : Z := Z.of_nat (length (buffer_data b)).

(** Modelled from the spec: "low-level memory allocation/zeroing" is an
    external collaborator.  [narrow_string_allocate] followed by
    [memory_set( .., 0, .. )]: the request is granted up to [SSIZE_MAX]
    characters (a request of size 0 yields an empty allocation), and
    refused (NULL) beyond. *)
Definition narrow_string_allocate (size : Z) : option buffer :=
  if size <=? SSIZE_MAX
  then Some (mk_buffer (replicate (Z.to_nat size) NUL) [])
  else None.

(** [b[ i ] = c] *)
Definition store (b : buffer) (i : Z) (c : ascii) : buffer :=
  if (0 <=? i) && (i <? buffer_size b)
  then mk_buffer (<[Z.to_nat i := c]> (buffer_data b)) (buffer_overrun b)
  else mk_buffer (buffer_data b) (buffer_overrun b ++ [(i, c)]).

(** [narrow_string_copy( &( b[ i ] ), source, n )] *)
Fixpoint narrow_string_copy (b : buffer) (i : Z) (source : cstring) (n : nat)
    : buffer :=
  match n with
  | O => b
  | S n' =>
      narrow_string_copy (store b i (char_at source 0)) (i + 1)
        (drop 1 source) n'
  end.

(** The C string held by an array: the characters before the first NUL *)
Fixpoint c_string (data : cstring) : cstring :=
  match data with
  | [] => []
  | c :: rest => if char_eqb c NUL then [] else c :: c_string rest
  end.

(** ** libcsplit: the segment list *)

Module libcsplit.

(** Modelled from the spec: the segment list is an external collaborator,
    "an ordered sequence of string slices produced by splitting on the
    platform separator", where "a segment may be cleared (logically
    removed, size set to 0) in place without shifting subsequent
    indices".  A segment is [Some s] with size [length s + 1] (the size
    counts the end-of-string character), or [None] once cleared: pointer
    NULL and size 0.  An index outside the list is refused. *)
Fixpoint split_on (delimiter : ascii) (s : cstring) : list cstring :=
  match s with
  | [] => [[]]
  | c :: rest =>
      if char_eqb c delimiter then [] :: split_on delimiter rest
      else match split_on delimiter rest with
           | segment :: segments => (c :: segment) :: segments
           | [] => [[c]]
           end
  end.

(** Modelled from the spec: splits the [string_size - 1] characters of
    [string] (the size passed by the callers counts the terminator). *)
Definition narrow_string_split (string : cstring) (string_size : Z)
    (delimiter : ascii) : result (list (option cstring)) :=
  Ok (map Some (split_on delimiter (take (Z.to_nat (string_size - 1)) string))).

Definition narrow_split_string_get_number_of_segments
    (split_string : list (option cstring)) : result Z :=
  Ok (Z.of_nat (length split_string)).

Definition segment_size (segment : option cstring) : Z :=
  match segment with
  | Some s => Z.of_nat (length s) + 1
  | None => 0
  end.

Definition narrow_split_string_get_segment_by_index
    (split_string : list (option cstring)) (segment_index : Z)
    : result (option cstring * Z) :=
  if segment_index <? 0 then
    fail LIBCERROR_ERROR_DOMAIN_ARGUMENTS
      LIBCERROR_ARGUMENT_ERROR_VALUE_OUT_OF_BOUNDS
      "invalid segment index value out of bounds."
  else
  match split_string !! Z.to_nat segment_index with
  | Some segment => Ok (segment, segment_size segment)
  | None =>
      fail LIBCERROR_ERROR_DOMAIN_ARGUMENTS
        LIBCERROR_ARGUMENT_ERROR_VALUE_OUT_OF_BOUNDS
        "invalid segment index value out of bounds."
  end.

(** [narrow_split_string_set_segment_by_index( .., index, NULL, 0, .. )] *)
Definition narrow_split_string_clear_segment_by_index
    (split_string : list (option cstring)) (segment_index : Z)
    : result (list (option cstring)) :=
  if (segment_index <? 0)
     || (Z.of_nat (length split_string) <=? segment_index) then
    fail LIBCERROR_ERROR_DOMAIN_ARGUMENTS
      LIBCERROR_ARGUMENT_ERROR_VALUE_OUT_OF_BOUNDS
      "invalid segment index value out of bounds."
  else Ok (<[Z.to_nat segment_index := None]> split_string).

End libcsplit.

(** ** The operating system: the process working directory *)

Inductive os_call : Type :=
| OS_get_current_directory
| OS_change_directory (directory_name : cstring).

(** Modelled from the spec: the "read current working directory" and
    "change current working directory" primitives are external.  The
    world holds the current directory, the behaviour of a change request
    (current directory and requested name to the new current directory,
    [None] when the request is refused) and the calls made so far. *)
Record world : Type := mk_world {
  working_directory : cstring;
  change_directory : cstring -> cstring -> option cstring;
  os_calls : list os_call
}.

Definition os_log (call : os_call) (w : world) : world :=
  mk_world (working_directory w) (change_directory w) (os_calls w ++ [call]).

(** ** The segment walk shared by both resolvers *)

(** The two variants of [libcpath_path_get_full_path] run the same two
    loops over the segment lists; they are written once here.  The
    counting loop is lines 1367-1616 (Windows) and 2144-2393 (POSIX) of
    the source, the writing loops are lines 1726-1840 and 2440-2554. *)
Module Resolver.

Import libcsplit.

Record state : Type := mk_state {
  path_split_string : list (option cstring);
  current_directory_split_string : option (list (option cstring));
  safe_full_path_size : Z;
  current_directory_segment_index : Z;
  last_used_path_segment_index : Z
}.

Definition is_dot_dot (segment : cstring) (segment_size : Z) : bool :=
  (segment_size =? 3)
  && char_eqb (char_at segment 0) "."
  && char_eqb (char_at segment 1) ".".

Definition is_dot (segment : cstring) (segment_size : Z) : bool :=
  (segment_size =? 2) && char_eqb (char_at segment 0) ".".

(** [while( last_used_path_segment_index > 0 )
      { last_used_path_segment_index--; ..get segment..;
        if( size != 0 ) break; }] *)
Fixpoint find_previous_used (fuel : nat) (segments : list (option cstring))
    (last_used_path_segment_index : Z) : result Z :=
  match fuel with
  | O => Ok last_used_path_segment_index
  | S fuel' =>
      if last_used_path_segment_index >? 0 then
        let index := last_used_path_segment_index - 1 in
        do segment <- narrow_split_string_get_segment_by_index segments index
          else (LIBCERROR_ERROR_DOMAIN_RUNTIME,
                LIBCERROR_RUNTIME_ERROR_GET_FAILED,
                "unable to retrieve last used path string segment.");
        if negb (snd segment =? 0) then Ok index
        else find_previous_used fuel' segments index
      else Ok last_used_path_segment_index
  end.

(** The [..] case up to, and excluding, the clearing of the [..] segment
    itself. *)
Definition go_up (st : state) : result state :=
  match current_directory_split_string st,
        last_used_path_segment_index st =? -1 with
  | Some current_directory_segments, true =>
      do segment <- narrow_split_string_get_segment_by_index
                      current_directory_segments
                      (current_directory_segment_index st)
        else (LIBCERROR_ERROR_DOMAIN_RUNTIME,
              LIBCERROR_RUNTIME_ERROR_GET_FAILED,
              "unable to retrieve current working directory string segment.");
      match fst segment with
      | None =>
          fail LIBCERROR_ERROR_DOMAIN_RUNTIME
            LIBCERROR_RUNTIME_ERROR_VALUE_MISSING
            "missing current working directory string segment."
      | Some _ =>
          do cleared <- narrow_split_string_clear_segment_by_index
                          current_directory_segments
                          (current_directory_segment_index st)
            else (LIBCERROR_ERROR_DOMAIN_RUNTIME,
                  LIBCERROR_RUNTIME_ERROR_SET_FAILED,
                  "unable to set current working directory string segment.");
          Ok (mk_state (path_split_string st) (Some cleared)
                (size_sub (safe_full_path_size st) (snd segment))
                (current_directory_segment_index st - 1)
                (last_used_path_segment_index st))
      end
  | _, _ =>
      if last_used_path_segment_index st >=? 0 then
        do segment <- narrow_split_string_get_segment_by_index
                        (path_split_string st)
                        (last_used_path_segment_index st)
          else (LIBCERROR_ERROR_DOMAIN_RUNTIME,
                LIBCERROR_RUNTIME_ERROR_GET_FAILED,
                "unable to retrieve last used path string segment.");
        match fst segment with
        | None =>
            fail LIBCERROR_ERROR_DOMAIN_RUNTIME
              LIBCERROR_RUNTIME_ERROR_VALUE_MISSING
              "missing last used path string string segment."
        | Some _ =>
            do cleared <- narrow_split_string_clear_segment_by_index
                            (path_split_string st)
                            (last_used_path_segment_index st)
              else (LIBCERROR_ERROR_DOMAIN_RUNTIME,
                    LIBCERROR_RUNTIME_ERROR_SET_FAILED,
                    "unable to set path string segment.");
            do previous <- find_previous_used
                             (Z.to_nat (last_used_path_segment_index st))
                             cleared (last_used_path_segment_index st)
              else (LIBCERROR_ERROR_DOMAIN_RUNTIME,
                    LIBCERROR_RUNTIME_ERROR_GET_FAILED,
                    "unable to retrieve last used path string segment.");
            Ok (mk_state cleared (current_directory_split_string st)
                  (size_sub (safe_full_path_size st) (snd segment))
                  (current_directory_segment_index st)
                  previous)
        end
      else Ok st
  end.

Definition clear_path_segment (path_segment_index : Z) (st : state)
    : result state :=
  do cleared <- narrow_split_string_clear_segment_by_index
                  (path_split_string st) path_segment_index
    else (LIBCERROR_ERROR_DOMAIN_RUNTIME,
          LIBCERROR_RUNTIME_ERROR_SET_FAILED,
          "unable to set path string segment.");
  Ok (mk_state cleared (current_directory_split_string st)
        (safe_full_path_size st) (current_directory_segment_index st)
        (last_used_path_segment_index st)).

(** The body of the counting loop *)
Definition count_segment (path_segment_index : Z) (st : state) : result state :=
  do segment <- narrow_split_string_get_segment_by_index
                  (path_split_string st) path_segment_index
    else (LIBCERROR_ERROR_DOMAIN_RUNTIME,
          LIBCERROR_RUNTIME_ERROR_GET_FAILED,
          "unable to retrieve path string segment.");
  match segment with
  | (None, _) =>
      fail LIBCERROR_ERROR_DOMAIN_RUNTIME
        LIBCERROR_RUNTIME_ERROR_VALUE_MISSING "missing path string segment."
  | (Some path_string_segment, path_string_segment_size) =>
      if is_dot_dot path_string_segment path_string_segment_size then
        do st' <- go_up st;
        clear_path_segment path_segment_index st'
      else if is_dot path_string_segment path_string_segment_size then
        clear_path_segment path_segment_index st
      else if path_string_segment_size <=? 1 then
        clear_path_segment path_segment_index st
      else
        Ok (mk_state (path_split_string st) (current_directory_split_string st)
              (size_add (safe_full_path_size st) path_string_segment_size)
              (current_directory_segment_index st)
              path_segment_index)
  end.

(** The body of a writing loop: a surviving segment and a separator *)
Definition write_segment (separator : ascii)
    (segments : list (option cstring)) (message : string)
    (segment_index : Z) (out : buffer * Z) : result (buffer * Z) :=
  do segment <- narrow_split_string_get_segment_by_index segments segment_index
    else (LIBCERROR_ERROR_DOMAIN_RUNTIME,
          LIBCERROR_RUNTIME_ERROR_GET_FAILED, message);
  let '(full_path, full_path_index) := out in
  if negb (snd segment =? 0) then
    match fst segment with
    | None =>
        fail LIBCERROR_ERROR_DOMAIN_RUNTIME
          LIBCERROR_RUNTIME_ERROR_VALUE_MISSING "missing string segment."
    | Some string_segment =>
        let full_path :=
          narrow_string_copy full_path full_path_index string_segment
            (Z.to_nat (size_sub (snd segment) 1)) in
        let full_path_index :=
          size_add full_path_index (size_sub (snd segment) 1) in
        let full_path := store full_path full_path_index separator in
        Ok (full_path, size_add full_path_index 1)
    end
  else Ok out.

Definition write_segments (separator : ascii)
    (segments : list (option cstring)) (number_of_segments : Z)
    (message : string) (out : buffer * Z) : result (buffer * Z) :=
  for_loop (Z.to_nat number_of_segments) 0
    (write_segment separator segments message) out.

End Resolver.

(** ** The POSIX resolver *)

Module Posix.

Import libcsplit Resolver.

(** [limits.h] *)
Definition PATH_MAX : Z := 4096.

(** [getcwd] fills a buffer of [PATH_MAX] characters and fails when the
    directory and its terminator do not fit. *)
Definition libcpath_path_get_current_working_directory
    (current_working_directory : option (option cstring))
    (current_working_directory_size : option Z) (w : world)
    : result (cstring * Z) * world :=
  match current_working_directory, current_working_directory_size with
  | None, _ =>
      (fail LIBCERROR_ERROR_DOMAIN_ARGUMENTS
         LIBCERROR_ARGUMENT_ERROR_INVALID_VALUE
         "invalid current working directory.", w)
  | Some (Some _), _ =>
      (fail LIBCERROR_ERROR_DOMAIN_RUNTIME
         LIBCERROR_RUNTIME_ERROR_VALUE_ALREADY_SET
         "invalid current working directory value already set.", w)
  | Some None, None =>
      (fail LIBCERROR_ERROR_DOMAIN_ARGUMENTS
         LIBCERROR_ARGUMENT_ERROR_INVALID_VALUE
         "invalid current working directory size.", w)
  | Some None, Some _ =>
      match narrow_string_allocate PATH_MAX with
      | None =>
          (fail LIBCERROR_ERROR_DOMAIN_MEMORY
             LIBCERROR_MEMORY_ERROR_INSUFFICIENT
             "unable to create current working directory.", w)
      | Some _ =>
          let w := os_log OS_get_current_directory w in
          if narrow_string_length (working_directory w) + 1 <=? PATH_MAX then
            (Ok (working_directory w, PATH_MAX), w)
          else
            (fail LIBCERROR_ERROR_DOMAIN_RUNTIME
               LIBCERROR_RUNTIME_ERROR_GET_FAILED
               "unable to retrieve current working directory.", w)
      end
  end.

(** Everything after the working directory has been obtained: lines
    2038-2591 of the source. *)
Definition resolve (path : cstring) (path_length : Z)
    (path_type : LIBCPATH_TYPE) (current_directory : option cstring)
    : result (buffer * Z) :=
  let current_directory_length :=
    match current_directory with
    | Some directory => narrow_string_length directory
    | None => 0
    end in
  do current_directory_split_string <-
       match current_directory with
       | Some directory =>
           do segments <- narrow_string_split directory
                            (size_add current_directory_length 1) "/"
             else (LIBCERROR_ERROR_DOMAIN_RUNTIME,
                   LIBCERROR_RUNTIME_ERROR_INITIALIZE_FAILED,
                   "unable to split current working directory.");
           Ok (Some segments)
       | None => Ok None
       end;
  do path_split_string <- narrow_string_split path (size_add path_length 1) "/"
    else (LIBCERROR_ERROR_DOMAIN_RUNTIME,
          LIBCERROR_RUNTIME_ERROR_INITIALIZE_FAILED, "unable to split path.");
  do safe_full_path_size <-
       match path_type with
       | LIBCPATH_TYPE_ABSOLUTE => Ok 1
       | LIBCPATH_TYPE_RELATIVE =>
           match current_directory with
           | None =>
               fail LIBCERROR_ERROR_DOMAIN_RUNTIME
                 LIBCERROR_RUNTIME_ERROR_VALUE_MISSING
                 "missing current working directory."
           | Some directory =>
               if (1 <=? current_directory_length)
                  && negb (char_eqb
                             (char_at directory (current_directory_length - 1))
                             "/")
               then Ok (size_add current_directory_length 1)
               else Ok current_directory_length
           end
       | _ => Ok 0
       end;
  do current_directory_number_of_segments <-
       match current_directory_split_string with
       | Some segments =>
           do number <- narrow_split_string_get_number_of_segments segments
             else (LIBCERROR_ERROR_DOMAIN_RUNTIME,
                   LIBCERROR_RUNTIME_ERROR_GET_FAILED,
                   "unable to retrieve number of current working directory string segments.");
           Ok number
       | None => Ok 0
       end;
  let current_directory_segment_index :=
    match current_directory_split_string with
    | Some _ => current_directory_number_of_segments - 1
    | None => 0
    end in
  do path_number_of_segments <-
       narrow_split_string_get_number_of_segments path_split_string
    else (LIBCERROR_ERROR_DOMAIN_RUNTIME, LIBCERROR_RUNTIME_ERROR_GET_FAILED,
          "unable to retrieve number of path string segments.");
  do st <- for_loop (Z.to_nat path_number_of_segments) 0 count_segment
             (mk_state path_split_string current_directory_split_string
                safe_full_path_size current_directory_segment_index (-1));
  match narrow_string_allocate (Resolver.safe_full_path_size st) with
  | None =>
      fail LIBCERROR_ERROR_DOMAIN_MEMORY LIBCERROR_MEMORY_ERROR_INSUFFICIENT
        "unable to create full path."
  | Some full_path =>
      let full_path_size := Resolver.safe_full_path_size st in
      let out :=
        match path_type with
        | LIBCPATH_TYPE_ABSOLUTE => (store full_path 0 "/", 1)
        | _ => (full_path, 0)
        end in
      do out <-
           match path_type, Resolver.current_directory_split_string st with
           | LIBCPATH_TYPE_RELATIVE, Some segments =>
               write_segments "/" segments current_directory_number_of_segments
                 "unable to retrieve current working directory string segment."
                 out
           | _, _ => Ok out
           end;
      do out <- write_segments "/" (Resolver.path_split_string st)
                  path_number_of_segments
                  "unable to retrieve path string segment." out;
      Ok (store (fst out) (size_sub (snd out) 1) NUL, full_path_size)
  end.

Definition libcpath_path_get_full_path (path : option cstring)
    (path_length : Z) (full_path : option (option cstring))
    (full_path_size : option Z) (w : world)
    : result (buffer * Z) * world :=
  match path with
  | None =>
      (fail LIBCERROR_ERROR_DOMAIN_ARGUMENTS
         LIBCERROR_ARGUMENT_ERROR_INVALID_VALUE "invalid path.", w)
  | Some path =>
  if path_length =? 0 then
    (fail LIBCERROR_ERROR_DOMAIN_ARGUMENTS
       LIBCERROR_ARGUMENT_ERROR_VALUE_ZERO_OR_LESS
       "invalid path length is zero.", w)
  else if path_length >? SSIZE_MAX - 1 then
    (fail LIBCERROR_ERROR_DOMAIN_ARGUMENTS
       LIBCERROR_ARGUMENT_ERROR_VALUE_EXCEEDS_MAXIMUM
       "invalid path length value exceeds maximum.", w)
  else
  match full_path, full_path_size with
  | None, _ =>
      (fail LIBCERROR_ERROR_DOMAIN_ARGUMENTS
         LIBCERROR_ARGUMENT_ERROR_INVALID_VALUE "invalid full path.", w)
  | Some (Some _), _ =>
      (fail LIBCERROR_ERROR_DOMAIN_RUNTIME
         LIBCERROR_RUNTIME_ERROR_VALUE_ALREADY_SET
         "invalid full path value already set.", w)
  | Some None, None =>
      (fail LIBCERROR_ERROR_DOMAIN_ARGUMENTS
         LIBCERROR_ARGUMENT_ERROR_INVALID_VALUE "invalid full path size.", w)
  | Some None, Some _ =>
      if char_eqb (char_at path 0) "/" then
        (resolve path path_length LIBCPATH_TYPE_ABSOLUTE None, w)
      else
        match libcpath_path_get_current_working_directory
                (Some None) (Some 0) w with
        | (Ok (current_directory, _), w') =>
            (resolve path path_length LIBCPATH_TYPE_RELATIVE
               (Some current_directory), w')
        | (Err e, w') =>
            (Err (libcerror_error_set (Some e) LIBCERROR_ERROR_DOMAIN_RUNTIME
                    LIBCERROR_RUNTIME_ERROR_GET_FAILED
                    "unable to retrieve current working directory."), w')
        end
  end
  end.

End Posix.

(** ** The Windows classifier and resolver *)

Module Windows.

Import libcsplit Resolver.

Definition is_letter (c : ascii) : bool :=
  ((char_value "A" <=? char_value c) && (char_value c <=? char_value "Z"))
  || ((char_value "a" <=? char_value c) && (char_value c <=? char_value "z")).

(** The device ([\\.\]) or extended-length ([\\?\]) prefix test shared by
    [libcpath_path_get_path_type] and [libcpath_path_get_volume_name] *)
Definition has_special_prefix (path : cstring) (path_length : Z) : bool :=
  (4 <=? path_length)
  && char_eqb (char_at path 0) "\"
  && char_eqb (char_at path 1) "\"
  && (char_eqb (char_at path 2) "." || char_eqb (char_at path 2) "?")
  && char_eqb (char_at path 3) "\".

Definition has_unc_marker (path : cstring) (path_length : Z) : bool :=
  (8 <=? path_length)
  && char_eqb (char_at path 4) "U"
  && char_eqb (char_at path 5) "N"
  && char_eqb (char_at path 6) "C"
  && char_eqb (char_at path 7) "\".

Definition libcpath_path_get_path_type (path : option cstring)
    (path_length : Z) (path_type : option LIBCPATH_TYPE)
    : result LIBCPATH_TYPE :=
  match path with
  | None =>
      fail LIBCERROR_ERROR_DOMAIN_ARGUMENTS
        LIBCERROR_ARGUMENT_ERROR_INVALID_VALUE "invalid path."
  | Some path =>
  if path_length =? 0 then
    fail LIBCERROR_ERROR_DOMAIN_ARGUMENTS
      LIBCERROR_ARGUMENT_ERROR_VALUE_ZERO_OR_LESS "invalid path length is zero."
  else if path_length >? SSIZE_MAX - 1 then
    fail LIBCERROR_ERROR_DOMAIN_ARGUMENTS
      LIBCERROR_ARGUMENT_ERROR_VALUE_EXCEEDS_MAXIMUM
      "invalid path length value exceeds maximum."
  else
  match path_type with
  | None =>
      fail LIBCERROR_ERROR_DOMAIN_ARGUMENTS
        LIBCERROR_ARGUMENT_ERROR_INVALID_VALUE "invalid path type."
  | Some _ =>
  if has_special_prefix path path_length then
    if char_eqb (char_at path 2) "." then Ok LIBCPATH_TYPE_DEVICE
    else if has_unc_marker path path_length then
      Ok LIBCPATH_TYPE_EXTENDED_LENGTH_UNC
    else Ok LIBCPATH_TYPE_EXTENDED_LENGTH
  else if (2 <=? path_length)
          && char_eqb (char_at path 0) "\"
          && char_eqb (char_at path 1) "\" then
    Ok LIBCPATH_TYPE_UNC
  else if char_eqb (char_at path 0) "\" then
    Ok LIBCPATH_TYPE_ABSOLUTE
  else if (3 <=? path_length)
          && char_eqb (char_at path 1) ":"
          && char_eqb (char_at path 2) "\"
          && is_letter (char_at path 0) then
    Ok LIBCPATH_TYPE_ABSOLUTE
  else Ok LIBCPATH_TYPE_RELATIVE
  end
  end.

(** [for( i = start; i < path_length; i++ ) if( path[ i ] == '\\' )
    { i++; break; }], returning the final [i]; [fuel] bounds the number
    of iterations and [path_length - start] of it is enough. *)
Fixpoint scan_past_separator (fuel : nat) (path : cstring)
    (path_length i : Z) : Z :=
  match fuel with
  | O => i
  | S fuel' =>
      if i <? path_length then
        if char_eqb (char_at path i) "\" then i + 1
        else scan_past_separator fuel' path path_length (i + 1)
      else i
  end.

(** A [char *] into a string is the rest of the string from there on. *)
Definition pointer_into (path : cstring) (index : Z) : cstring :=
  drop (Z.to_nat index) path.

(** The last step of each branch: the name excludes a trailing separator *)
Definition volume_name_result (path : cstring) (volume_name_index path_index : Z)
    : option cstring * Z * Z :=
  let volume_name_length := size_sub path_index volume_name_index in
  let volume_name_length :=
    if char_eqb (char_at path (path_index - 1)) "\"
    then size_sub volume_name_length 1 else volume_name_length in
  (Some (pointer_into path volume_name_index), volume_name_length, path_index).

(** Where the volume name starts: lines 743-782 of the source *)
Definition find_volume_name_index (path : cstring) (path_length : Z) : Z :=
  if has_special_prefix path path_length then
    if char_eqb (char_at path 2) "." then 4
    else if has_unc_marker path path_length then 8
    else 4
  else if (2 <=? path_length)
          && char_eqb (char_at path 0) "\"
          && char_eqb (char_at path 1) "\" then 2
  else 0.

Definition libcpath_path_get_volume_name (path : option cstring)
    (path_length : Z) (volume_name : option (option cstring))
    (volume_name_length directory_name_index : option Z)
    : result (option cstring * Z * Z) :=
  match path with
  | None =>
      fail LIBCERROR_ERROR_DOMAIN_ARGUMENTS
        LIBCERROR_ARGUMENT_ERROR_INVALID_VALUE "invalid path."
  | Some path =>
  if path_length =? 0 then
    fail LIBCERROR_ERROR_DOMAIN_ARGUMENTS
      LIBCERROR_ARGUMENT_ERROR_VALUE_ZERO_OR_LESS "invalid path length is zero."
  else if path_length >? SSIZE_MAX - 1 then
    fail LIBCERROR_ERROR_DOMAIN_ARGUMENTS
      LIBCERROR_ARGUMENT_ERROR_VALUE_EXCEEDS_MAXIMUM
      "invalid path length value exceeds maximum."
  else
  match volume_name, volume_name_length, directory_name_index with
  | None, _, _ =>
      fail LIBCERROR_ERROR_DOMAIN_ARGUMENTS
        LIBCERROR_ARGUMENT_ERROR_INVALID_VALUE "invalid volume name."
  | Some _, None, _ =>
      fail LIBCERROR_ERROR_DOMAIN_ARGUMENTS
        LIBCERROR_ARGUMENT_ERROR_INVALID_VALUE "invalid volume name length."
  | Some _, Some _, None =>
      fail LIBCERROR_ERROR_DOMAIN_ARGUMENTS
        LIBCERROR_ARGUMENT_ERROR_INVALID_VALUE "invalid directory name index."
  | Some _, Some _, Some _ =>
  let volume_name_index := find_volume_name_index path path_length in
  if (2 <=? path_length)
     && (volume_name_index <=? path_length - 2)
     && char_eqb (char_at path (volume_name_index + 1)) ":"
     && is_letter (char_at path volume_name_index) then
    let path_index := volume_name_index + 2 in
    let path_index :=
      if (path_index <? path_length) && char_eqb (char_at path path_index) "\"
      then path_index + 1 else path_index in
    Ok (volume_name_result path volume_name_index path_index)
  else if volume_name_index =? 4 then
    let path_index :=
      scan_past_separator (Z.to_nat (path_length - volume_name_index))
        path path_length volume_name_index in
    Ok (volume_name_result path 4 path_index)
  else if (volume_name_index =? 2) || (volume_name_index =? 8) then
    let share_name_index :=
      scan_past_separator (Z.to_nat (path_length - volume_name_index))
        path path_length volume_name_index in
    if share_name_index >? path_length then
      fail LIBCERROR_ERROR_DOMAIN_RUNTIME
        LIBCERROR_RUNTIME_ERROR_VALUE_MISSING
        "invalid path - missing share name."
    else
    let path_index :=
      scan_past_separator (Z.to_nat (path_length - share_name_index))
        path path_length share_name_index in
    Ok (volume_name_result path volume_name_index path_index)
  else Ok (None, 0, 0)
  end
  end.

(** [GetCurrentDirectoryA] is asked for the size first and for the
    directory next. *)
Definition libcpath_path_get_current_working_directory
    (current_working_directory : option (option cstring))
    (current_working_directory_size : option Z) (w : world)
    : result (cstring * Z) * world :=
  match current_working_directory, current_working_directory_size with
  | None, _ =>
      (fail LIBCERROR_ERROR_DOMAIN_ARGUMENTS
         LIBCERROR_ARGUMENT_ERROR_INVALID_VALUE
         "invalid current working directory.", w)
  | Some (Some _), _ =>
      (fail LIBCERROR_ERROR_DOMAIN_RUNTIME
         LIBCERROR_RUNTIME_ERROR_VALUE_ALREADY_SET
         "invalid current working directory value already set.", w)
  | Some None, None =>
      (fail LIBCERROR_ERROR_DOMAIN_ARGUMENTS
         LIBCERROR_ARGUMENT_ERROR_INVALID_VALUE
         "invalid current working directory size.", w)
  | Some None, Some _ =>
      let w := os_log OS_get_current_directory w in
      let safe_current_working_directory_size :=
        narrow_string_length (working_directory w) + 1 in
      if safe_current_working_directory_size =? 0 then
        (fail LIBCERROR_ERROR_DOMAIN_RUNTIME
           LIBCERROR_RUNTIME_ERROR_GET_FAILED
           "unable to retrieve current working directory size.", w)
      else if safe_current_working_directory_size >? SSIZE_MAX then
        (fail LIBCERROR_ERROR_DOMAIN_RUNTIME
           LIBCERROR_RUNTIME_ERROR_VALUE_OUT_OF_BOUNDS
           "current working directory size value out of bounds.", w)
      else
      match narrow_string_allocate safe_current_working_directory_size with
      | None =>
          (fail LIBCERROR_ERROR_DOMAIN_MEMORY
             LIBCERROR_MEMORY_ERROR_INSUFFICIENT
             "unable to create current working directory.", w)
      | Some _ =>
          let w := os_log OS_get_current_directory w in
          (Ok (working_directory w, safe_current_working_directory_size), w)
      end
  end.

Definition libcpath_path_change_directory (directory_name : option cstring)
    (w : world) : result unit * world :=
  match directory_name with
  | None =>
      (fail LIBCERROR_ERROR_DOMAIN_ARGUMENTS
         LIBCERROR_ARGUMENT_ERROR_INVALID_VALUE "invalid directory name.", w)
  | Some name =>
      let w := os_log (OS_change_directory name) w in
      match change_directory w (working_directory w) name with
      | Some directory =>
          (Ok tt, mk_world directory (change_directory w) (os_calls w))
      | None =>
          (fail LIBCERROR_ERROR_DOMAIN_RUNTIME
             LIBCERROR_RUNTIME_ERROR_SET_FAILED "unable to change directory.", w)
      end
  end.

(** The second half of
    [libcpath_path_get_current_working_directory_by_volume]: read the
    directory, then go back to the saved one when there is one. *)
Definition read_and_restore
    (current_working_directory : option (option cstring))
    (current_working_directory_size : option Z)
    (current_volume_working_directory : option cstring) (w : world)
    : result (cstring * Z) * world :=
  let '(result, w) :=
    libcpath_path_get_current_working_directory
      current_working_directory current_working_directory_size w in
  let result :=
    do r <- result else (LIBCERROR_ERROR_DOMAIN_RUNTIME,
                         LIBCERROR_RUNTIME_ERROR_GET_FAILED,
                         "unable to retrieve current directory.");
    Ok r in
  match current_volume_working_directory with
  | None => (result, w)
  | Some saved =>
      match libcpath_path_change_directory (Some saved) w with
      | (Ok _, w) => (result, w)
      | (Err e, w) =>
          (Err (libcerror_error_set
                  (Some match result with Ok _ => e | Err e' => e' end)
                  LIBCERROR_ERROR_DOMAIN_RUNTIME
                  LIBCERROR_RUNTIME_ERROR_SET_FAILED
                  "unable to change current working directory."), w)
      end
  end.

Definition libcpath_path_get_current_working_directory_by_volume
    (volume_name : option cstring) (volume_name_length : Z)
    (current_working_directory : option (option cstring))
    (current_working_directory_size : option Z) (w : world)
    : result (cstring * Z) * world :=
  match current_working_directory, current_working_directory_size with
  | None, _ =>
      (fail LIBCERROR_ERROR_DOMAIN_ARGUMENTS
         LIBCERROR_ARGUMENT_ERROR_INVALID_VALUE
         "invalid current working directory.", w)
  | Some _, None =>
      (fail LIBCERROR_ERROR_DOMAIN_ARGUMENTS
         LIBCERROR_ARGUMENT_ERROR_INVALID_VALUE
         "invalid current working directory size.", w)
  | Some _, Some _ =>
      match volume_name with
      | None =>
          read_and_restore current_working_directory
            current_working_directory_size None w
      | Some name =>
          if volume_name_length >? SSIZE_MAX - 1 then
            (fail LIBCERROR_ERROR_DOMAIN_ARGUMENTS
               LIBCERROR_ARGUMENT_ERROR_VALUE_EXCEEDS_MAXIMUM
               "invalid volume name length value exceeds maximum.", w)
          else
          match libcpath_path_get_current_working_directory
                  (Some None) (Some 0) w with
          | (Err e, w) =>
              (Err (libcerror_error_set (Some e)
                      LIBCERROR_ERROR_DOMAIN_RUNTIME
                      LIBCERROR_RUNTIME_ERROR_GET_FAILED
                      "unable to retrieve current volume working directory."),
               w)
          | (Ok (current_volume_working_directory, _), w) =>
              match narrow_string_allocate (size_add volume_name_length 1) with
              | None =>
                  (fail LIBCERROR_ERROR_DOMAIN_MEMORY
                     LIBCERROR_MEMORY_ERROR_INSUFFICIENT
                     "unable to create change volume name.", w)
              | Some _ =>
                  let change_volume_name :=
                    take (Z.to_nat volume_name_length) name in
                  match libcpath_path_change_directory
                          (Some change_volume_name) w with
                  | (Err e, w) =>
                      (Err (libcerror_error_set (Some e)
                              LIBCERROR_ERROR_DOMAIN_RUNTIME
                              LIBCERROR_RUNTIME_ERROR_SET_FAILED
                              "unable to change current working directory."),
                       w)
                  | (Ok _, w) =>
                      read_and_restore current_working_directory
                        current_working_directory_size
                        (Some current_volume_working_directory) w
                  end
              end
          end
      end
  end.

Definition is_unc_type (path_type : LIBCPATH_TYPE) : bool :=
  LIBCPATH_TYPE_eqb path_type LIBCPATH_TYPE_EXTENDED_LENGTH_UNC
  || LIBCPATH_TYPE_eqb path_type LIBCPATH_TYPE_UNC.

(** "If the path is a device path, an extended-length path or an UNC do
    not bother to lookup the current working directory" *)
Definition is_full_type (path_type : LIBCPATH_TYPE) : bool :=
  LIBCPATH_TYPE_eqb path_type LIBCPATH_TYPE_DEVICE
  || LIBCPATH_TYPE_eqb path_type LIBCPATH_TYPE_EXTENDED_LENGTH
  || LIBCPATH_TYPE_eqb path_type LIBCPATH_TYPE_EXTENDED_LENGTH_UNC
  || LIBCPATH_TYPE_eqb path_type LIBCPATH_TYPE_UNC.

(** Everything after the working directory has been obtained: lines
    1260-1877 of the source.  [current_directory] is NULL ([None]) with
    size 0 when no lookup took place. *)
Definition resolve (path : cstring) (path_length : Z)
    (path_type : LIBCPATH_TYPE) (volume_name : option cstring)
    (volume_name_length path_directory_name_index : Z)
    (current_directory : option cstring)
    (current_directory_size current_directory_name_index : Z)
    : result (buffer * Z) :=
  do current_directory_split_string <-
       match current_directory with
       | Some directory =>
           if current_directory_name_index <? current_directory_size then
             let rest := pointer_into directory current_directory_name_index in
             let current_directory_length := narrow_string_length rest in
             do segments <- narrow_string_split rest
                              (size_add current_directory_length 1) "\"
               else (LIBCERROR_ERROR_DOMAIN_RUNTIME,
                     LIBCERROR_RUNTIME_ERROR_INITIALIZE_FAILED,
                     "unable to split current working directory.");
             Ok (Some segments)
           else Ok None
       | None => Ok None
       end;
  do path_split_string <-
       narrow_string_split (pointer_into path path_directory_name_index)
         (size_add (size_sub path_length path_directory_name_index) 1) "\"
    else (LIBCERROR_ERROR_DOMAIN_RUNTIME,
          LIBCERROR_RUNTIME_ERROR_INITIALIZE_FAILED, "unable to split path.");
  let safe_full_path_size := 4 in
  let safe_full_path_size :=
    match volume_name with
    | Some _ =>
        size_add safe_full_path_size (size_add volume_name_length 1)
    | None => safe_full_path_size
    end in
  let safe_full_path_size :=
    if is_unc_type path_type then size_add safe_full_path_size 4
    else safe_full_path_size in
  let safe_full_path_size :=
    if LIBCPATH_TYPE_eqb path_type LIBCPATH_TYPE_RELATIVE
       && (current_directory_name_index <? current_directory_size) then
      let safe_full_path_size :=
        size_add safe_full_path_size
          (size_sub current_directory_size
             (size_add current_directory_name_index 1)) in
      if (2 <=? current_directory_size)
         && negb (char_eqb
                    (char_at (default [] current_directory)
                       (current_directory_size - 2)) "\")
      then size_add safe_full_path_size 1
      else safe_full_path_size
    else safe_full_path_size in
  do current_directory_number_of_segments <-
       match current_directory_split_string with
       | Some segments =>
           do number <- narrow_split_string_get_number_of_segments segments
             else (LIBCERROR_ERROR_DOMAIN_RUNTIME,
                   LIBCERROR_RUNTIME_ERROR_GET_FAILED,
                   "unable to retrieve number of current working directory string segments.");
           Ok number
       | None => Ok 0
       end;
  let current_directory_segment_index :=
    match current_directory_split_string with
    | Some _ => current_directory_number_of_segments - 1
    | None => 0
    end in
  do path_number_of_segments <-
       narrow_split_string_get_number_of_segments path_split_string
    else (LIBCERROR_ERROR_DOMAIN_RUNTIME, LIBCERROR_RUNTIME_ERROR_GET_FAILED,
          "unable to retrieve number of path string segments.");
  do st <- for_loop (Z.to_nat path_number_of_segments) 0 count_segment
             (mk_state path_split_string current_directory_split_string
                safe_full_path_size current_directory_segment_index (-1));
  match narrow_string_allocate (Resolver.safe_full_path_size st) with
  | None =>
      fail LIBCERROR_ERROR_DOMAIN_MEMORY LIBCERROR_MEMORY_ERROR_INSUFFICIENT
        "unable to create full path."
  | Some full_path =>
      let full_path_size := Resolver.safe_full_path_size st in
      let full_path_prefix :=
        if LIBCPATH_TYPE_eqb path_type LIBCPATH_TYPE_DEVICE
        then str "\\.\" else str "\\?\" in
      let full_path := narrow_string_copy full_path 0 full_path_prefix 4 in
      let full_path_index := 4 in
      let '(full_path, full_path_index) :=
        if is_unc_type path_type then
          (narrow_string_copy full_path full_path_index (str "UNC\") 4,
           size_add full_path_index 4)
        else (full_path, full_path_index) in
      let '(full_path, full_path_index) :=
        match volume_name with
        | Some name =>
            let full_path :=
              narrow_string_copy full_path full_path_index name
                (Z.to_nat volume_name_length) in
            let full_path_index := size_add full_path_index volume_name_length in
            (store full_path full_path_index "\", size_add full_path_index 1)
        | None => (full_path, full_path_index)
        end in
      do out <-
           match LIBCPATH_TYPE_eqb path_type LIBCPATH_TYPE_RELATIVE,
                 Resolver.current_directory_split_string st with
           | true, Some segments =>
               write_segments "\" segments current_directory_number_of_segments
                 "unable to retrieve current working directory string segment."
                 (full_path, full_path_index)
           | _, _ => Ok (full_path, full_path_index)
           end;
      do out <- write_segments "\" (Resolver.path_split_string st)
                  path_number_of_segments
                  "unable to retrieve path string segment." out;
      Ok (store (fst out) (size_sub (snd out) 1) NUL, full_path_size)
  end.

Definition libcpath_path_get_full_path (path : option cstring)
    (path_length : Z) (full_path : option (option cstring))
    (full_path_size : option Z) (w : world)
    : result (buffer * Z) * world :=
  match path with
  | None =>
      (fail LIBCERROR_ERROR_DOMAIN_ARGUMENTS
         LIBCERROR_ARGUMENT_ERROR_INVALID_VALUE "invalid path.", w)
  | Some path_string =>
  if path_length =? 0 then
    (fail LIBCERROR_ERROR_DOMAIN_ARGUMENTS
       LIBCERROR_ARGUMENT_ERROR_VALUE_ZERO_OR_LESS
       "invalid path length is zero.", w)
  else if path_length >? SSIZE_MAX - 1 then
    (fail LIBCERROR_ERROR_DOMAIN_ARGUMENTS
       LIBCERROR_ARGUMENT_ERROR_VALUE_EXCEEDS_MAXIMUM
       "invalid path length value exceeds maximum.", w)
  else
  match full_path, full_path_size with
  | None, _ =>
      (fail LIBCERROR_ERROR_DOMAIN_ARGUMENTS
         LIBCERROR_ARGUMENT_ERROR_INVALID_VALUE "invalid full path.", w)
  | Some (Some _), _ =>
      (fail LIBCERROR_ERROR_DOMAIN_RUNTIME
         LIBCERROR_RUNTIME_ERROR_VALUE_ALREADY_SET
         "invalid full path value already set.", w)
  | Some None, None =>
      (fail LIBCERROR_ERROR_DOMAIN_ARGUMENTS
         LIBCERROR_ARGUMENT_ERROR_INVALID_VALUE "invalid full path size.", w)
  | Some None, Some _ =>
      match libcpath_path_get_path_type path path_length
              (Some LIBCPATH_TYPE_RELATIVE) with
      | Err e =>
          (Err (libcerror_error_set (Some e) LIBCERROR_ERROR_DOMAIN_RUNTIME
                  LIBCERROR_RUNTIME_ERROR_GET_FAILED
                  "unable to determine path type."), w)
      | Ok path_type =>
      match libcpath_path_get_volume_name path path_length
              (Some None) (Some 0) (Some 0) with
      | Err e =>
          (Err (libcerror_error_set (Some e) LIBCERROR_ERROR_DOMAIN_RUNTIME
                  LIBCERROR_RUNTIME_ERROR_GET_FAILED
                  "unable to determine volume name."), w)
      | Ok (volume_name, volume_name_length, path_directory_name_index) =>
          if is_full_type path_type then
            (resolve path_string path_length path_type volume_name
               volume_name_length path_directory_name_index None 0 0, w)
          else
            match libcpath_path_get_current_working_directory_by_volume
                    volume_name volume_name_length (Some None) (Some 0) w with
            | (Err e, w) =>
                (Err (libcerror_error_set (Some e)
                        LIBCERROR_ERROR_DOMAIN_RUNTIME
                        LIBCERROR_RUNTIME_ERROR_GET_FAILED
                        "unable to retrieve current working directory by volume."),
                 w)
            | (Ok (current_directory, current_directory_size), w) =>
                match libcpath_path_get_volume_name (Some current_directory)
                        (size_sub current_directory_size 1)
                        (Some volume_name) (Some volume_name_length)
                        (Some 0) with
                | Err e =>
                    (Err (libcerror_error_set (Some e)
                            LIBCERROR_ERROR_DOMAIN_RUNTIME
                            LIBCERROR_RUNTIME_ERROR_GET_FAILED
                            "unable to determine volume name from current working directory."),
                     w)
                | Ok (volume_name, volume_name_length,
                      current_directory_name_index) =>
                    (resolve path_string path_length path_type volume_name
                       volume_name_length path_directory_name_index
                       (Some current_directory) current_directory_size
                       current_directory_name_index, w)
                end
            end
      end
      end
  end
  end.

End Windows.

(** ** The sanitizer *)

Definition char_of_value (z : Z) : ascii := ascii_of_N (Z.to_N (z mod 256)).

Section Sanitizer.

(** [libcpath_definitions.h] is not part of the sources at hand: the
    platform switch and the escape character are parameters. *)
Variable WINAPI : bool.
Variable LIBCPATH_ESCAPE_CHARACTER : ascii.

Definition is_reserved (character : ascii) : bool :=
  char_eqb character "!" || char_eqb character "$"
  || char_eqb character "%" || char_eqb character "&"
  || char_eqb character "*" || char_eqb character "+"
  || char_eqb character ":" || char_eqb character ";"
  || char_eqb character "<" || char_eqb character ">"
  || char_eqb character "?" || char_eqb character "|"
  || (char_value character =? 127).

Definition libcpath_path_get_sanitized_character_size (character : ascii)
    (sanitized_character_size : option Z) : result Z :=
  match sanitized_character_size with
  | None =>
      fail LIBCERROR_ERROR_DOMAIN_ARGUMENTS
        LIBCERROR_ARGUMENT_ERROR_INVALID_VALUE
        "invalid sanitized character size."
  | Some _ =>
      if (0 <=? char_value character) && (char_value character <=? 31) then
        Ok 4
      else if char_eqb character LIBCPATH_ESCAPE_CHARACTER then Ok 2
      else if WINAPI && char_eqb character "/" then Ok 4
      else if is_reserved character then Ok 4
      else Ok 1
  end.

(** A nibble as the source renders it *)
Definition render_nibble (nibble : Z) : ascii :=
  if nibble >? 10
  then char_of_value (nibble + (char_value "a" - 10))
  else char_of_value (nibble + char_value "0").

Definition libcpath_path_get_sanitized_character (character : ascii)
    (sanitized_character_size : Z) (sanitized_path : option buffer)
    (sanitized_path_size : Z) (sanitized_path_index : option Z)
    : result (buffer * Z) :=
  if negb (sanitized_character_size =? 1)
     && negb (sanitized_character_size =? 2)
     && negb (sanitized_character_size =? 4) then
    fail LIBCERROR_ERROR_DOMAIN_ARGUMENTS
      LIBCERROR_ARGUMENT_ERROR_VALUE_OUT_OF_BOUNDS
      "invalid sanitized character size value out of bounds."
  else
  match sanitized_path with
  | None =>
      fail LIBCERROR_ERROR_DOMAIN_ARGUMENTS
        LIBCERROR_ARGUMENT_ERROR_INVALID_VALUE "invalid sanitized path."
  | Some sanitized_path =>
  if sanitized_path_size >? SSIZE_MAX then
    fail LIBCERROR_ERROR_DOMAIN_ARGUMENTS
      LIBCERROR_ARGUMENT_ERROR_VALUE_EXCEEDS_MAXIMUM
      "invalid sanitized path size value exceeds maximum."
  else
  match sanitized_path_index with
  | None =>
      fail LIBCERROR_ERROR_DOMAIN_ARGUMENTS
        LIBCERROR_ARGUMENT_ERROR_INVALID_VALUE "invalid sanitized path index."
  | Some safe_sanitized_path_index =>
  if safe_sanitized_path_index >? sanitized_path_size then
    fail LIBCERROR_ERROR_DOMAIN_ARGUMENTS
      LIBCERROR_ARGUMENT_ERROR_VALUE_OUT_OF_BOUNDS
      "invalid sanitized path index value out of bounds."
  else if (sanitized_character_size >? sanitized_path_size)
          || (safe_sanitized_path_index
              >? size_sub sanitized_path_size sanitized_character_size) then
    fail LIBCERROR_ERROR_DOMAIN_ARGUMENTS
      LIBCERROR_ARGUMENT_ERROR_VALUE_TOO_SMALL
      "invalid sanitized path size value too small."
  else if sanitized_character_size =? 1 then
    Ok (store sanitized_path safe_sanitized_path_index character,
        size_add safe_sanitized_path_index 1)
  else if sanitized_character_size =? 2 then
    let sanitized_path :=
      store sanitized_path safe_sanitized_path_index
        LIBCPATH_ESCAPE_CHARACTER in
    let sanitized_path :=
      store sanitized_path (size_add safe_sanitized_path_index 1)
        LIBCPATH_ESCAPE_CHARACTER in
    Ok (sanitized_path, size_add safe_sanitized_path_index 2)
  else
    let lower_nibble := Z.land (char_value character) 15 in
    let upper_nibble := Z.land (Z.shiftr (char_value character) 4) 15 in
    let sanitized_path :=
      store sanitized_path safe_sanitized_path_index
        LIBCPATH_ESCAPE_CHARACTER in
    let sanitized_path :=
      store sanitized_path (size_add safe_sanitized_path_index 1) "x" in
    let sanitized_path :=
      store sanitized_path (size_add safe_sanitized_path_index 2)
        (render_nibble upper_nibble) in
    let sanitized_path :=
      store sanitized_path (size_add safe_sanitized_path_index 3)
        (render_nibble lower_nibble) in
    Ok (sanitized_path, size_add safe_sanitized_path_index 4)
  end
  end.

End Sanitizer.

(** ** The joiner *)

Section Join.

(** [libcpath_definitions.h] is not part of the sources at hand: the
    separator is a parameter. *)
Variable LIBCPATH_SEPARATOR : ascii.

(** [while( directory_name_length > 0 )
      { if( directory_name[ directory_name_length - 1 ] != separator ) break;
        directory_name_length--; }] *)
Fixpoint strip_trailing_separators (fuel : nat) (directory_name : cstring)
    (directory_name_length : Z) : Z :=
  match fuel with
  | O => directory_name_length
  | S fuel' =>
      if directory_name_length >? 0 then
        if negb (char_eqb (char_at directory_name (directory_name_length - 1))
                   LIBCPATH_SEPARATOR)
        then directory_name_length
        else strip_trailing_separators fuel' directory_name
               (size_sub directory_name_length 1)
      else directory_name_length
  end.

(** [while( filename_length > 0 )
      { if( filename[ filename_index ] != separator ) break;
        filename_index++; filename_length--; }] *)
Fixpoint strip_leading_separators (fuel : nat) (filename : cstring)
    (filename_index filename_length : Z) : Z * Z :=
  match fuel with
  | O => (filename_index, filename_length)
  | S fuel' =>
      if filename_length >? 0 then
        if negb (char_eqb (char_at filename filename_index) LIBCPATH_SEPARATOR)
        then (filename_index, filename_length)
        else strip_leading_separators fuel' filename
               (size_add filename_index 1) (size_sub filename_length 1)
      else (filename_index, filename_length)
  end.

Definition libcpath_path_join (path : option (option cstring))
    (path_size : option Z) (directory_name : option cstring)
    (directory_name_length : Z) (filename : option cstring)
    (filename_length : Z) : result (buffer * Z) :=
  match path, path_size with
  | None, _ =>
      fail LIBCERROR_ERROR_DOMAIN_ARGUMENTS
        LIBCERROR_ARGUMENT_ERROR_INVALID_VALUE "invalid path."
  | Some (Some _), _ =>
      fail LIBCERROR_ERROR_DOMAIN_RUNTIME
        LIBCERROR_RUNTIME_ERROR_VALUE_ALREADY_SET
        "invalid path value already set."
  | Some None, None =>
      fail LIBCERROR_ERROR_DOMAIN_ARGUMENTS
        LIBCERROR_ARGUMENT_ERROR_INVALID_VALUE "invalid path size."
  | Some None, Some _ =>
  match directory_name with
  | None =>
      fail LIBCERROR_ERROR_DOMAIN_ARGUMENTS
        LIBCERROR_ARGUMENT_ERROR_INVALID_VALUE "invalid directory name."
  | Some directory_name =>
  if directory_name_length >? SSIZE_MAX then
    fail LIBCERROR_ERROR_DOMAIN_ARGUMENTS
      LIBCERROR_ARGUMENT_ERROR_VALUE_EXCEEDS_MAXIMUM
      "invalid directory name length value exceeds maximum."
  else
  match filename with
  | None =>
      fail LIBCERROR_ERROR_DOMAIN_ARGUMENTS
        LIBCERROR_ARGUMENT_ERROR_INVALID_VALUE "invalid filename."
  | Some filename =>
  if filename_length >? SSIZE_MAX then
    fail LIBCERROR_ERROR_DOMAIN_ARGUMENTS
      LIBCERROR_ARGUMENT_ERROR_VALUE_EXCEEDS_MAXIMUM
      "invalid filename length value exceeds maximum."
  else
    let directory_name_length :=
      strip_trailing_separators (Z.to_nat directory_name_length)
        directory_name directory_name_length in
    let '(filename_index, filename_length) :=
      strip_leading_separators (Z.to_nat filename_length) filename 0
        filename_length in
    let path_size :=
      size_add (size_add directory_name_length filename_length) 2 in
    match narrow_string_allocate path_size with
    | None =>
        fail LIBCERROR_ERROR_DOMAIN_MEMORY LIBCERROR_MEMORY_ERROR_INSUFFICIENT
          "unable to create path."
    | Some path =>
        let path :=
          narrow_string_copy path 0 directory_name
            (Z.to_nat directory_name_length) in
        let path_index := directory_name_length in
        let path := store path path_index LIBCPATH_SEPARATOR in
        let path_index := size_add path_index 1 in
        let path :=
          narrow_string_copy path path_index
            (drop (Z.to_nat filename_index) filename)
            (Z.to_nat filename_length) in
        let path_index := size_add path_index filename_length in
        Ok (store path path_index NUL, path_size)
    end
  end
  end
  end.

End Join.

(** ** Sanitized file names and paths *)

(** Modelled from the spec: "low-level memory allocation/zeroing" is an
    external collaborator.  [narrow_string_allocate] without a
    [memory_set]: the request is granted up to [SSIZE_MAX] characters and
    the allocation holds what the heap held, [heap i] at index [i]. *)
Definition narrow_string_allocate_uninitialized (heap : nat -> ascii)
    (size : Z) : option buffer :=
  if size <=? SSIZE_MAX
  then Some (mk_buffer (map heap (seq 0 (Z.to_nat size))) [])
  else None.

Section SanitizedNames.

(** [libcpath_definitions.h] is not part of the sources at hand: the
    platform switch, the escape character and the separator are
    parameters, as is the content of the heap. *)
Variable WINAPI : bool.
Variable LIBCPATH_ESCAPE_CHARACTER : ascii.
Variable LIBCPATH_SEPARATOR : ascii.
Variable heap : nat -> ascii.

(** [if( filename[ filename_index ] == LIBCPATH_SEPARATOR )
      sanitized_character_size = 4;
    else if( libcpath_path_get_sanitized_character_size( .. ) != 1 ) ..] *)
Definition sanitized_filename_character_size (character : ascii) : result Z :=
  if char_eqb character LIBCPATH_SEPARATOR then Ok 4
  else
    do sanitized_character_size <-
      libcpath_path_get_sanitized_character_size WINAPI
        LIBCPATH_ESCAPE_CHARACTER character (Some 0)
      else (LIBCERROR_ERROR_DOMAIN_RUNTIME,
            LIBCERROR_RUNTIME_ERROR_GET_FAILED,
            "unable to determine sanitize character size.");
    Ok sanitized_character_size.

Definition libcpath_path_get_sanitized_filename (filename : option cstring)
    (filename_length : Z) (sanitized_filename : option (option cstring))
    (sanitized_filename_size : option Z) : result (buffer * Z) :=
  match filename with
  | None =>
      fail LIBCERROR_ERROR_DOMAIN_ARGUMENTS
        LIBCERROR_ARGUMENT_ERROR_INVALID_VALUE "invalid filename."
  | Some filename =>
  if filename_length =? 0 then
    fail LIBCERROR_ERROR_DOMAIN_ARGUMENTS
      LIBCERROR_ARGUMENT_ERROR_VALUE_ZERO_OR_LESS
      "invalid filename length is zero."
  else if filename_length >? SSIZE_MAX - 1 then
    fail LIBCERROR_ERROR_DOMAIN_ARGUMENTS
      LIBCERROR_ARGUMENT_ERROR_VALUE_EXCEEDS_MAXIMUM
      "invalid filename length value exceeds maximum."
  else
  match sanitized_filename, sanitized_filename_size with
  | None, _ =>
      fail LIBCERROR_ERROR_DOMAIN_ARGUMENTS
        LIBCERROR_ARGUMENT_ERROR_INVALID_VALUE "invalid sanitized filename."
  | Some (Some _), _ =>
      fail LIBCERROR_ERROR_DOMAIN_RUNTIME
        LIBCERROR_RUNTIME_ERROR_VALUE_ALREADY_SET
        "invalid sanitized filename value already set."
  | Some None, None =>
      fail LIBCERROR_ERROR_DOMAIN_ARGUMENTS
        LIBCERROR_ARGUMENT_ERROR_INVALID_VALUE
        "invalid sanitized filename size."
  | Some None, Some _ =>
      do safe_sanitized_filename_size <-
        for_loop (Z.to_nat filename_length) 0
          (fun filename_index safe_sanitized_filename_size =>
             do sanitized_character_size <-
               sanitized_filename_character_size
                 (char_at filename filename_index);
             Ok (size_add safe_sanitized_filename_size
                   sanitized_character_size))
          1;
      if safe_sanitized_filename_size >? SSIZE_MAX then
        fail LIBCERROR_ERROR_DOMAIN_ARGUMENTS
          LIBCERROR_ARGUMENT_ERROR_VALUE_EXCEEDS_MAXIMUM
          "invalid sanitized filename size value exceeds maximum."
      else
      match narrow_string_allocate_uninitialized heap
              safe_sanitized_filename_size with
      | None =>
          fail LIBCERROR_ERROR_DOMAIN_MEMORY
            LIBCERROR_MEMORY_ERROR_INSUFFICIENT
            "unable to create sanitized filename."
      | Some safe_sanitized_filename =>
          do out <-
            for_loop (Z.to_nat filename_length) 0
              (fun filename_index out =>
                 do sanitized_character_size <-
                   sanitized_filename_character_size
                     (char_at filename filename_index);
                 do out <-
                   libcpath_path_get_sanitized_character
                     LIBCPATH_ESCAPE_CHARACTER
                     (char_at filename filename_index)
                     sanitized_character_size (Some (fst out))
                     safe_sanitized_filename_size (Some (snd out))
                   else (LIBCERROR_ERROR_DOMAIN_RUNTIME,
                         LIBCERROR_RUNTIME_ERROR_GET_FAILED,
                         "unable to determine sanitize character size.");
                 Ok out)
              (safe_sanitized_filename, 0);
          Ok (store (fst out) (snd out) NUL, safe_sanitized_filename_size)
      end
  end
  end.

Definition libcpath_path_get_sanitized_path (path : option cstring)
    (path_length : Z) (sanitized_path : option (option cstring))
    (sanitized_path_size : option Z) : result (buffer * Z) :=
  match path with
  | None =>
      fail LIBCERROR_ERROR_DOMAIN_ARGUMENTS
        LIBCERROR_ARGUMENT_ERROR_INVALID_VALUE "invalid path."
  | Some path =>
  if path_length =? 0 then
    fail LIBCERROR_ERROR_DOMAIN_ARGUMENTS
      LIBCERROR_ARGUMENT_ERROR_VALUE_ZERO_OR_LESS
      "invalid path length is zero."
  else if path_length >? SSIZE_MAX - 1 then
    fail LIBCERROR_ERROR_DOMAIN_ARGUMENTS
      LIBCERROR_ARGUMENT_ERROR_VALUE_EXCEEDS_MAXIMUM
      "invalid path length value exceeds maximum."
  else
  match sanitized_path, sanitized_path_size with
  | None, _ =>
      fail LIBCERROR_ERROR_DOMAIN_ARGUMENTS
        LIBCERROR_ARGUMENT_ERROR_INVALID_VALUE "invalid sanitized path."
  | Some (Some _), _ =>
      fail LIBCERROR_ERROR_DOMAIN_RUNTIME
        LIBCERROR_RUNTIME_ERROR_VALUE_ALREADY_SET
        "invalid sanitized path value already set."
  | Some None, None =>
      fail LIBCERROR_ERROR_DOMAIN_ARGUMENTS
        LIBCERROR_ARGUMENT_ERROR_INVALID_VALUE "invalid sanitized path size."
  | Some None, Some _ =>
      do counted <-
        for_loop (Z.to_nat path_length) 0
          (fun path_index counted =>
             do sanitized_character_size <-
               libcpath_path_get_sanitized_character_size WINAPI
                 LIBCPATH_ESCAPE_CHARACTER (char_at path path_index) (Some 0)
               else (LIBCERROR_ERROR_DOMAIN_RUNTIME,
                     LIBCERROR_RUNTIME_ERROR_GET_FAILED,
                     "unable to determine sanitize character size.");
             Ok (size_add (fst counted) sanitized_character_size,
                 if WINAPI
                    && char_eqb (char_at path path_index) LIBCPATH_SEPARATOR
                 then path_index
                 else snd counted))
          (1, 0);
      let safe_sanitized_path_size := fst counted in
      let last_path_segment_seperator_index := snd counted in
      if safe_sanitized_path_size >? SSIZE_MAX then
        fail LIBCERROR_ERROR_DOMAIN_ARGUMENTS
          LIBCERROR_ARGUMENT_ERROR_VALUE_EXCEEDS_MAXIMUM
          "invalid sanitized path size value exceeds maximum."
      else if WINAPI && (last_path_segment_seperator_index >? 32767) then
        fail LIBCERROR_ERROR_DOMAIN_RUNTIME
          LIBCERROR_RUNTIME_ERROR_VALUE_OUT_OF_BOUNDS
          "last path segment separator value out of bounds."
      else
      let safe_sanitized_path_size :=
        if WINAPI && (safe_sanitized_path_size >? 32767) then 32767
        else safe_sanitized_path_size in
      match narrow_string_allocate_uninitialized heap
              safe_sanitized_path_size with
      | None =>
          fail LIBCERROR_ERROR_DOMAIN_MEMORY
            LIBCERROR_MEMORY_ERROR_INSUFFICIENT
            "unable to create sanitized path."
      | Some safe_sanitized_path =>
          do out <-
            for_loop (Z.to_nat path_length) 0
              (fun path_index out =>
                 do sanitized_character_size <-
                   libcpath_path_get_sanitized_character_size WINAPI
                     LIBCPATH_ESCAPE_CHARACTER (char_at path path_index)
                     (Some 0)
                   else (LIBCERROR_ERROR_DOMAIN_RUNTIME,
                         LIBCERROR_RUNTIME_ERROR_GET_FAILED,
                         "unable to determine sanitize character size.");
                 do out <-
                   libcpath_path_get_sanitized_character
                     LIBCPATH_ESCAPE_CHARACTER (char_at path path_index)
                     sanitized_character_size (Some (fst out))
                     safe_sanitized_path_size (Some (snd out))
                   else (LIBCERROR_ERROR_DOMAIN_RUNTIME,
                         LIBCERROR_RUNTIME_ERROR_GET_FAILED,
                         "unable to determine sanitize character size.");
                 Ok out)
              (safe_sanitized_path, 0);
          Ok (store (fst out) (snd out) NUL, safe_sanitized_path_size)
      end
  end
  end.

End SanitizedNames.

(** ** Definitions used to state the properties *)

(** A world whose working directory is [directory]; a change request
    moves to the requested name. *)
Definition world_at (directory : string) : world :=
  mk_world (str directory) (fun _ name => Some name) [].

(** A world with drives: a change to a bare drive name [X:] lands in the
    root directory [X:\] of that drive, any other request moves to the
    requested name. *)
Definition world_with_drives (directory : string) : world :=
  mk_world (str directory)
    (fun _ name =>
       if (length name =? 2)%nat then Some (name ++ ["\"%char])
       else Some name)
    [].

(** A well-formed call: the length passed along with a string is the
    length of that string. *)
Definition length_of (s : cstring) : Z := Z.of_nat (length s).

(** The index of the segment that follows the segments [done] *)
Definition index_after (done : list (option cstring)) : Z :=
  Z.of_nat (length done).

Fixpoint starts_with (prefix path : cstring) : bool :=
  match prefix, path with
  | [], _ => true
  | _ :: _, [] => false
  | p :: prefix', c :: path' => char_eqb c p && starts_with prefix' path'
  end.

Definition drive_pattern (path : cstring) : bool :=
  match path with
  | letter :: colon :: separator :: _ =>
      Windows.is_letter letter && char_eqb colon ":" && char_eqb separator "\"
  | _ => false
  end.

(** The classification rules of the specification, in their order; the
    first rule that matches decides, and a path matching none is
    relative. *)
Definition classification_rules : list ((cstring -> bool) * LIBCPATH_TYPE) :=
  [ (starts_with (str "\\.\"), LIBCPATH_TYPE_DEVICE);
    (starts_with (str "\\?\UNC\"), LIBCPATH_TYPE_EXTENDED_LENGTH_UNC);
    (starts_with (str "\\?\"), LIBCPATH_TYPE_EXTENDED_LENGTH);
    (starts_with (str "\\"), LIBCPATH_TYPE_UNC);
    (starts_with (str "\"), LIBCPATH_TYPE_ABSOLUTE);
    (drive_pattern, LIBCPATH_TYPE_ABSOLUTE) ].

Fixpoint first_match (rules : list ((cstring -> bool) * LIBCPATH_TYPE))
    (path : cstring) : LIBCPATH_TYPE :=
  match rules with
  | [] => LIBCPATH_TYPE_RELATIVE
  | (applies, path_type) :: rules' =>
      if applies path then path_type else first_match rules' path
  end.

(** The characters written for [character] into a buffer that has
    exactly the room asked for. *)
Definition sanitized_form (escape character : ascii) (size : Z)
    : option cstring :=
  match libcpath_path_get_sanitized_character escape character size
          (narrow_string_allocate size) size (Some 0) with
  | Ok (sanitized_path, _) => Some (buffer_data sanitized_path)
  | Err _ => None
  end.

Definition is_lowercase_hex_digit (c : ascii) : bool :=
  ((char_value "0" <=? char_value c) && (char_value c <=? char_value "9"))
  || ((char_value "a" <=? char_value c) && (char_value c <=? char_value "f")).

(** The string without its leading separators, and without its trailing
    ones *)
Fixpoint without_leading (separator : ascii) (s : cstring) : cstring :=
  match s with
  | [] => []
  | c :: rest =>
      if char_eqb c separator then without_leading separator rest else s
  end.

Definition without_trailing (separator : ascii) (s : cstring) : cstring :=
  reverse (without_leading separator (reverse s)).

(** Segments put together with a separator between them *)
Fixpoint joined (separator : ascii) (segments : list cstring) : cstring :=
  match segments with
  | [] => []
  | [segment] => segment
  | segment :: rest => segment ++ separator :: joined separator rest
  end.

(** Each segment followed by a separator: what a writing loop emits *)
Definition written (separator : ascii) (segments : list cstring) : cstring :=
  concat (map (fun segment => segment ++ [separator]) segments).

(** The sizes of the segments, each counting its end-of-string character *)
Definition segments_size (segments : list cstring) : Z :=
  length_of (written NUL segments).

(** The segments that are not cleared *)
Definition surviving (segments : list (option cstring)) : list cstring :=
  omap id segments.

(** A directory or file name: not empty, not [.] and not [..] *)
Definition is_plain_name (segment : cstring) : bool :=
  match segment with
  | [] => false
  | [c] => negb (char_eqb c ".")
  | [c1; c2] => negb (char_eqb c1 "." && char_eqb c2 ".")
  | _ => true
  end.

Definition free_of (c : ascii) (segment : cstring) : bool :=
  forallb (fun x => negb (char_eqb x c)) segment.

(** A normalized list of names for the separator: at least one name,
    every name plain and free of the separator and of NUL *)
Definition normalized (separator : ascii) (names : list cstring) : Prop :=
  names <> []
  /\ Forall (fun name => is_plain_name name = true) names
  /\ Forall (fun name => free_of separator name = true) names
  /\ Forall (fun name => free_of NUL name = true) names.

(** The segments [..] and [.] *)
Definition is_up (segment : cstring) : bool :=
  match segment with
  | [c1; c2] => char_eqb c1 "." && char_eqb c2 "."
  | _ => false
  end.

Definition is_here (segment : cstring) : bool :=
  match segment with
  | [c] => char_eqb c "."
  | _ => false
  end.

(** What the counting loop does to the names of a path when there is no
    working directory segment list, as a walk with a stack of names (the
    top of the stack first): a name is pushed, [.] and the empty segment
    are skipped, [..] removes the top name.  A [..] on the empty stack is
    skipped as long as no name has been pushed at all; once a name has
    been pushed, a [..] on the empty stack ends the walk with a
    failure. *)
Fixpoint walk (segments stack : list cstring) (pushed : bool)
    : option (list cstring) :=
  match segments with
  | [] => Some (reverse stack)
  | segment :: rest =>
      if is_up segment then
        match stack with
        | _ :: below => walk rest below pushed
        | [] => if pushed then None else walk rest [] false
        end
      else if is_plain_name segment then walk rest (segment :: stack) true
      else walk rest stack pushed
  end.

(** The text of an absolute POSIX path with these names; without names
    it is the empty string, the separator of the root being replaced by
    the terminator. *)
Definition rooted (names : list cstring) : cstring :=
  match names with
  | [] => []
  | _ => "/"%char :: joined "/" names
  end.

(** The index of the last segment before [reversed_before] (the visited
    segments, the last one first) that is not cleared, 0 without one *)
Fixpoint previous_used (reversed_before : list (option cstring)) : Z :=
  match reversed_before with
  | [] => 0
  | Some _ :: before => Z.of_nat (length before)
  | None :: before => previous_used before
  end.

(** The characters written for a character of the given sanitized
    size: the character itself, the escape character twice, or the escape
    character, [x] and the two nibbles of the character *)
Definition escaped (escape character : ascii) (size : Z) : cstring :=
  if size =? 1 then [character]
  else if size =? 2 then [escape; escape]
  else [escape; "x"%char;
        render_nibble (Z.land (Z.shiftr (char_value character) 4) 15);
        render_nibble (Z.land (char_value character) 15)].

(** The sanitized size of a character of a path, and of a file name *)
Definition path_character_size (windows : bool) (escape character : ascii)
    : Z :=
  match libcpath_path_get_sanitized_character_size windows escape character
          (Some 0) with
  | Ok size => size
  | Err _ => 0
  end.

Definition filename_character_size (windows : bool)
    (escape separator character : ascii) : Z :=
  if char_eqb character separator then 4
  else path_character_size windows escape character.

(** A string with every character replaced by its escaped form *)
Definition sanitized (size_of : ascii -> Z) (escape : ascii) (s : cstring)
    : cstring :=
  concat (map (fun character => escaped escape character (size_of character))
            s).

(** A character that is neither a control character, nor the escape
    character, nor reserved, nor, on Windows, a forward slash *)
Definition is_safe_character (windows : bool) (escape character : ascii)
    : bool :=
  negb ((0 <=? char_value character) && (char_value character <=? 31))
  && negb (char_eqb character escape)
  && negb (windows && char_eqb character "/")
  && negb (is_reserved character).

(** The characters compared one by one in lines 2661 to 2673 of the
    source: [! $ % & * + : ; < > ? |] and the character 0x7f *)
Definition reserved_characters : list ascii :=
  str "!$%&*+:;<>?|" ++ [ascii_of_nat 127].

(** The value of a rendered nibble, and the string whose escaped forms
    are read back: the escape character twice is the escape character,
    the escape character, a letter and two rendered nibbles are the
    character with these nibbles *)
Definition nibble_value (digit : ascii) : Z :=
  if char_value digit >? char_value ":"
  then char_value digit - (char_value "a" - 10)
  else char_value digit - char_value "0".

Fixpoint unsanitized (escape : ascii) (s : cstring) : cstring :=
  match s with
  | [] => []
  | c :: rest =>
      if char_eqb c escape then
        match rest with
        | [] => []
        | d :: rest' =>
            if char_eqb d escape then escape :: unsanitized escape rest'
            else
              match rest' with
              | upper :: lower :: rest'' =>
                  char_of_value (nibble_value upper * 16 + nibble_value lower)
                  :: unsanitized escape rest''
              | _ => []
              end
        end
      else c :: unsanitized escape rest
  end.

(** The paths that are a prefix and nothing else *)
Definition bare_prefixes : list cstring :=
  [str "\\"; str "\\.\"; str "\\?\"; str "\\?\UNC\"].

(** The state with another list of working directory segments *)
Definition with_working_directory
    (current_directory_segments : option (list (option cstring)))
    (st : Resolver.state) : Resolver.state :=
  Resolver.mk_state (Resolver.path_split_string st) current_directory_segments
    (Resolver.safe_full_path_size st)
    (Resolver.current_directory_segment_index st)
    (Resolver.last_used_path_segment_index st).

(** The text that follows a volume name: nothing without names *)
Definition after_volume (names : list cstring) : cstring :=
  match names with
  | [] => []
  | _ => "\"%char :: joined "\" names
  end.




(** ** Arithmetic helpers *)

Lemma SSIZE_MAX_value : SSIZE_MAX = 9223372036854775807.
Proof. reflexivity. Qed.

Lemma SIZE_MAX_value : SIZE_MAX = 18446744073709551615.
Proof. reflexivity. Qed.

Lemma size_add_exact (a b : Z) :
  0 <= a + b <= SIZE_MAX -> size_add a b = a + b.
Proof.
  rewrite SIZE_MAX_value. intros H. unfold size_add.
  change (2 ^ 64) with 18446744073709551616.
  apply Z.mod_small. lia.
Qed.

Lemma size_sub_exact (a b : Z) :
  0 <= a - b <= SIZE_MAX -> size_sub a b = a - b.
Proof.
  rewrite SIZE_MAX_value. intros H. unfold size_sub.
  change (2 ^ 64) with 18446744073709551616.
  apply Z.mod_small. lia.
Qed.

Ltac size_lia :=
  rewrite ?SSIZE_MAX_value, ?SIZE_MAX_value in *; lia.

(** ** The classifier *)

Ltac decide_comparisons :=
  repeat match goal with
  | |- context [?a <=? ?b] => destruct (Z.leb_spec a b); try size_lia
  | |- context [?a <? ?b] => destruct (Z.ltb_spec a b); try size_lia
  | |- context [?a >? ?b] =>
      rewrite (Z.gtb_ltb a b); destruct (Z.ltb_spec b a); try size_lia
  | |- context [?a =? ?b] => destruct (Z.eqb_spec a b); try size_lia
  end.

Ltac is_positive_literal p :=
  lazymatch p with
  | xH => idtac
  | xO ?q => is_positive_literal q
  | xI ?q => is_positive_literal q
  end.

Ltac is_literal x :=
  lazymatch x with
  | Z0 => idtac
  | Zpos ?p => is_positive_literal p
  | Zneg ?p => is_positive_literal p
  end.

Ltac compute_indices :=
  repeat match goal with
  | |- context [Z.to_nat ?k] =>
      is_literal k;
      let v := eval vm_compute in (Z.to_nat k) in
      progress change (Z.to_nat k) with v
  end.

Ltac fold_arithmetic :=
  repeat match goal with
  | |- context [Z.add ?a ?b] =>
      is_literal a; is_literal b;
      let v := eval vm_compute in (Z.add a b) in change (Z.add a b) with v
  | |- context [Z.sub ?a ?b] =>
      is_literal a; is_literal b;
      let v := eval vm_compute in (Z.sub a b) in change (Z.sub a b) with v
  | |- context [size_add ?a ?b] =>
      is_literal a; is_literal b;
      let v := eval vm_compute in (size_add a b) in
      change (size_add a b) with v
  | |- context [size_sub ?a ?b] =>
      is_literal a; is_literal b;
      let v := eval vm_compute in (size_sub a b) in
      change (size_sub a b) with v
  end.

Ltac decide_characters :=
  repeat match goal with
  | |- context [char_eqb ?a ?b] => is_var a; destruct (char_eqb a b)
  | |- context [Windows.is_letter ?a] => is_var a; destruct (Windows.is_letter a)
  end.

Lemma get_path_type_first_match (path : cstring) (slot : LIBCPATH_TYPE) :
  1 <= length_of path <= SSIZE_MAX - 1 ->
  Windows.libcpath_path_get_path_type (Some path) (length_of path) (Some slot)
  = Ok (first_match classification_rules path).
Proof.
  intros Hlen. unfold Windows.libcpath_path_get_path_type.
  destruct (Z.eqb_spec (length_of path) 0); [lia|].
  rewrite Z.gtb_ltb.
  destruct (Z.ltb_spec (SSIZE_MAX - 1) (length_of path)); [lia|].
  unfold Windows.has_special_prefix, Windows.has_unc_marker, length_of in *.
  destruct path as [|c0 [|c1 [|c2 [|c3 [|c4 [|c5 [|c6 [|c7 rest]]]]]]]];
    cbn [length] in *; unfold char_at; compute_indices;
    cbn -[Z.of_nat Z.leb char_eqb Windows.is_letter];
    decide_comparisons; decide_characters; reflexivity.
Qed.

(** C5: the classifier applies the rules of the specification in their
    order, the first matching rule deciding (a path matching none is
    relative); in particular [C:\foo] and [\foo] are absolute, [foo\bar]
    is relative, [\\server\share] is UNC, [\\?\C:\foo] is
    extended-length, [\\?\UNC\server\share] is extended-length UNC and
    [\\.\PhysicalDrive0] is a device path. *)
Theorem classify_path_table :
  (forall (path : cstring) (slot : LIBCPATH_TYPE),
     1 <= length_of path <= SSIZE_MAX - 1 ->
     Windows.libcpath_path_get_path_type (Some path) (length_of path)
       (Some slot)
     = Ok (first_match classification_rules path))
  /\ Windows.libcpath_path_get_path_type (Some (str "C:\foo")) 6
       (Some LIBCPATH_TYPE_RELATIVE) = Ok LIBCPATH_TYPE_ABSOLUTE
  /\ Windows.libcpath_path_get_path_type (Some (str "\foo")) 4
       (Some LIBCPATH_TYPE_RELATIVE) = Ok LIBCPATH_TYPE_ABSOLUTE
  /\ Windows.libcpath_path_get_path_type (Some (str "foo\bar")) 7
       (Some LIBCPATH_TYPE_RELATIVE) = Ok LIBCPATH_TYPE_RELATIVE
  /\ Windows.libcpath_path_get_path_type (Some (str "\\server\share")) 14
       (Some LIBCPATH_TYPE_RELATIVE) = Ok LIBCPATH_TYPE_UNC
  /\ Windows.libcpath_path_get_path_type (Some (str "\\?\C:\foo")) 10
       (Some LIBCPATH_TYPE_RELATIVE) = Ok LIBCPATH_TYPE_EXTENDED_LENGTH
  /\ Windows.libcpath_path_get_path_type (Some (str "\\?\UNC\server\share")) 20
       (Some LIBCPATH_TYPE_RELATIVE) = Ok LIBCPATH_TYPE_EXTENDED_LENGTH_UNC
  /\ Windows.libcpath_path_get_path_type (Some (str "\\.\PhysicalDrive0")) 18
       (Some LIBCPATH_TYPE_RELATIVE) = Ok LIBCPATH_TYPE_DEVICE.
Proof.
  split; [exact get_path_type_first_match|].
  repeat split; reflexivity.
Qed.

Lemma classify_path_table_witness :
  1 <= length_of (str "\\?\UNC\server\share") <= SSIZE_MAX - 1
  /\ Windows.libcpath_path_get_path_type (Some (str "\\?\UNC\server\share"))
       (length_of (str "\\?\UNC\server\share")) (Some LIBCPATH_TYPE_RELATIVE)
     = Ok (first_match classification_rules (str "\\?\UNC\server\share")).
Proof.
  split.
  - vm_compute. split; discriminate.
  - apply (proj1 classify_path_table). vm_compute. split; discriminate.
Defined.

(** ** Volume names *)

Lemma scan_past_separator_bounds (fuel : nat) (path : cstring)
    (path_length i : Z) :
  i <= path_length ->
  i <= Windows.scan_past_separator fuel path path_length i <= path_length.
Proof.
  revert i. induction fuel as [|fuel IH]; intros i Hi; cbn; [lia|].
  destruct (Z.ltb_spec i path_length); [|lia].
  destruct (char_eqb (char_at path i) "\"); [lia|].
  specialize (IH (i + 1)). lia.
Qed.

Lemma find_volume_name_index_cases (path : cstring) (path_length : Z) :
  let index := Windows.find_volume_name_index path path_length in
  index = 0 \/ (index = 4 /\ 4 <= path_length)
  \/ (index = 8 /\ 8 <= path_length) \/ (index = 2 /\ 2 <= path_length).
Proof.
  unfold Windows.find_volume_name_index, Windows.has_special_prefix,
    Windows.has_unc_marker.
  destruct (Z.leb_spec 4 path_length); destruct (Z.leb_spec 8 path_length);
    destruct (Z.leb_spec 2 path_length); cbn -[char_eqb char_at];
    repeat match goal with
    | |- context [char_eqb ?a ?b] => destruct (char_eqb a b); cbn -[char_eqb char_at]
    end; lia.
Qed.

(** The missing-share-name branch of [libcpath_path_get_volume_name]
    cannot be taken: the scan for the end of the server name never moves
    past the end of the path. *)
Lemma get_volume_name_never_missing (path : option cstring) (path_length : Z)
    (volume_name : option (option cstring))
    (volume_name_length directory_name_index : option Z)
    (e : libcerror_error_t) :
  Windows.libcpath_path_get_volume_name path path_length volume_name
    volume_name_length directory_name_index = Err e ->
  error_domain e = LIBCERROR_ERROR_DOMAIN_ARGUMENTS.
Proof.
  unfold Windows.libcpath_path_get_volume_name.
  destruct path as [path|]; [|intros [= <-]; reflexivity].
  destruct (path_length =? 0); [intros [= <-]; reflexivity|].
  destruct (path_length >? SSIZE_MAX - 1); [intros [= <-]; reflexivity|].
  destruct volume_name; [|intros [= <-]; reflexivity].
  destruct volume_name_length; [|intros [= <-]; reflexivity].
  destruct directory_name_index; [|intros [= <-]; reflexivity].
  cbv zeta.
  pose proof (find_volume_name_index_cases path path_length) as Hcases.
  cbv zeta in Hcases.
  set (index := Windows.find_volume_name_index path path_length) in *.
  match goal with |- context [if ?c then Ok _ else _] => destruct c end;
    [discriminate|].
  destruct (index =? 4); [discriminate|].
  destruct ((index =? 2) || (index =? 8)) eqn:Hunc; [|discriminate].
  assert (index <= path_length) as Hle by lia.
  pose proof (scan_past_separator_bounds
                (Z.to_nat (path_length - index)) path path_length index Hle).
  rewrite Z.gtb_ltb.
  match goal with |- context [?a <? ?b] => destruct (Z.ltb_spec a b) end;
    [lia|discriminate].
Qed.

(** C2: the path [\\server] names a server and no share, and the scan
    for the end of the server name reaches the end of the path; the
    source tests [share_name_index > path_length], which never holds, and
    the call returns 1 with the volume name [server] (6 characters) and
    the directory name index 8 instead of failing. *)
Theorem get_volume_name_server_only :
  Windows.libcpath_path_get_volume_name (Some (str "\\server")) 8
    (Some None) (Some 0) (Some 0)
  = Ok (Some (str "server"), 6, 8).
Proof. reflexivity. Qed.

(** ** Argument checks *)

Lemma get_path_type_accepts (path : option cstring) (path_length : Z)
    (slot : LIBCPATH_TYPE) :
  0 <= path_length ->
  match Windows.libcpath_path_get_path_type path path_length (Some slot) with
  | Ok _ => path <> None /\ 1 <= path_length <= SSIZE_MAX - 1
  | Err e =>
      error_domain e = LIBCERROR_ERROR_DOMAIN_ARGUMENTS
      /\ (path = None \/ path_length = 0 \/ SSIZE_MAX - 1 < path_length)
  end.
Proof.
  intros Hlen. unfold Windows.libcpath_path_get_path_type.
  destruct path as [path|]; [|cbn; auto].
  destruct (Z.eqb_spec path_length 0); [cbn; auto|].
  rewrite Z.gtb_ltb.
  destruct (Z.ltb_spec (SSIZE_MAX - 1) path_length); [cbn; auto|].
  assert (Some path <> None /\ 1 <= path_length <= SSIZE_MAX - 1)
    by (split; [discriminate|lia]).
  repeat match goal with
  | |- context [if ?c then _ else _] => destruct c
  end; assumption.
Qed.

Lemma get_volume_name_accepts (path : option cstring) (path_length : Z)
    (volume_name : option cstring) (volume_name_length directory_name_index : Z) :
  0 <= path_length ->
  match Windows.libcpath_path_get_volume_name path path_length
          (Some volume_name) (Some volume_name_length)
          (Some directory_name_index) with
  | Ok _ => path <> None /\ 1 <= path_length <= SSIZE_MAX - 1
  | Err e =>
      error_domain e = LIBCERROR_ERROR_DOMAIN_ARGUMENTS
      /\ (path = None \/ path_length = 0 \/ SSIZE_MAX - 1 < path_length)
  end.
Proof.
  intros Hlen.
  destruct (Windows.libcpath_path_get_volume_name path path_length
              (Some volume_name) (Some volume_name_length)
              (Some directory_name_index)) as [r|e] eqn:Hcall.
  - unfold Windows.libcpath_path_get_volume_name in Hcall.
    destruct path as [path|]; [|discriminate].
    destruct (Z.eqb_spec path_length 0); [discriminate|].
    rewrite Z.gtb_ltb in Hcall.
    destruct (Z.ltb_spec (SSIZE_MAX - 1) path_length); [discriminate|].
    split; [discriminate|lia].
  - split; [eapply get_volume_name_never_missing; eassumption|].
    unfold Windows.libcpath_path_get_volume_name in Hcall.
    destruct path as [path|]; [|auto].
    destruct (Z.eqb_spec path_length 0); [auto|].
    rewrite Z.gtb_ltb in Hcall.
    destruct (Z.ltb_spec (SSIZE_MAX - 1) path_length); [auto|].
    exfalso. cbv zeta in Hcall.
    pose proof (find_volume_name_index_cases path path_length) as Hcases.
    cbv zeta in Hcases.
    set (index := Windows.find_volume_name_index path path_length) in *.
    match type of Hcall with context [if ?c then Ok _ else _] => destruct c end;
      [discriminate|].
    destruct (index =? 4); [discriminate|].
    destruct ((index =? 2) || (index =? 8)) eqn:Hunc; [|discriminate].
    assert (index <= path_length) as Hle by lia.
    pose proof (scan_past_separator_bounds
                  (Z.to_nat (path_length - index)) path path_length index Hle).
    rewrite Z.gtb_ltb in Hcall.
    match type of Hcall with context [?a <? ?b] => destruct (Z.ltb_spec a b) end;
      [lia|discriminate].
Qed.

(** C8, as the source has it: given valid output pointers, the
    classifier and the volume-name extraction accept every non-null path
    whose length lies in [1, SSIZE_MAX - 1], and fail, with an error of
    the arguments domain, exactly when the path is null, its length is
    zero or its length exceeds SSIZE_MAX - 1. *)
Theorem path_argument_checks (path : option cstring) (path_length : Z)
    (slot : LIBCPATH_TYPE) (volume_name : option cstring)
    (volume_name_length directory_name_index : Z) :
  0 <= path_length <= SIZE_MAX ->
  match Windows.libcpath_path_get_path_type path path_length (Some slot) with
  | Ok _ => path <> None /\ 1 <= path_length <= SSIZE_MAX - 1
  | Err e =>
      error_domain e = LIBCERROR_ERROR_DOMAIN_ARGUMENTS
      /\ (path = None \/ path_length = 0 \/ SSIZE_MAX - 1 < path_length)
  end
  /\ match Windows.libcpath_path_get_volume_name path path_length
             (Some volume_name) (Some volume_name_length)
             (Some directory_name_index) with
     | Ok _ => path <> None /\ 1 <= path_length <= SSIZE_MAX - 1
     | Err e =>
         error_domain e = LIBCERROR_ERROR_DOMAIN_ARGUMENTS
         /\ (path = None \/ path_length = 0 \/ SSIZE_MAX - 1 < path_length)
     end.
Proof.
  intros [Hlen _]. split.
  - apply get_path_type_accepts; assumption.
  - apply get_volume_name_accepts; assumption.
Qed.

Lemma path_argument_checks_witness :
  0 <= 6 <= SIZE_MAX
  /\ Some (str "C:\foo") <> None /\ 1 <= 6 <= SSIZE_MAX - 1.
Proof.
  assert (0 <= 6 <= SIZE_MAX) as Hsize by (vm_compute; split; discriminate).
  split; [exact Hsize|].
  exact (proj1 (path_argument_checks (Some (str "C:\foo")) 6
                  LIBCPATH_TYPE_RELATIVE None 0 0 Hsize)).
Defined.

(** A non-null path with a length in [1, SIZE_MAX - 1] that both
    functions refuse: the bound of the source is SSIZE_MAX - 1. *)
Lemma path_length_bound_counterexample :
  1 <= SSIZE_MAX <= SIZE_MAX - 1
  /\ Windows.libcpath_path_get_path_type (Some (str "a")) SSIZE_MAX
       (Some LIBCPATH_TYPE_RELATIVE)
     = fail LIBCERROR_ERROR_DOMAIN_ARGUMENTS
         LIBCERROR_ARGUMENT_ERROR_VALUE_EXCEEDS_MAXIMUM
         "invalid path length value exceeds maximum."
  /\ Windows.libcpath_path_get_volume_name (Some (str "a")) SSIZE_MAX
       (Some None) (Some 0) (Some 0)
     = fail LIBCERROR_ERROR_DOMAIN_ARGUMENTS
         LIBCERROR_ARGUMENT_ERROR_VALUE_EXCEEDS_MAXIMUM
         "invalid path length value exceeds maximum.".
Proof.
  split; [vm_compute; split; discriminate|]. split; reflexivity.
Qed.

(** ** The sanitizer *)

Lemma sanitized_character_size_cases (windows : bool) (escape character : ascii)
    (slot : Z) :
  exists size,
    libcpath_path_get_sanitized_character_size windows escape character
      (Some slot) = Ok size
    /\ (size = 1 \/ size = 2 \/ size = 4).
Proof.
  unfold libcpath_path_get_sanitized_character_size.
  repeat match goal with
  | |- context [if ?c then _ else _] => destruct c
  end; eexists; (split; [reflexivity|]); auto.
Qed.

Lemma is_reserved_spec (character : ascii) :
  is_reserved character = true <-> In character reserved_characters.
Proof.
  destruct character as [[] [] [] [] [] [] [] []]; vm_compute; split;
    intros H;
    first [ discriminate H
          | reflexivity
          | solve [repeat ((left; reflexivity) || right)]
          | repeat (destruct H as [H | H]; [discriminate H|]);
            contradiction ].
Qed.

Lemma control_character_spec (character : ascii) :
  (0 <=? char_value character) && (char_value character <=? 31) = true
  <-> 0 <= char_value character <= 31.
Proof.
  rewrite andb_true_iff, Z.leb_le, Z.leb_le. reflexivity.
Qed.

(** C10: for every character the size function succeeds with 1, 2 or 4.
    The size is 1 exactly for the characters that are not a control
    character (0x00 to 0x1f), not the escape character, not [/] where
    WINAPI is defined and none of [! $ % & * + : ; < > ? |] and 0x7f; it
    is 2 exactly for the escape character when that is not a control
    character; it is 4 exactly for the others.  With the size the
    function gave, the character itself is what is written exactly when
    the size is 1, that is, exactly for the characters of the first
    class; and a call of [libcpath_path_get_sanitized_character] with
    that size never ends in its invalid-size branch. *)
Theorem sanitized_character_size_total (windows : bool)
    (escape character : ascii) (slot : Z) :
  exists size,
    libcpath_path_get_sanitized_character_size windows escape character
      (Some slot) = Ok size
    /\ (size = 1 \/ size = 2 \/ size = 4)
    /\ (size = 1
        <-> ~ 0 <= char_value character <= 31
            /\ character <> escape
            /\ ~ (windows = true /\ character = "/"%char)
            /\ ~ In character reserved_characters)
    /\ (size = 2
        <-> ~ 0 <= char_value character <= 31 /\ character = escape)
    /\ (size = 4
        <-> 0 <= char_value character <= 31
            \/ (character <> escape
                /\ ((windows = true /\ character = "/"%char)
                    \/ In character reserved_characters)))
    /\ (size = 1 <-> sanitized_form escape character size = Some [character])
    /\ (sanitized_form escape character size = Some [character]
        <-> is_safe_character windows escape character = true)
    /\ forall sanitized_path sanitized_path_size sanitized_path_index,
         libcpath_path_get_sanitized_character escape character size
           sanitized_path sanitized_path_size sanitized_path_index
         <> fail LIBCERROR_ERROR_DOMAIN_ARGUMENTS
              LIBCERROR_ARGUMENT_ERROR_VALUE_OUT_OF_BOUNDS
              "invalid sanitized character size value out of bounds.".
Proof.
  assert (forall size : Z,
            size = 1 \/ size = 2 \/ size = 4 ->
            (size = 1
             <-> sanitized_form escape character size = Some [character])
            /\ forall sanitized_path sanitized_path_size sanitized_path_index,
                 libcpath_path_get_sanitized_character escape character size
                   sanitized_path sanitized_path_size sanitized_path_index
                 <> fail LIBCERROR_ERROR_DOMAIN_ARGUMENTS
                      LIBCERROR_ARGUMENT_ERROR_VALUE_OUT_OF_BOUNDS
                      "invalid sanitized character size value out of bounds.")
    as Hwritten.
  { intros size Hcases. split.
    - destruct Hcases as [-> | [-> | ->]]; split; intros H;
        try discriminate; try reflexivity.
    - intros sanitized_path sanitized_path_size sanitized_path_index.
      unfold libcpath_path_get_sanitized_character.
      destruct Hcases as [-> | [-> | ->]];
        cbn -[store size_add size_sub Z.gtb];
        destruct sanitized_path; try discriminate;
        destruct (sanitized_path_size >? SSIZE_MAX); try discriminate;
        destruct sanitized_path_index; try discriminate;
        repeat match goal with
        | |- context [if ?c then _ else _] => destruct c
        end; discriminate. }
  pose proof (control_character_spec character) as Hcontrol.
  pose proof (is_reserved_spec character) as Hreserved.
  pose proof (Ascii.eqb_eq character escape) as Hescape.
  pose proof (Ascii.eqb_eq character "/") as Hslash.
  unfold libcpath_path_get_sanitized_character_size, is_safe_character,
    char_eqb in *.
  destruct ((0 <=? char_value character) && (char_value character <=? 31));
    [|destruct (Ascii.eqb character escape);
      [|destruct windows;
        [destruct (Ascii.eqb character "/")|];
        cbn [andb]; destruct (is_reserved character)]];
    cbn [andb negb];
    match goal with
    | |- exists size, Ok ?s = Ok size /\ _ =>
        exists s; destruct (Hwritten s) as [Hform Hbranch]; [auto|]
    end;
    (split; [reflexivity|]); (split; [auto|]);
    repeat split; try exact Hbranch; try (intros; discriminate);
    try (apply Hform); try (intros; apply Hform; reflexivity);
    intuition (try discriminate; try congruence).
Qed.

Lemma render_nibble_hex (nibble : Z) :
  0 <= nibble <= 15 -> nibble <> 10 ->
  is_lowercase_hex_digit (render_nibble nibble) = true
  /\ char_value (render_nibble nibble)
     = if nibble <? 10 then char_value "0" + nibble
       else char_value "a" + (nibble - 10).
Proof.
  intros Hrange Hten.
  assert (nibble = 0 \/ nibble = 1 \/ nibble = 2 \/ nibble = 3 \/ nibble = 4
          \/ nibble = 5 \/ nibble = 6 \/ nibble = 7 \/ nibble = 8
          \/ nibble = 9 \/ nibble = 11 \/ nibble = 12 \/ nibble = 13
          \/ nibble = 14 \/ nibble = 15) as Hcases by lia.
  repeat destruct Hcases as [-> | Hcases]; try subst nibble;
    split; reflexivity.
Qed.

(** C3: the line feed (code point 0x0a) has sanitized size 4, and the
    four characters written for it are the escape character, [x], [0]
    and [:] where the lowercase hex digit [a] is due: the source renders
    a nibble as a letter only when it is greater than 10. *)
Theorem sanitized_line_feed (windows : bool) (escape : ascii) :
  libcpath_path_get_sanitized_character_size windows escape "010" (Some 0)
  = Ok 4
  /\ sanitized_form escape "010" 4 = Some [escape; "x"; "0"; ":"]%char
  /\ render_nibble 10 = ":"%char
  /\ is_lowercase_hex_digit (render_nibble 10) = false.
Proof.
  repeat split; reflexivity.
Qed.

(** ** Stores into a buffer *)

Lemma char_eqb_eq (a b : ascii) : char_eqb a b = true <-> a = b.
Proof. apply Ascii.eqb_eq. Qed.

Lemma char_eqb_neq (a b : ascii) : char_eqb a b = false <-> a <> b.
Proof. apply Ascii.eqb_neq. Qed.

Lemma store_middle (pre post : cstring) (x c : ascii)
    (overrun : list (Z * ascii)) :
  store (mk_buffer (pre ++ x :: post) overrun) (length_of pre) c
  = mk_buffer (pre ++ c :: post) overrun.
Proof.
  unfold store, buffer_size, length_of. cbn [buffer_data buffer_overrun].
  rewrite length_app. cbn [length].
  destruct (Z.leb_spec 0 (Z.of_nat (length pre))); [|lia].
  destruct (Z.ltb_spec (Z.of_nat (length pre))
              (Z.of_nat (length pre + S (length post)))); [|lia].
  cbn [andb]. rewrite Nat2Z.id.
  rewrite insert_app_r_alt by lia. rewrite Nat.sub_diag. reflexivity.
Qed.

Lemma copy_middle (n : nat) (source pre middle post : cstring)
    (overrun : list (Z * ascii)) :
  length middle = n -> (n <= length source)%nat ->
  narrow_string_copy (mk_buffer (pre ++ middle ++ post) overrun)
    (length_of pre) source n
  = mk_buffer (pre ++ take n source ++ post) overrun.
Proof.
  revert source pre middle.
  induction n as [|n IH]; intros source pre middle Hmiddle Hsource.
  - destruct middle; [|discriminate]. reflexivity.
  - destruct middle as [|x middle]; [discriminate|].
    destruct source as [|c source]; [cbn in Hsource; lia|].
    cbn [narrow_string_copy]. unfold char_at.
    change (Z.to_nat 0) with 0%nat. cbn [nth drop]. rewrite drop_0.
    change ((x :: middle) ++ post) with (x :: middle ++ post).
    rewrite store_middle.
    replace (length_of pre + 1) with (length_of (pre ++ [c]))
      by (unfold length_of; rewrite length_app; cbn; lia).
    replace (pre ++ c :: middle ++ post) with ((pre ++ [c]) ++ middle ++ post)
      by (rewrite <- app_assoc; reflexivity).
    rewrite IH; [|cbn in Hmiddle; lia|cbn in Hsource; lia].
    rewrite <- app_assoc. reflexivity.
Qed.

Lemma char_at_app_r (a b : cstring) (j : Z) :
  0 <= j -> char_at (a ++ b) (length_of a + j) = char_at b j.
Proof.
  intros Hj. unfold char_at, length_of.
  replace (Z.to_nat (Z.of_nat (length a) + j))
    with (length a + Z.to_nat j)%nat by lia.
  rewrite app_nth2_plus. reflexivity.
Qed.

Lemma char_at_replicate (n : nat) (c : ascii) (j : Z) :
  0 <= j < Z.of_nat n -> char_at (replicate n c) j = c.
Proof.
  intros Hj. unfold char_at.
  apply nth_lookup_Some with (d := NUL).
  apply lookup_replicate_2. lia.
Qed.

Lemma char_at_head (s : cstring) : head s = Some (char_at s 0) \/ s = [].
Proof. destruct s; [right|left]; reflexivity. Qed.

(** ** The joiner *)

Lemma without_leading_spec (separator : ascii) (s : cstring) :
  (exists m, s = replicate m separator ++ without_leading separator s)
  /\ head (without_leading separator s) <> Some separator.
Proof.
  induction s as [|c s [[m Hm] Hhead]]; cbn.
  - split; [exists 0%nat; reflexivity|discriminate].
  - destruct (char_eqb c separator) eqn:Hc.
    + apply char_eqb_eq in Hc as ->. split; [|exact Hhead].
      exists (S m). cbn. rewrite <- Hm. reflexivity.
    + apply char_eqb_neq in Hc. split; [exists 0%nat; reflexivity|].
      cbn. congruence.
Qed.

Lemma without_trailing_spec (separator : ascii) (s : cstring) :
  (exists n, s = without_trailing separator s ++ replicate n separator)
  /\ last (without_trailing separator s) <> Some separator.
Proof.
  unfold without_trailing.
  destruct (without_leading_spec separator (reverse s)) as [[n Hn] Hhead].
  split.
  - exists n. rewrite <- (reverse_involutive s) at 1. rewrite Hn at 1.
    rewrite reverse_app, reverse_replicate. reflexivity.
  - rewrite last_reverse. exact Hhead.
Qed.

Lemma without_leading_replicate (separator : ascii) (n : nat) :
  without_leading separator (replicate n separator) = [].
Proof.
  induction n as [|n IH]; [reflexivity|]. cbn.
  unfold char_eqb. rewrite Ascii.eqb_refl. exact IH.
Qed.

Lemma without_trailing_replicate (separator : ascii) (n : nat) :
  without_trailing separator (replicate n separator) = [].
Proof.
  unfold without_trailing.
  rewrite reverse_replicate, without_leading_replicate. reflexivity.
Qed.

Lemma strip_trailing_separators_spec (separator : ascii) (d : cstring)
    (total k fuel : nat) :
  last d <> Some separator -> (k <= total)%nat ->
  (length d + k <= fuel)%nat ->
  length_of d + Z.of_nat total <= SIZE_MAX ->
  strip_trailing_separators separator fuel (d ++ replicate total separator)
    (length_of d + Z.of_nat k)
  = length_of d.
Proof.
  intros Hlast Hk. revert fuel.
  induction k as [|k IH]; intros fuel Hfuel Hmax; unfold length_of in *.
  - rewrite Z.add_0_r. destruct fuel as [|fuel]; [reflexivity|].
    cbn [strip_trailing_separators]. rewrite Z.gtb_ltb.
    destruct (Z.ltb_spec 0 (Z.of_nat (length d))); [|reflexivity].
    destruct d as [|x d _] using rev_ind; [cbn in *; lia|].
    rewrite last_snoc in Hlast. rewrite length_app in *. cbn [length] in *.
    rewrite <- app_assoc.
    replace (Z.of_nat (length d + 1) - 1) with (length_of d + 0)
      by (unfold length_of; lia).
    rewrite char_at_app_r by lia. unfold char_at. change (Z.to_nat 0) with 0%nat.
    cbn [app nth].
    destruct (char_eqb x separator) eqn:Hx; [|reflexivity].
    apply char_eqb_eq in Hx. congruence.
  - destruct fuel as [|fuel]; [lia|].
    cbn [strip_trailing_separators]. rewrite Z.gtb_ltb.
    destruct (Z.ltb_spec 0 (Z.of_nat (length d) + Z.of_nat (S k))); [|lia].
    replace (Z.of_nat (length d) + Z.of_nat (S k) - 1)
      with (length_of d + Z.of_nat k) by (unfold length_of; lia).
    rewrite char_at_app_r by lia.
    rewrite char_at_replicate by lia.
    unfold char_eqb at 1. rewrite Ascii.eqb_refl. cbn [negb].
    rewrite size_sub_exact by lia.
    replace (Z.of_nat (length d) + Z.of_nat (S k) - 1)
      with (Z.of_nat (length d) + Z.of_nat k) by lia.
    apply IH; lia.
Qed.

Lemma strip_leading_separators_spec (separator : ascii) (f : cstring)
    (m k fuel : nat) (i : Z) :
  head f <> Some separator -> i + Z.of_nat k = Z.of_nat m -> 0 <= i ->
  (k + length f <= fuel)%nat ->
  Z.of_nat m + length_of f <= SIZE_MAX ->
  strip_leading_separators separator fuel (replicate m separator ++ f) i
    (Z.of_nat k + length_of f)
  = (Z.of_nat m, length_of f).
Proof.
  intros Hhead. revert fuel i.
  induction k as [|k IH]; intros fuel i Hi Hpos Hfuel Hmax;
    unfold length_of in *.
  - assert (i = Z.of_nat m) as -> by lia.
    change (Z.of_nat 0) with 0. rewrite Z.add_0_l.
    destruct fuel as [|fuel]; [reflexivity|].
    cbn [strip_leading_separators]. rewrite Z.gtb_ltb.
    destruct (Z.ltb_spec 0 (Z.of_nat (length f))); [|reflexivity].
    replace (Z.of_nat m) with (length_of (replicate m separator) + 0)
      by (unfold length_of; rewrite length_replicate; lia).
    rewrite char_at_app_r by lia.
    destruct (char_at_head f) as [Hf | ->]; [|cbn in *; lia].
    destruct (char_eqb (char_at f 0) separator) eqn:Hx;
      [|unfold length_of; rewrite length_replicate, Z.add_0_r; reflexivity].
    apply char_eqb_eq in Hx. congruence.
  - destruct fuel as [|fuel]; [lia|].
    cbn [strip_leading_separators]. rewrite Z.gtb_ltb.
    destruct (Z.ltb_spec 0 (Z.of_nat (S k) + Z.of_nat (length f))); [|lia].
    replace i with (length_of [] + i) at 1 by (unfold length_of; cbn; lia).
    replace (replicate m separator ++ f)
      with ([] ++ (replicate m separator ++ f)) at 1 by reflexivity.
    rewrite char_at_app_r by lia.
    unfold char_at at 1. rewrite app_nth1 by (rewrite length_replicate; lia).
    rewrite (nth_lookup_Some (replicate m separator) (Z.to_nat i) NUL separator)
      by (apply lookup_replicate_2; lia).
    unfold char_eqb at 1. rewrite Ascii.eqb_refl. cbn [negb].
    rewrite size_add_exact by lia. rewrite size_sub_exact by lia.
    replace (Z.of_nat (S k) + Z.of_nat (length f) - 1)
      with (Z.of_nat k + Z.of_nat (length f)) by lia.
    apply IH; lia.
Qed.

Lemma join_result (separator : ascii) (d f : cstring) (n m : nat) :
  last d <> Some separator -> head f <> Some separator ->
  length_of d + Z.of_nat n + (Z.of_nat m + length_of f) + 2 <= SSIZE_MAX ->
  libcpath_path_join separator (Some None) (Some 0)
    (Some (d ++ replicate n separator))
    (length_of (d ++ replicate n separator))
    (Some (replicate m separator ++ f))
    (length_of (replicate m separator ++ f))
  = Ok (mk_buffer (d ++ separator :: f ++ [NUL]) [],
        length_of d + length_of f + 2).
Proof.
  intros Hlast Hhead Hmax. unfold libcpath_path_join.
  assert (length_of (d ++ replicate n separator) = length_of d + Z.of_nat n)
    as Hdir by (unfold length_of; rewrite length_app, length_replicate; lia).
  assert (length_of (replicate m separator ++ f) = Z.of_nat m + length_of f)
    as Hfile by (unfold length_of; rewrite length_app, length_replicate; lia).
  rewrite Hdir, Hfile.
  assert (0 <= length_of d /\ 0 <= length_of f) as [Hd Hf]
    by (unfold length_of; lia).
  rewrite !Z.gtb_ltb.
  destruct (Z.ltb_spec SSIZE_MAX (length_of d + Z.of_nat n)); [lia|].
  destruct (Z.ltb_spec SSIZE_MAX (Z.of_nat m + length_of f)); [lia|].
  rewrite strip_trailing_separators_spec;
    [|assumption|lia|unfold length_of; lia|size_lia].
  rewrite (strip_leading_separators_spec separator f m m);
    [|assumption|lia|lia|unfold length_of; lia|size_lia].
  rewrite (size_add_exact (length_of d)) by size_lia.
  rewrite (size_add_exact (length_of d + length_of f)) by size_lia.
  unfold narrow_string_allocate.
  destruct (Z.leb_spec (length_of d + length_of f + 2) SSIZE_MAX); [|lia].
  replace (Z.to_nat (length_of d + length_of f + 2))
    with (length d + (1 + (length f + 1)))%nat by (unfold length_of; lia).
  rewrite !replicate_add.
  change (mk_buffer (replicate (length d) NUL ++ replicate 1 NUL
                       ++ replicate (length f) NUL ++ replicate 1 NUL) [])
    with (mk_buffer ([] ++ replicate (length d) NUL
                        ++ (NUL :: replicate (length f) NUL ++ [NUL])) []).
  change 0 with (length_of []) at 1.
  replace (Z.to_nat (length_of d)) with (length d) by (unfold length_of; lia).
  rewrite copy_middle;
    [|apply length_replicate|rewrite length_app; lia].
  rewrite take_app_length. cbn [app].
  rewrite store_middle.
  rewrite (size_add_exact (length_of d)) by size_lia.
  replace (length_of d + 1) with (length_of (d ++ [separator]))
    by (unfold length_of; rewrite length_app; cbn; lia).
  replace (d ++ separator :: replicate (length f) NUL ++ [NUL])
    with ((d ++ [separator]) ++ replicate (length f) NUL ++ [NUL])
    by (rewrite <- app_assoc; reflexivity).
  replace (Z.to_nat (Z.of_nat m)) with (length (replicate m separator))
    by (rewrite length_replicate; lia).
  rewrite drop_app_length.
  replace (Z.to_nat (length_of f)) with (length f) by (unfold length_of; lia).
  rewrite copy_middle; [|apply length_replicate|lia].
  rewrite firstn_all.
  rewrite size_add_exact
    by (unfold length_of in *; rewrite length_app in *; cbn in *; size_lia).
  replace (length_of (d ++ [separator]) + length_of f)
    with (length_of ((d ++ [separator]) ++ f))
    by (unfold length_of; rewrite !length_app; lia).
  replace ((d ++ [separator]) ++ f ++ [NUL])
    with (((d ++ [separator]) ++ f) ++ [NUL])
    by (rewrite <- !app_assoc; reflexivity).
  rewrite store_middle. rewrite <- !app_assoc. reflexivity.
Qed.

(** C7: join removes every trailing separator of the directory and every
    leading separator of the filename and returns directory, separator,
    filename and the terminator, with size the two stripped lengths plus
    2; a directory and a filename made of separators only (or empty) give
    the single separator. *)
Theorem join_strips_and_splices (separator : ascii)
    (directory filename : cstring) :
  length_of directory + length_of filename + 2 <= SSIZE_MAX ->
  let d := without_trailing separator directory in
  let f := without_leading separator filename in
  (exists n, directory = d ++ replicate n separator)
  /\ last d <> Some separator
  /\ (exists m, filename = replicate m separator ++ f)
  /\ head f <> Some separator
  /\ libcpath_path_join separator (Some None) (Some 0)
       (Some directory) (length_of directory)
       (Some filename) (length_of filename)
     = Ok (mk_buffer (d ++ separator :: f ++ [NUL]) [],
           length_of d + length_of f + 2)
  /\ ((exists n m, directory = replicate n separator
                   /\ filename = replicate m separator) ->
      libcpath_path_join separator (Some None) (Some 0)
        (Some directory) (length_of directory)
        (Some filename) (length_of filename)
      = Ok (mk_buffer [separator; NUL] [], 2)).
Proof.
  intros Hmax d f.
  destruct (without_trailing_spec separator directory) as [[n Hn] Hlast].
  destruct (without_leading_spec separator filename) as [[m Hm] Hhead].
  fold d in Hn, Hlast. fold f in Hm, Hhead.
  assert (libcpath_path_join separator (Some None) (Some 0)
            (Some directory) (length_of directory)
            (Some filename) (length_of filename)
          = Ok (mk_buffer (d ++ separator :: f ++ [NUL]) [],
                length_of d + length_of f + 2)) as Hjoin.
  { rewrite Hn at 1 2. rewrite Hm at 1 2.
    apply join_result; [assumption..|].
    rewrite Hn, Hm in Hmax. unfold length_of in *.
    rewrite !length_app, !length_replicate in Hmax. lia. }
  repeat split; try assumption; eauto.
  intros (n' & m' & Hdir & Hfile). rewrite Hjoin.
  subst d f. rewrite Hdir, Hfile.
  rewrite without_trailing_replicate, without_leading_replicate.
  reflexivity.
Qed.

Lemma join_strips_and_splices_witness :
  length_of (str "/a/b/") + length_of (str "/c") + 2 <= SSIZE_MAX
  /\ libcpath_path_join "/" (Some None) (Some 0)
       (Some (str "/a/b/")) 5 (Some (str "/c")) 2
     = Ok (mk_buffer (str "/a/b/c" ++ [NUL]) [], 7).
Proof.
  assert (length_of (str "/a/b/") + length_of (str "/c") + 2 <= SSIZE_MAX)
    as Hmax by (vm_compute; discriminate).
  split; [exact Hmax|].
  exact (proj1 (proj2 (proj2 (proj2 (proj2
           (join_strips_and_splices "/" (str "/a/b/") (str "/c") Hmax)))))).
Defined.

(** ** The Windows resolver and the working directory *)

Lemma get_full_path_full_type (path : option cstring) (path_length : Z)
    (full_path : option (option cstring)) (full_path_size : option Z)
    (path_type : LIBCPATH_TYPE) (w : world) :
  Windows.libcpath_path_get_path_type path path_length
    (Some LIBCPATH_TYPE_RELATIVE) = Ok path_type ->
  Windows.is_full_type path_type = true ->
  exists outcome,
    forall w',
      Windows.libcpath_path_get_full_path path path_length full_path
        full_path_size w' = (outcome, w').
Proof.
  intros Htype Hfull. unfold Windows.libcpath_path_get_full_path.
  destruct path as [path|]; [|eexists; reflexivity].
  destruct (path_length =? 0); [eexists; reflexivity|].
  destruct (path_length >? SSIZE_MAX - 1); [eexists; reflexivity|].
  destruct full_path as [[already|]|]; try (eexists; reflexivity).
  destruct full_path_size; [|eexists; reflexivity].
  rewrite Htype.
  destruct (Windows.libcpath_path_get_volume_name (Some path) path_length
              (Some None) (Some 0) (Some 0)) as [[[name len] index]|e];
    [|eexists; reflexivity].
  rewrite Hfull. eexists; reflexivity.
Qed.

(** C6: for a path classified as device, extended-length,
    extended-length UNC or UNC the Windows resolver makes no call to the
    operating system: the world, with its record of calls, is returned
    as it was, and the outcome is the same in every world; in particular
    [\\.\PhysicalDrive0] resolves to itself, its prefix written once. *)
Theorem full_types_skip_working_directory :
  (forall (path : option cstring) (path_length : Z)
          (full_path : option (option cstring)) (full_path_size : option Z)
          (path_type : LIBCPATH_TYPE) (w w' : world),
     Windows.libcpath_path_get_path_type path path_length
       (Some LIBCPATH_TYPE_RELATIVE) = Ok path_type ->
     Windows.is_full_type path_type = true ->
     snd (Windows.libcpath_path_get_full_path path path_length full_path
            full_path_size w) = w
     /\ fst (Windows.libcpath_path_get_full_path path path_length full_path
               full_path_size w)
        = fst (Windows.libcpath_path_get_full_path path path_length full_path
                 full_path_size w'))
  /\ forall w : world,
       Windows.libcpath_path_get_full_path (Some (str "\\.\PhysicalDrive0")) 18
         (Some None) (Some 0) w
       = (Ok (mk_buffer (str "\\.\PhysicalDrive0" ++ [NUL]) [], 19), w).
Proof.
  split.
  - intros path path_length full_path full_path_size path_type w w' Htype Hfull.
    destruct (get_full_path_full_type path path_length full_path
                full_path_size path_type w Htype Hfull) as [outcome Hsame].
    rewrite (Hsame w), (Hsame w'). split; reflexivity.
  - intros w.
    destruct (get_full_path_full_type (Some (str "\\.\PhysicalDrive0")) 18
                (Some None) (Some 0) LIBCPATH_TYPE_DEVICE w
                eq_refl eq_refl) as [outcome Hsame].
    rewrite (Hsame w). f_equal.
    specialize (Hsame (world_at "")).
    apply (f_equal fst) in Hsame. cbn [fst] in Hsame. rewrite <- Hsame.
    vm_compute. reflexivity.
Qed.

Lemma full_types_skip_working_directory_witness :
  Windows.libcpath_path_get_path_type (Some (str "\\server\share\a")) 16
    (Some LIBCPATH_TYPE_RELATIVE) = Ok LIBCPATH_TYPE_UNC
  /\ Windows.is_full_type LIBCPATH_TYPE_UNC = true
  /\ snd (Windows.libcpath_path_get_full_path (Some (str "\\server\share\a"))
            16 (Some None) (Some 0) (world_at "C:\work"))
     = world_at "C:\work".
Proof.
  split; [reflexivity|]. split; [reflexivity|].
  exact (proj1 (proj1 full_types_skip_working_directory
                  (Some (str "\\server\share\a")) 16 (Some None) (Some 0)
                  LIBCPATH_TYPE_UNC (world_at "C:\work") (world_at "C:\work")
                  eq_refl eq_refl)).
Defined.

(** ** The size invariant *)

(** C1: two calls that return 1 although the write pass leaves the
    buffer.  POSIX: in [/home/user] the path [../../..] clears every
    segment of the working directory; the predicted size is 0, nothing is
    written and the terminator is stored at index -1 (SIZE_MAX).
    Windows: in [C:\bar] the absolute path [\..\foo] subtracts the size
    of the working directory segment [bar], which was never added; the
    predicted size is 7 and the write pass emits 11 characters, the last
    four and the terminator beyond the end of the buffer. *)
Theorem size_invariant_broken :
  fst (Posix.libcpath_path_get_full_path (Some (str "../../..")) 8
         (Some None) (Some 0) (world_at "/home/user"))
  = Ok (mk_buffer [] [(SIZE_MAX, NUL)], 0)
  /\ fst (Windows.libcpath_path_get_full_path (Some (str "\..\foo")) 7
            (Some None) (Some 0) (world_at "C:\bar"))
     = Ok (mk_buffer (str "\\?\C:\")
             [(7, "f"); (8, "o"); (9, "o"); (10, "\"); (10, NUL)]%char, 7).
Proof.
  split; vm_compute; reflexivity.
Qed.

(** ** Splitting and the segment list *)

Lemma split_on_free (separator : ascii) (segment : cstring) :
  free_of separator segment = true ->
  libcsplit.split_on separator segment = [segment].
Proof.
  induction segment as [|c segment IH]; cbn; [reflexivity|].
  intros [Hc Hfree]%andb_prop. apply negb_true_iff in Hc. rewrite Hc.
  rewrite IH by assumption. reflexivity.
Qed.

Lemma split_on_free_app (separator : ascii) (segment rest : cstring) :
  free_of separator segment = true ->
  libcsplit.split_on separator (segment ++ separator :: rest)
  = segment :: libcsplit.split_on separator rest.
Proof.
  induction segment as [|c segment IH]; cbn.
  - intros _. unfold char_eqb. rewrite Ascii.eqb_refl. reflexivity.
  - intros [Hc Hfree]%andb_prop. apply negb_true_iff in Hc. rewrite Hc.
    rewrite IH by assumption. reflexivity.
Qed.

Lemma split_on_joined (separator : ascii) (segments : list cstring) :
  segments <> [] ->
  Forall (fun segment => free_of separator segment = true) segments ->
  libcsplit.split_on separator (joined separator segments) = segments.
Proof.
  induction segments as [|segment segments IH]; [congruence|].
  intros _ Hfree. inversion Hfree as [|? ? Hsegment Hrest]; subst.
  destruct segments as [|next segments].
  - cbn. apply split_on_free. assumption.
  - cbn [joined]. rewrite split_on_free_app by assumption.
    f_equal. apply IH; [discriminate|assumption].
Qed.

Lemma narrow_string_split_whole (separator : ascii) (s : cstring) :
  length_of s + 1 <= SIZE_MAX ->
  libcsplit.narrow_string_split s (size_add (length_of s) 1) separator
  = Ok (map Some (libcsplit.split_on separator s)).
Proof.
  intros Hmax. unfold libcsplit.narrow_string_split.
  rewrite size_add_exact by (unfold length_of in *; lia).
  replace (Z.to_nat (length_of s + 1 - 1)) with (length s)
    by (unfold length_of; lia).
  rewrite firstn_all. reflexivity.
Qed.

Lemma get_segment_middle (done rest : list (option cstring))
    (segment : option cstring) :
  libcsplit.narrow_split_string_get_segment_by_index
    (done ++ segment :: rest) (index_after done)
  = Ok (segment, libcsplit.segment_size segment).
Proof.
  unfold libcsplit.narrow_split_string_get_segment_by_index, index_after.
  destruct (Z.ltb_spec (Z.of_nat (length done)) 0); [lia|].
  rewrite Nat2Z.id, list_lookup_middle by reflexivity. reflexivity.
Qed.

Lemma clear_segment_middle (done rest : list (option cstring))
    (segment : option cstring) :
  libcsplit.narrow_split_string_clear_segment_by_index
    (done ++ segment :: rest) (index_after done)
  = Ok (done ++ None :: rest).
Proof.
  unfold libcsplit.narrow_split_string_clear_segment_by_index, index_after.
  rewrite length_app. cbn [length].
  destruct (Z.ltb_spec (Z.of_nat (length done)) 0); [lia|].
  destruct (Z.leb_spec (Z.of_nat (length done + S (length rest)))
              (Z.of_nat (length done))); [lia|].
  cbn [orb]. rewrite Nat2Z.id.
  rewrite insert_app_r_alt by lia. rewrite Nat.sub_diag. reflexivity.
Qed.

Lemma for_loop_app {St : Type} (n m : nat) (i : Z)
    (body : Z -> St -> result St) (s : St) :
  for_loop (n + m) i body s
  = bind (for_loop n i body s) (for_loop m (i + Z.of_nat n) body).
Proof.
  revert i s. induction n as [|n IH]; intros i s.
  - cbn [for_loop Nat.add bind]. change (Z.of_nat 0) with 0.
    rewrite Z.add_0_r. reflexivity.
  - cbn [for_loop Nat.add]. destruct (body i s) as [s'|e]; [|reflexivity].
    rewrite IH. replace (i + 1 + Z.of_nat n) with (i + Z.of_nat (S n)) by lia.
    reflexivity.
Qed.

Lemma written_app (separator : ascii) (a b : list cstring) :
  written separator (a ++ b) = written separator a ++ written separator b.
Proof. unfold written. rewrite map_app, concat_app. reflexivity. Qed.

Lemma length_written (separator : ascii) (segments : list cstring) :
  length_of (written separator segments) = segments_size segments.
Proof.
  unfold segments_size, length_of. f_equal.
  induction segments as [|segment segments IH]; [reflexivity|].
  unfold written in *. cbn [map concat].
  rewrite (length_app (segment ++ [separator])).
  rewrite (length_app (segment ++ [NUL])).
  rewrite IH, !length_app. reflexivity.
Qed.

Lemma segments_size_cons (segment : cstring) (segments : list cstring) :
  segments_size (segment :: segments)
  = length_of segment + 1 + segments_size segments.
Proof.
  unfold segments_size, written, length_of. cbn [map concat].
  rewrite !length_app. cbn [length]. lia.
Qed.

Lemma segments_size_nonneg (segments : list cstring) :
  0 <= segments_size segments.
Proof. unfold segments_size, length_of. lia. Qed.

(** ** The counting loop *)

Lemma plain_name_kept (name : cstring) :
  is_plain_name name = true ->
  Resolver.is_dot_dot name (libcsplit.segment_size (Some name)) = false
  /\ Resolver.is_dot name (libcsplit.segment_size (Some name)) = false
  /\ (libcsplit.segment_size (Some name) <=? 1) = false.
Proof.
  unfold Resolver.is_dot_dot, Resolver.is_dot, libcsplit.segment_size, char_at.
  change (Z.to_nat 0) with 0%nat. change (Z.to_nat 1) with 1%nat.
  destruct name as [|c1 [|c2 [|c3 rest]]]; cbn [is_plain_name length nth].
  - discriminate.
  - intros H. apply negb_true_iff in H. rewrite H.
    repeat split; reflexivity.
  - intros H. apply negb_true_iff in H.
    change (Z.of_nat 2 + 1 =? 3) with true.
    change (Z.of_nat 2 + 1 =? 2) with false.
    cbn [andb]. rewrite H. repeat split; reflexivity.
  - intros _.
    assert ((Z.of_nat (S (S (S (length rest)))) + 1 =? 3) = false) as ->
      by (apply Z.eqb_neq; lia).
    assert ((Z.of_nat (S (S (S (length rest)))) + 1 =? 2) = false) as ->
      by (apply Z.eqb_neq; lia).
    assert ((Z.of_nat (S (S (S (length rest)))) + 1 <=? 1) = false) as ->
      by (apply Z.leb_gt; lia).
    repeat split; reflexivity.
Qed.

Lemma count_plain_name (done rest : list (option cstring)) (name : cstring)
    (current_directory_segments : option (list (option cstring)))
    (size index last_used : Z) :
  is_plain_name name = true ->
  0 <= size -> size + (length_of name + 1) <= SIZE_MAX ->
  Resolver.count_segment (index_after done)
    (Resolver.mk_state (done ++ Some name :: rest)
       current_directory_segments size index last_used)
  = Ok (Resolver.mk_state (done ++ Some name :: rest)
          current_directory_segments (size + (length_of name + 1)) index
          (index_after done)).
Proof.
  intros Hplain Hsize Hmax.
  destruct (plain_name_kept name Hplain) as (Hup & Hdot & Hempty).
  unfold Resolver.count_segment. cbn [Resolver.path_split_string].
  rewrite get_segment_middle. cbn [bind_or].
  rewrite Hup, Hdot, Hempty.
  cbn [Resolver.safe_full_path_size Resolver.current_directory_split_string
       Resolver.current_directory_segment_index libcsplit.segment_size].
  rewrite size_add_exact by (unfold length_of in *; lia).
  reflexivity.
Qed.

Lemma index_after_snoc (done : list (option cstring))
    (segment : option cstring) :
  index_after (done ++ [segment]) = index_after done + 1.
Proof. unfold index_after. rewrite length_app. cbn. lia. Qed.

Lemma count_names (names : list cstring) :
  forall (done rest : list (option cstring))
         (current_directory_segments : option (list (option cstring)))
         (size index last_used : Z),
    Forall (fun name => is_plain_name name = true) names ->
    0 <= size -> size + segments_size names <= SIZE_MAX ->
    for_loop (length names) (index_after done) Resolver.count_segment
      (Resolver.mk_state (done ++ map Some names ++ rest)
         current_directory_segments size index last_used)
    = Ok (Resolver.mk_state (done ++ map Some names ++ rest)
            current_directory_segments (size + segments_size names) index
            (match names with
             | [] => last_used
             | _ => index_after done + Z.of_nat (length names) - 1
             end)).
Proof.
  induction names as [|name names IH];
    intros done rest cwd size index last_used Hplain Hsize Hmax.
  - cbn [for_loop length]. unfold segments_size, written, length_of. cbn.
    rewrite Z.add_0_r. reflexivity.
  - inversion Hplain as [|? ? Hname Hnames]; subst.
    rewrite segments_size_cons in *.
    pose proof (segments_size_nonneg names).
    assert (0 <= length_of name) by (unfold length_of; lia).
    cbn [for_loop length map app].
    rewrite count_plain_name by (assumption || lia).
    replace (done ++ Some name :: map Some names ++ rest)
      with ((done ++ [Some name]) ++ map Some names ++ rest)
      by (rewrite <- app_assoc; reflexivity).
    rewrite <- (index_after_snoc done (Some name)).
    rewrite IH by (assumption || lia).
    f_equal. f_equal; [lia|].
    rewrite index_after_snoc. destruct names; cbn [length]; lia.
Qed.

Lemma count_empty_segment (done rest : list (option cstring))
    (current_directory_segments : option (list (option cstring)))
    (size index last_used : Z) :
  Resolver.count_segment (index_after done)
    (Resolver.mk_state (done ++ Some [] :: rest)
       current_directory_segments size index last_used)
  = Ok (Resolver.mk_state (done ++ None :: rest)
          current_directory_segments size index last_used).
Proof.
  unfold Resolver.count_segment. cbn [Resolver.path_split_string].
  rewrite get_segment_middle. cbn [bind_or].
  change (Resolver.is_dot_dot [] (libcsplit.segment_size (Some []))) with false.
  change (Resolver.is_dot [] (libcsplit.segment_size (Some []))) with false.
  change (libcsplit.segment_size (Some []) <=? 1) with true.
  cbv iota. unfold Resolver.clear_path_segment.
  cbn [Resolver.path_split_string]. rewrite clear_segment_middle.
  reflexivity.
Qed.

(** A [..] segment met when there is no working directory segment list
    and no segment has contributed a name yet *)
Lemma count_dot_dot_at_root (done rest : list (option cstring))
    (size index : Z) :
  Resolver.count_segment (index_after done)
    (Resolver.mk_state (done ++ Some (str "..") :: rest) None size index (-1))
  = Ok (Resolver.mk_state (done ++ None :: rest) None size index (-1)).
Proof.
  unfold Resolver.count_segment. cbn [Resolver.path_split_string].
  rewrite get_segment_middle. cbn [bind_or].
  change (Resolver.is_dot_dot (str "..")
            (libcsplit.segment_size (Some (str "..")))) with true.
  cbv iota. unfold Resolver.go_up.
  cbn [Resolver.current_directory_split_string
       Resolver.last_used_path_segment_index].
  change (-1 >=? 0) with false. cbn [bind].
  unfold Resolver.clear_path_segment.
  cbn [Resolver.path_split_string]. rewrite clear_segment_middle.
  reflexivity.
Qed.

Lemma count_dot_dots_at_root (k : nat) :
  forall (done rest : list (option cstring)) (size index : Z),
    for_loop k (index_after done) Resolver.count_segment
      (Resolver.mk_state (done ++ replicate k (Some (str "..")) ++ rest)
         None size index (-1))
    = Ok (Resolver.mk_state (done ++ replicate k None ++ rest)
            None size index (-1)).
Proof.
  induction k as [|k IH]; intros done rest size index; [reflexivity|].
  cbn [for_loop replicate app].
  rewrite count_dot_dot_at_root.
  replace (done ++ None :: replicate k (Some (str "..")) ++ rest)
    with ((done ++ [None]) ++ replicate k (Some (str "..")) ++ rest)
    by (rewrite <- app_assoc; reflexivity).
  rewrite <- (index_after_snoc done None), IH, <- app_assoc. reflexivity.
Qed.

(** ** The writing loops *)

Lemma write_segment_cleared (separator : ascii)
    (done rest : list (option cstring)) (message : string)
    (out : buffer * Z) :
  Resolver.write_segment separator (done ++ None :: rest) message
    (index_after done) out
  = Ok out.
Proof.
  unfold Resolver.write_segment. rewrite get_segment_middle.
  cbn [bind_or]. destruct out. reflexivity.
Qed.

Lemma write_segment_kept (separator : ascii)
    (done rest : list (option cstring)) (message : string)
    (name pre : cstring) (extra : nat) (overrun : list (Z * ascii)) :
  length_of pre + (length_of name + 1) <= SIZE_MAX ->
  Resolver.write_segment separator (done ++ Some name :: rest) message
    (index_after done)
    (mk_buffer (pre ++ replicate (length name + 1 + extra) NUL) overrun,
     length_of pre)
  = Ok (mk_buffer (pre ++ (name ++ [separator]) ++ replicate extra NUL)
          overrun,
        length_of pre + (length_of name + 1)).
Proof.
  intros Hmax. unfold Resolver.write_segment. rewrite get_segment_middle.
  cbn [bind_or fst snd libcsplit.segment_size].
  assert (0 <= length_of pre /\ 0 <= length_of name) as [Hpre Hname]
    by (unfold length_of; lia).
  fold (length_of name).
  destruct (Z.eqb_spec (length_of name + 1) 0); [lia|]. cbn [negb].
  rewrite size_sub_exact by lia.
  replace (length_of name + 1 - 1) with (length_of name) by lia.
  replace (Z.to_nat (length_of name)) with (length name)
    by (unfold length_of; lia).
  rewrite <- Nat.add_assoc, replicate_add.
  rewrite copy_middle; [|apply length_replicate|lia].
  rewrite firstn_all.
  rewrite (size_add_exact (length_of pre)) by lia.
  replace (length_of pre + length_of name) with (length_of (pre ++ name))
    by (unfold length_of; rewrite length_app; lia).
  rewrite replicate_add. cbn [replicate app].
  rewrite (app_assoc pre name). rewrite store_middle.
  rewrite size_add_exact
    by (unfold length_of in *; rewrite length_app; lia).
  f_equal. f_equal.
  - f_equal. rewrite <- !app_assoc. reflexivity.
  - unfold length_of. rewrite length_app. lia.
Qed.

Lemma write_loop (separator : ascii) (message : string)
    (overrun : list (Z * ascii)) (extra : nat)
    (rest : list (option cstring)) :
  forall (done : list (option cstring)) (pre : cstring),
    length_of pre + segments_size (surviving rest) <= SIZE_MAX ->
    for_loop (length rest) (index_after done)
      (Resolver.write_segment separator (done ++ rest) message)
      (mk_buffer
         (pre ++ replicate
                   (length (written separator (surviving rest)) + extra) NUL)
         overrun,
       length_of pre)
    = Ok (mk_buffer
            (pre ++ written separator (surviving rest) ++ replicate extra NUL)
            overrun,
          length_of pre + segments_size (surviving rest)).
Proof.
  induction rest as [|[name|] rest IH]; intros done pre Hmax.
  - cbn. rewrite Z.add_0_r. reflexivity.
  - change (surviving (Some name :: rest)) with (name :: surviving rest) in *.
    rewrite segments_size_cons in *.
    pose proof (segments_size_nonneg (surviving rest)).
    assert (0 <= length_of pre /\ 0 <= length_of name) as [Hpre Hname]
      by (unfold length_of; lia).
    cbn [for_loop length].
    change (written separator (name :: surviving rest))
      with ((name ++ [separator]) ++ written separator (surviving rest)).
    rewrite (length_app (name ++ [separator])), (length_app name).
    cbn [length].
    rewrite <- (Nat.add_assoc (length name + 1)).
    rewrite write_segment_kept by lia.
    replace (done ++ Some name :: rest) with ((done ++ [Some name]) ++ rest)
      by (rewrite <- app_assoc; reflexivity).
    rewrite <- (index_after_snoc done (Some name)).
    rewrite (app_assoc pre (name ++ [separator])).
    replace (length_of pre + (length_of name + 1))
      with (length_of (pre ++ name ++ [separator]))
      by (unfold length_of; rewrite !length_app; cbn; lia).
    rewrite IH
      by (unfold length_of in *; rewrite !length_app; cbn [length]; lia).
    f_equal. f_equal.
    + f_equal. rewrite <- !app_assoc. reflexivity.
    + unfold length_of. rewrite !length_app. cbn [length]. lia.
  - change (surviving (None :: rest)) with (surviving rest) in *.
    cbn [for_loop length]. rewrite write_segment_cleared.
    replace (done ++ None :: rest) with ((done ++ [None]) ++ rest)
      by (rewrite <- app_assoc; reflexivity).
    rewrite <- (index_after_snoc done None).
    apply IH. assumption.
Qed.

Lemma write_segments_all (separator : ascii) (message : string)
    (overrun : list (Z * ascii)) (extra : nat)
    (segments : list (option cstring)) (pre : cstring) :
  length_of pre + segments_size (surviving segments) <= SIZE_MAX ->
  Resolver.write_segments separator segments (Z.of_nat (length segments))
    message
    (mk_buffer
       (pre ++ replicate
                 (length (written separator (surviving segments)) + extra) NUL)
       overrun,
     length_of pre)
  = Ok (mk_buffer
          (pre ++ written separator (surviving segments)
               ++ replicate extra NUL)
          overrun,
        length_of pre + segments_size (surviving segments)).
Proof.
  intros Hmax. unfold Resolver.write_segments. rewrite Nat2Z.id.
  exact (write_loop separator message overrun extra segments [] pre Hmax).
Qed.

(** ** Joined names *)

Lemma joined_cons (separator : ascii) (segment : cstring)
    (segments : list cstring) :
  segments <> [] ->
  joined separator (segment :: segments)
  = segment ++ separator :: joined separator segments.
Proof. destruct segments; [congruence|reflexivity]. Qed.

Lemma written_joined (separator : ascii) (names : list cstring) :
  names <> [] ->
  written separator names = joined separator names ++ [separator].
Proof.
  induction names as [|name names IH]; [congruence|]. intros _.
  destruct names as [|next names].
  - cbn. rewrite app_nil_r. reflexivity.
  - rewrite joined_cons by discriminate.
    change (written separator (name :: next :: names))
      with ((name ++ [separator]) ++ written separator (next :: names)).
    rewrite IH by discriminate. rewrite <- !app_assoc. reflexivity.
Qed.

Lemma surviving_cleared (k : nat) (rest : list (option cstring)) :
  surviving (replicate k None ++ rest) = surviving rest.
Proof. induction k as [|k IH]; [reflexivity|exact IH]. Qed.

Lemma surviving_names (names : list cstring) :
  surviving (map Some names) = names.
Proof.
  induction names as [|name names IH]; [reflexivity|].
  cbn. unfold surviving in IH. rewrite IH. reflexivity.
Qed.

Lemma c_string_terminated (s : cstring) :
  free_of NUL s = true -> c_string (s ++ [NUL]) = s.
Proof.
  induction s as [|c s IH]; [reflexivity|]. cbn.
  intros [Hc Hfree]%andb_prop. apply negb_true_iff in Hc. rewrite Hc.
  rewrite IH by assumption. reflexivity.
Qed.

Lemma free_of_app (c : ascii) (a b : cstring) :
  free_of c (a ++ b) = free_of c a && free_of c b.
Proof. unfold free_of. apply forallb_app. Qed.

Lemma free_of_joined (c separator : ascii) (names : list cstring) :
  char_eqb separator c = false ->
  Forall (fun name => free_of c name = true) names ->
  free_of c (joined separator names) = true.
Proof.
  intros Hsep. induction names as [|name names IH]; [reflexivity|].
  intros Hfree. inversion Hfree as [|? ? Hname Hrest]; subst.
  destruct names as [|next names]; [exact Hname|].
  rewrite joined_cons by discriminate. rewrite free_of_app, Hname.
  cbn [free_of forallb andb]. rewrite Hsep. cbn [negb andb].
  apply IH. assumption.
Qed.

(** ** The POSIX resolver on absolute paths *)

Lemma store_first (x c : ascii) (post : cstring) (overrun : list (Z * ascii)) :
  store (mk_buffer (x :: post) overrun) 0 c = mk_buffer (c :: post) overrun.
Proof. exact (store_middle [] post x c overrun). Qed.

Lemma map_Some_replicate (k : nat) (segment : cstring) :
  map Some (replicate k segment) = replicate k (Some segment).
Proof. induction k as [|k IH]; [reflexivity|]. cbn. rewrite IH. reflexivity. Qed.

Lemma joined_up_length (separator : ascii) (k : nat) (names : list cstring) :
  names <> [] ->
  length_of (joined separator (replicate k (str "..") ++ names))
  = 3 * Z.of_nat k + length_of (joined separator names).
Proof.
  intros Hnames. induction k as [|k IH]; [cbn [replicate app]; lia|].
  cbn [replicate app]. rewrite joined_cons.
  - unfold length_of in *. rewrite length_app. cbn [length].
    change (length (str "..")) with 2%nat. lia.
  - destruct k; [exact Hnames|discriminate].
Qed.

Lemma normalized_segments_free (separator : ascii) (k : nat)
    (names : list cstring) :
  char_eqb "." separator = false ->
  Forall (fun name => free_of separator name = true) names ->
  Forall (fun segment => free_of separator segment = true)
    ([] :: replicate k (str "..") ++ names).
Proof.
  intros Hdot Hfree. constructor; [reflexivity|].
  apply Forall_app. split; [|exact Hfree].
  apply Forall_replicate. unfold free_of, str.
  cbn [list_ascii_of_string forallb]. rewrite Hdot. reflexivity.
Qed.

(** The counting loop on an empty first segment, [k] segments [..] and
    names, when there is no working directory segment list *)
Lemma count_rooted (k : nat) (names : list cstring) (base : Z) :
  Forall (fun name => is_plain_name name = true) names ->
  0 <= base -> base + segments_size names <= SIZE_MAX ->
  exists last_used,
    for_loop (S (k + length names)) 0 Resolver.count_segment
      (Resolver.mk_state
         (Some [] :: replicate k (Some (str "..")) ++ map Some names)
         None base 0 (-1))
    = Ok (Resolver.mk_state (None :: replicate k None ++ map Some names)
            None (base + segments_size names) 0 last_used).
Proof.
  intros Hplain Hbase Hmax.
  change (S (k + length names)) with (1 + (k + length names))%nat.
  rewrite for_loop_app. cbn [for_loop].
  pose proof (count_empty_segment []
                (replicate k (Some (str "..")) ++ map Some names)
                None base 0 (-1)) as Hfirst.
  change (index_after []) with 0 in Hfirst. cbn [app] in Hfirst.
  rewrite Hfirst. cbn [bind]. clear Hfirst.
  rewrite for_loop_app.
  pose proof (count_dot_dots_at_root k [None] (map Some names) base 0)
    as Hup.
  change (index_after [None]) with (0 + Z.of_nat 1) in Hup.
  cbn [app] in Hup. rewrite Hup. cbn [bind]. clear Hup.
  pose proof (count_names names ([None] ++ replicate k None) [] None
                base 0 (-1) Hplain Hbase Hmax) as Hnames.
  replace (index_after ([None] ++ replicate k None))
    with (0 + Z.of_nat 1 + Z.of_nat k) in Hnames
    by (unfold index_after; rewrite length_app, length_replicate; cbn; lia).
  rewrite app_nil_r, <- app_assoc in Hnames. cbn [app] in Hnames.
  rewrite Hnames. eexists. reflexivity.
Qed.

Lemma posix_resolve_absolute (k : nat) (names : list cstring) :
  normalized "/" names ->
  length_of ("/"%char :: joined "/" (replicate k (str "..") ++ names))
  <= SSIZE_MAX - 1 ->
  Posix.resolve ("/"%char :: joined "/" (replicate k (str "..") ++ names))
    (length_of ("/"%char :: joined "/" (replicate k (str "..") ++ names)))
    LIBCPATH_TYPE_ABSOLUTE None
  = Ok (mk_buffer (("/"%char :: joined "/" names) ++ [NUL]) [],
        length_of ("/"%char :: joined "/" names) + 1).
Proof.
  intros (Hnames & Hplain & Hfree & _) Hmax.
  set (path := "/"%char :: joined "/" (replicate k (str "..") ++ names)) in *.
  assert (replicate k (str "..") ++ names <> []) as Hrest
    by (destruct k; [exact Hnames|discriminate]).
  assert (length_of path
          = 1 + 3 * Z.of_nat k + length_of (joined "/" names)) as Hlength.
  { pose proof (joined_up_length "/" k names Hnames) as Hup.
    unfold path, length_of in *. cbn [length]. lia. }
  assert (segments_size names = length_of (joined "/" names) + 1) as Hsize.
  { rewrite <- (length_written "/"), written_joined by exact Hnames.
    unfold length_of. rewrite length_app. cbn [length]. lia. }
  assert (0 <= length_of (joined "/" names)) by (unfold length_of; lia).
  assert (libcsplit.narrow_string_split path (size_add (length_of path) 1) "/"
          = Ok (Some [] :: replicate k (Some (str "..")) ++ map Some names))
    as Hsplit.
  { rewrite narrow_string_split_whole by size_lia.
    unfold path.
    change ("/"%char :: joined "/" (replicate k (str "..") ++ names))
      with ([] ++ "/"%char :: joined "/" (replicate k (str "..") ++ names)).
    rewrite <- (joined_cons "/" [] _ Hrest).
    rewrite split_on_joined;
      [|discriminate|apply normalized_segments_free; [reflexivity|exact Hfree]].
    cbn [map]. rewrite map_app, map_Some_replicate. reflexivity. }
  destruct (count_rooted k names 1 Hplain) as [last_used Hcount];
    [lia|size_lia|].
  unfold Posix.resolve. cbv zeta. cbn [bind].
  rewrite Hsplit. cbn [bind_or bind].
  unfold libcsplit.narrow_split_string_get_number_of_segments.
  cbn [bind_or bind]. rewrite Nat2Z.id.
  cbn [length]. rewrite length_app, length_replicate, length_map.
  rewrite Hcount.
  cbn [bind Resolver.safe_full_path_size Resolver.path_split_string
       Resolver.current_directory_split_string].
  unfold narrow_string_allocate.
  destruct (Z.leb_spec (1 + segments_size names) SSIZE_MAX); [|size_lia].
  replace (Z.to_nat (1 + segments_size names))
    with (S (length (written "/" names) + 0))
    by (rewrite <- (length_written "/"); unfold length_of; lia).
  cbn [replicate]. rewrite store_first.
  assert (surviving (None :: replicate k None ++ map Some names) = names)
    as Hsurvive.
  { change (surviving (None :: ?l)) with (surviving l).
    rewrite surviving_cleared. apply surviving_names. }
  pose proof (write_segments_all "/"
                "unable to retrieve path string segment." [] 0
                (None :: replicate k None ++ map Some names)
                ["/"%char]) as Hwrite.
  rewrite Hsurvive in Hwrite.
  cbn [length] in Hwrite.
  rewrite length_app, length_replicate, length_map in Hwrite.
  change (length_of ["/"%char]) with 1 in Hwrite.
  cbn [app] in Hwrite.
  rewrite Hwrite by size_lia. cbn [bind fst snd].
  rewrite size_sub_exact by size_lia.
  rewrite written_joined by exact Hnames.
  cbn [replicate]. rewrite app_nil_r.
  replace (1 + segments_size names - 1)
    with (length_of ("/"%char :: joined "/" names))
    by (rewrite Hsize; unfold length_of; cbn [length]; lia).
  change ("/"%char :: joined "/" names ++ ["/"%char])
    with (("/"%char :: joined "/" names) ++ ["/"%char]).
  rewrite store_middle. f_equal. f_equal.
  rewrite Hsize. unfold length_of. cbn [length]. lia.
Qed.

Lemma posix_get_full_path_absolute (k : nat) (names : list cstring)
    (w : world) :
  normalized "/" names ->
  length_of ("/"%char :: joined "/" (replicate k (str "..") ++ names))
  <= SSIZE_MAX - 1 ->
  Posix.libcpath_path_get_full_path
    (Some ("/"%char :: joined "/" (replicate k (str "..") ++ names)))
    (length_of ("/"%char :: joined "/" (replicate k (str "..") ++ names)))
    (Some None) (Some 0) w
  = (Ok (mk_buffer (("/"%char :: joined "/" names) ++ [NUL]) [],
         length_of ("/"%char :: joined "/" names) + 1), w).
Proof.
  intros Hnormalized Hmax. unfold Posix.libcpath_path_get_full_path.
  rewrite posix_resolve_absolute by assumption.
  set (path := "/"%char :: joined "/" (replicate k (str "..") ++ names)) in *.
  assert (1 <= length_of path) by (unfold path, length_of; cbn [length]; lia).
  destruct (Z.eqb_spec (length_of path) 0); [lia|].
  rewrite Z.gtb_ltb.
  destruct (Z.ltb_spec (SSIZE_MAX - 1) (length_of path)); [lia|].
  reflexivity.
Qed.

(** C4: in the POSIX resolver a [..] segment met when there is no
    working directory segment list and no earlier segment has contributed
    a name is cleared and nothing else changes: the predicted size stays
    as it is and the step does not fail.  Hence an absolute path that
    starts with any number of [..] segments followed by names resolves to
    the names under the root; in particular [/../../etc] resolves to
    [/etc]. *)
Theorem dot_dot_above_root_absorbed :
  (forall (done rest : list (option cstring)) (size index : Z),
     Resolver.count_segment (index_after done)
       (Resolver.mk_state (done ++ Some (str "..") :: rest) None size index (-1))
     = Ok (Resolver.mk_state (done ++ None :: rest) None size index (-1)))
  /\ (forall (k : nat) (names : list cstring) (w : world),
        normalized "/" names ->
        length_of ("/"%char :: joined "/" (replicate k (str "..") ++ names))
        <= SSIZE_MAX - 1 ->
        Posix.libcpath_path_get_full_path
          (Some ("/"%char :: joined "/" (replicate k (str "..") ++ names)))
          (length_of ("/"%char :: joined "/" (replicate k (str "..") ++ names)))
          (Some None) (Some 0) w
        = (Ok (mk_buffer (("/"%char :: joined "/" names) ++ [NUL]) [],
               length_of ("/"%char :: joined "/" names) + 1), w))
  /\ (forall w : world,
        Posix.libcpath_path_get_full_path (Some (str "/../../etc")) 10
          (Some None) (Some 0) w
        = (Ok (mk_buffer (str "/etc" ++ [NUL]) [], 5), w)).
Proof.
  split; [exact count_dot_dot_at_root|].
  split; [intros k names w; apply posix_get_full_path_absolute|].
  intros w.
  apply (posix_get_full_path_absolute 2 [str "etc"] w).
  - repeat split; try discriminate; repeat constructor.
  - vm_compute. discriminate.
Qed.

Lemma dot_dot_above_root_absorbed_witness :
  normalized "/" [str "etc"]
  /\ length_of ("/"%char :: joined "/" (replicate 2 (str "..") ++ [str "etc"]))
     <= SSIZE_MAX - 1
  /\ Posix.libcpath_path_get_full_path (Some (str "/../../etc")) 10
       (Some None) (Some 0) (world_at "/home/user")
     = (Ok (mk_buffer (str "/etc" ++ [NUL]) [], 5), world_at "/home/user").
Proof.
  assert (normalized "/" [str "etc"]) as Hnames
    by (repeat split; try discriminate; repeat constructor).
  assert (length_of ("/"%char :: joined "/"
                       (replicate 2 (str "..") ++ [str "etc"]))
          <= SSIZE_MAX - 1) as Hmax by (vm_compute; discriminate).
  split; [exact Hnames|]. split; [exact Hmax|].
  exact (proj1 (proj2 dot_dot_above_root_absorbed) 2%nat [str "etc"]
           (world_at "/home/user") Hnames Hmax).
Defined.

(** ** The Windows classifier on drive paths *)


(** Reads at constant indices, comparisons of constant characters and
    the comparisons of lengths the context decides *)
Ltac read_characters :=
  unfold char_at; compute_indices; cbn [nth str list_ascii_of_string app];
  repeat match goal with
  | H : char_eqb ?a ?b = _ |- context [char_eqb ?a ?b] => rewrite H
  | H : Windows.is_letter ?a = _ |- context [Windows.is_letter ?a] => rewrite H
  | |- context [char_eqb (Ascii ?b0 ?b1 ?b2 ?b3 ?b4 ?b5 ?b6 ?b7) ?c] =>
      let v := eval vm_compute in
                 (char_eqb (Ascii b0 b1 b2 b3 b4 b5 b6 b7) c) in
      change (char_eqb (Ascii b0 b1 b2 b3 b4 b5 b6 b7) c) with v
  end.

Ltac decide_lengths :=
  repeat match goal with
  | |- context [?a <=? ?b] =>
      first [ replace (a <=? b) with true by (symmetry; apply Z.leb_le; size_lia)
            | replace (a <=? b) with false by (symmetry; apply Z.leb_gt; size_lia) ]
  | |- context [?a <? ?b] =>
      first [ replace (a <? b) with true by (symmetry; apply Z.ltb_lt; size_lia)
            | replace (a <? b) with false by (symmetry; apply Z.ltb_ge; size_lia) ]
  | |- context [?a >? ?b] => rewrite (Z.gtb_ltb a b)
  | |- context [?a =? ?b] =>
      first [ replace (a =? b) with true by (symmetry; apply Z.eqb_eq; size_lia)
            | replace (a =? b) with false by (symmetry; apply Z.eqb_neq; size_lia) ]
  end.

Ltac simplify_booleans :=
  repeat (rewrite ?andb_false_r, ?andb_true_r, ?orb_false_r, ?orb_true_r;
          cbn [andb orb negb]).

Ltac evaluate :=
  repeat (progress (fold_arithmetic; decide_lengths; read_characters;
                    simplify_booleans)).


Lemma find_volume_name_index_extended (letter : ascii) (rest : cstring)
    (path_length : Z) :
  4 <= path_length ->
  Windows.find_volume_name_index
    (str "\\?\" ++ letter :: ":"%char :: rest) path_length = 4.
Proof.
  intros Hlength.
  unfold Windows.find_volume_name_index, Windows.has_special_prefix,
    Windows.has_unc_marker.
  read_characters. decide_lengths. simplify_booleans. reflexivity.
Qed.



Lemma get_path_type_extended (letter : ascii) (rest : cstring)
    (path_length : Z) (slot : LIBCPATH_TYPE) :
  7 <= path_length <= SSIZE_MAX - 1 ->
  Windows.libcpath_path_get_path_type
    (Some (str "\\?\" ++ letter :: ":"%char :: "\"%char :: rest))
    path_length (Some slot)
  = Ok LIBCPATH_TYPE_EXTENDED_LENGTH.
Proof.
  intros Hlength.
  unfold Windows.libcpath_path_get_path_type, Windows.has_special_prefix,
    Windows.has_unc_marker.
  read_characters. decide_lengths. simplify_booleans. reflexivity.
Qed.

Lemma get_volume_name_extended (letter : ascii) (rest : cstring)
    (path_length : Z) (name : option cstring) (length index : Z) :
  Windows.is_letter letter = true ->
  7 <= path_length <= SSIZE_MAX - 1 ->
  Windows.libcpath_path_get_volume_name
    (Some (str "\\?\" ++ letter :: ":"%char :: "\"%char :: rest))
    path_length (Some name) (Some length) (Some index)
  = Ok (Some (letter :: ":"%char :: "\"%char :: rest), 2, 7).
Proof.
  intros Hletter Hlength.
  unfold Windows.libcpath_path_get_volume_name. cbv zeta.
  rewrite find_volume_name_index_extended by lia.
  unfold Windows.volume_name_result, Windows.pointer_into.
  evaluate. cbn [drop]. reflexivity.
Qed.

(** ** The Windows resolver on drive paths *)

Lemma count_names_only (names : list cstring)
    (current_directory_segments : option (list (option cstring)))
    (base index : Z) :
  Forall (fun name => is_plain_name name = true) names ->
  0 <= base -> base + segments_size names <= SIZE_MAX ->
  exists last_used,
    for_loop (length names) 0 Resolver.count_segment
      (Resolver.mk_state (map Some names) current_directory_segments
         base index (-1))
    = Ok (Resolver.mk_state (map Some names) current_directory_segments
            (base + segments_size names) index last_used).
Proof.
  intros Hplain Hbase Hmax.
  pose proof (count_names names [] [] current_directory_segments base index
                (-1) Hplain Hbase Hmax) as Hcount.
  change (index_after []) with 0 in Hcount. cbn [app] in Hcount.
  rewrite app_nil_r in Hcount. rewrite Hcount. eexists. reflexivity.
Qed.






(** ** The counting loop as a walk over a stack of names *)

Lemma segment_tests (segment : cstring) :
  Resolver.is_dot_dot segment (libcsplit.segment_size (Some segment))
  = is_up segment
  /\ (is_up segment = false -> is_plain_name segment = false ->
      Resolver.is_dot segment (libcsplit.segment_size (Some segment))
      || (libcsplit.segment_size (Some segment) <=? 1) = true).
Proof.
  unfold Resolver.is_dot_dot, Resolver.is_dot, libcsplit.segment_size, char_at.
  change (Z.to_nat 0) with 0%nat. change (Z.to_nat 1) with 1%nat.
  destruct segment as [|c1 [|c2 [|c3 rest]]];
    cbn [is_up is_plain_name length nth].
  - split; [reflexivity|]. intros _ _. reflexivity.
  - change (Z.of_nat 1 + 1 =? 3) with false.
    change (Z.of_nat 1 + 1 =? 2) with true.
    split; [reflexivity|]. intros _ H. apply negb_false_iff in H.
    rewrite H. reflexivity.
  - change (Z.of_nat 2 + 1 =? 3) with true.
    split; [reflexivity|]. intros Hup H. apply negb_false_iff in H.
    congruence.
  - assert ((Z.of_nat (S (S (S (length rest)))) + 1 =? 3) = false) as ->
      by (apply Z.eqb_neq; lia).
    split; [reflexivity|]. intros _ H. discriminate H.
Qed.

Lemma count_skipped (done rest : list (option cstring)) (segment : cstring)
    (current_directory_segments : option (list (option cstring)))
    (size index last_used : Z) :
  is_up segment = false -> is_plain_name segment = false ->
  Resolver.count_segment (index_after done)
    (Resolver.mk_state (done ++ Some segment :: rest)
       current_directory_segments size index last_used)
  = Ok (Resolver.mk_state (done ++ None :: rest)
          current_directory_segments size index last_used).
Proof.
  intros Hup Hplain.
  destruct (segment_tests segment) as [Htest Hskip].
  specialize (Hskip Hup Hplain).
  unfold Resolver.count_segment. cbn [Resolver.path_split_string].
  rewrite get_segment_middle. cbn [bind_or].
  rewrite Htest, Hup.
  unfold Resolver.clear_path_segment. cbn [Resolver.path_split_string].
  rewrite clear_segment_middle. cbn [bind_or].
  destruct (Resolver.is_dot segment (libcsplit.segment_size (Some segment)));
    [reflexivity|].
  cbn [orb] in Hskip. rewrite Hskip. reflexivity.
Qed.

Lemma find_previous_used_spec (reversed_before : list (option cstring)) :
  forall rest : list (option cstring),
    Resolver.find_previous_used (length reversed_before)
      (reverse reversed_before ++ rest)
      (Z.of_nat (length reversed_before))
    = Ok (previous_used reversed_before).
Proof.
  induction reversed_before as [|segment before IH]; intros rest.
  - reflexivity.
  - cbn [length Resolver.find_previous_used].
    rewrite Z.gtb_ltb.
    destruct (Z.ltb_spec 0 (Z.of_nat (S (length before)))); [|lia].
    replace (Z.of_nat (S (length before)) - 1) with (Z.of_nat (length before))
      by lia.
    rewrite reverse_cons, <- app_assoc. cbn [app].
    pose proof (get_segment_middle (reverse before) rest segment) as Hget.
    unfold index_after in Hget. rewrite length_reverse in Hget.
    rewrite Hget. cbn [bind_or snd].
    destruct segment as [name|]; cbn [libcsplit.segment_size previous_used].
    + destruct (Z.eqb_spec (Z.of_nat (length name) + 1) 0); [lia|].
      reflexivity.
    + cbn [Z.eqb negb].
      replace (reverse before ++ None :: rest)
        with (reverse before ++ ([None] ++ rest)) by reflexivity.
      apply IH.
Qed.

Lemma surviving_app (a b : list (option cstring)) :
  surviving (a ++ b) = surviving a ++ surviving b.
Proof. apply omap_app. Qed.

Lemma surviving_reverse (segments : list (option cstring)) :
  surviving (reverse segments) = reverse (surviving segments).
Proof.
  induction segments as [|[name|] segments IH].
  - reflexivity.
  - rewrite reverse_cons, surviving_app, IH.
    change (surviving (Some name :: segments)) with (name :: surviving segments).
    rewrite reverse_cons. reflexivity.
  - rewrite reverse_cons, surviving_app, IH.
    change (surviving (None :: segments)) with (surviving segments).
    cbn. rewrite app_nil_r. reflexivity.
Qed.

Lemma surviving_cons_inv (segments : list (option cstring)) (top : cstring)
    (below : list cstring) :
  surviving segments = top :: below ->
  exists (k : nat) (before : list (option cstring)),
    segments = replicate k None ++ Some top :: before
    /\ surviving before = below.
Proof.
  induction segments as [|[name|] segments IH].
  - discriminate.
  - change (surviving (Some name :: segments)) with (name :: surviving segments).
    intros [= -> Hrest]. exists 0%nat, segments. split; [reflexivity|exact Hrest].
  - change (surviving (None :: segments)) with (surviving segments).
    intros H. destruct (IH H) as (k & before & -> & Hbefore).
    exists (S k), before. split; [reflexivity|exact Hbefore].
Qed.

Lemma surviving_nil_inv (segments : list (option cstring)) :
  surviving segments = [] -> segments = replicate (length segments) None.
Proof.
  induction segments as [|[name|] segments IH]; [reflexivity|discriminate|].
  change (surviving (None :: segments)) with (surviving segments).
  intros H. cbn. rewrite <- (IH H). reflexivity.
Qed.

Lemma previous_used_cleared (k : nat) (before : list (option cstring)) :
  previous_used (replicate k None ++ before) = previous_used before.
Proof. induction k as [|k IH]; [reflexivity|exact IH]. Qed.

Lemma previous_used_all_cleared (k : nat) :
  previous_used (replicate k None) = 0.
Proof. induction k as [|k IH]; [reflexivity|exact IH]. Qed.

Lemma segments_size_app (a b : list cstring) :
  segments_size (a ++ b) = segments_size a + segments_size b.
Proof.
  unfold segments_size, length_of. rewrite written_app, length_app. lia.
Qed.

Lemma segments_size_reverse (segments : list cstring) :
  segments_size (reverse segments) = segments_size segments.
Proof.
  induction segments as [|segment segments IH]; [reflexivity|].
  rewrite reverse_cons, segments_size_app, IH, !segments_size_cons.
  unfold segments_size at 2, written, length_of. cbn. lia.
Qed.

(** A [..] that removes the name last used *)
Lemma count_pop (before rest : list (option cstring)) (top : cstring)
    (k : nat) (size index : Z) :
  length_of top + 1 <= size <= SIZE_MAX ->
  Resolver.count_segment (Z.of_nat (length before + 1 + k))
    (Resolver.mk_state
       (reverse before ++ Some top :: replicate k None
        ++ Some (str "..") :: rest)
       None size index (Z.of_nat (length before)))
  = Ok (Resolver.mk_state
          (reverse before ++ None :: replicate k None ++ None :: rest)
          None (size - (length_of top + 1)) index (previous_used before)).
Proof.
  intros Hsize.
  assert (0 <= length_of top) by (unfold length_of; lia).
  unfold Resolver.count_segment. cbn [Resolver.path_split_string].
  pose proof (get_segment_middle
                (reverse before ++ Some top :: replicate k None) rest
                (Some (str ".."))) as Hcurrent.
  replace (index_after (reverse before ++ Some top :: replicate k None))
    with (Z.of_nat (length before + 1 + k)) in Hcurrent
    by (unfold index_after; rewrite length_app, length_reverse; cbn [length];
        rewrite length_replicate; lia).
  rewrite <- app_assoc in Hcurrent. cbn [app] in Hcurrent.
  rewrite Hcurrent. cbn [bind_or].
  change (Resolver.is_dot_dot (str "..")
            (libcsplit.segment_size (Some (str "..")))) with true.
  cbv iota. unfold Resolver.go_up.
  cbn [Resolver.current_directory_split_string
       Resolver.last_used_path_segment_index Resolver.path_split_string
       Resolver.safe_full_path_size Resolver.current_directory_segment_index].
  destruct (Z.geb_spec (Z.of_nat (length before)) 0); [|lia].
  pose proof (get_segment_middle (reverse before)
                (replicate k None ++ Some (str "..") :: rest) (Some top))
    as Hlast.
  unfold index_after in Hlast. rewrite length_reverse in Hlast.
  rewrite Hlast. cbn [bind_or fst snd libcsplit.segment_size].
  pose proof (clear_segment_middle (reverse before)
                (replicate k None ++ Some (str "..") :: rest) (Some top))
    as Hclear.
  unfold index_after in Hclear. rewrite length_reverse in Hclear.
  rewrite Hclear. cbn [bind_or]. rewrite Nat2Z.id.
  change (reverse before ++ None :: replicate k None ++ Some (str "..") :: rest)
    with (reverse before
          ++ ([None] ++ replicate k None ++ Some (str "..") :: rest)) at 1.
  rewrite find_previous_used_spec. cbn [bind_or bind app].
  unfold Resolver.clear_path_segment.
  cbn [Resolver.path_split_string Resolver.current_directory_split_string
       Resolver.last_used_path_segment_index
       Resolver.safe_full_path_size Resolver.current_directory_segment_index].
  pose proof (clear_segment_middle
                (reverse before ++ None :: replicate k None) rest
                (Some (str ".."))) as Hself.
  replace (index_after (reverse before ++ None :: replicate k None))
    with (Z.of_nat (length before + 1 + k)) in Hself
    by (unfold index_after; rewrite length_app, length_reverse; cbn [length];
        rewrite length_replicate; lia).
  rewrite <- !app_assoc in Hself. cbn [app] in Hself.
  rewrite Hself. cbn [bind_or].
  fold (length_of top). rewrite size_sub_exact by lia. reflexivity.
Qed.

(** A [..] when every name pushed so far has been removed again *)
Lemma count_pop_exhausted (done rest : list (option cstring))
    (size index : Z) :
  Resolver.count_segment (index_after (None :: done))
    (Resolver.mk_state (None :: done ++ Some (str "..") :: rest)
       None size index 0)
  = fail LIBCERROR_ERROR_DOMAIN_RUNTIME LIBCERROR_RUNTIME_ERROR_VALUE_MISSING
      "missing last used path string string segment.".
Proof.
  unfold Resolver.count_segment. cbn [Resolver.path_split_string].
  pose proof (get_segment_middle (None :: done) rest (Some (str "..")))
    as Hcurrent.
  cbn [app] in Hcurrent. rewrite Hcurrent. cbn [bind_or].
  change (Resolver.is_dot_dot (str "..")
            (libcsplit.segment_size (Some (str "..")))) with true.
  cbv iota. unfold Resolver.go_up.
  cbn [Resolver.current_directory_split_string
       Resolver.last_used_path_segment_index Resolver.path_split_string].
  reflexivity.
Qed.

Lemma is_up_inv (segment : cstring) :
  is_up segment = true -> segment = str "..".
Proof.
  destruct segment as [|c1 [|c2 [|c3 rest]]]; try discriminate.
  cbn [is_up]. intros [H1 H2]%andb_prop.
  apply char_eqb_eq in H1, H2. subst. reflexivity.
Qed.

Lemma reverse_visited (x : option cstring) (visited : list (option cstring))
    (rest : list (option cstring)) :
  reverse (x :: visited) ++ rest = reverse visited ++ x :: rest.
Proof. rewrite reverse_cons, <- app_assoc. reflexivity. Qed.

(** The counting loop, started after the segments [visited] (the last
    one first) with the stack of names they left, does what the walk
    does with the remaining segments. *)
Lemma count_walk (segments : list cstring) :
  forall (visited : list (option cstring)) (stack : list cstring)
         (pushed : bool) (base index last_used : Z),
    surviving visited = stack ->
    last_used = (if pushed then previous_used visited else -1) ->
    (pushed = false -> stack = []) ->
    (pushed = true -> visited <> []) ->
    0 <= base ->
    base + segments_size stack + segments_size segments <= SIZE_MAX ->
    match walk segments stack pushed with
    | Some names =>
        exists (final : list (option cstring)) (last_used' : Z),
          for_loop (length segments) (Z.of_nat (length visited))
            Resolver.count_segment
            (Resolver.mk_state (reverse visited ++ map Some segments) None
               (base + segments_size stack) index last_used)
          = Ok (Resolver.mk_state final None (base + segments_size names)
                  index last_used')
          /\ surviving final = names
          /\ length final = (length visited + length segments)%nat
    | None =>
        for_loop (length segments) (Z.of_nat (length visited))
          Resolver.count_segment
          (Resolver.mk_state (reverse visited ++ map Some segments) None
             (base + segments_size stack) index last_used)
        = fail LIBCERROR_ERROR_DOMAIN_RUNTIME
            LIBCERROR_RUNTIME_ERROR_VALUE_MISSING
            "missing last used path string string segment."
    end.
Proof.
  induction segments as [|segment rest IH];
    intros visited stack pushed base index last_used Hstack Hlast Hpushed
      Hvisited Hbase Hmax.
  - cbn [walk for_loop length map]. exists (reverse visited ++ []), last_used.
    rewrite segments_size_reverse, app_nil_r, surviving_reverse, Hstack,
      length_reverse.
    repeat split. lia.
  - pose proof (segments_size_nonneg rest) as Hrest.
    pose proof (segments_size_nonneg stack) as Hstack_size.
    rewrite segments_size_cons in Hmax.
    assert (0 <= length_of segment) by (unfold length_of; lia).
    cbn [walk for_loop length map].
    destruct (is_up segment) eqn:Hup.
    + apply is_up_inv in Hup. subst segment.
      destruct stack as [|top below].
      * destruct pushed.
        -- specialize (Hvisited eq_refl).
           rewrite (surviving_nil_inv visited Hstack) in *.
           rewrite length_replicate in *.
           destruct (length visited) as [|n]; [cbn in Hvisited; congruence|].
           rewrite reverse_replicate. cbn [replicate app].
           pose proof (count_pop_exhausted (replicate n None)
                         (map Some rest) (base + segments_size []) index)
             as Hstep.
           replace (index_after (None :: replicate n None))
             with (Z.of_nat (S n)) in Hstep
             by (unfold index_after; cbn [length];
                 rewrite length_replicate; reflexivity).
           rewrite previous_used_all_cleared in Hlast. subst last_used.
           rewrite Hstep. reflexivity.
        -- subst last_used.
           pose proof (count_dot_dot_at_root (reverse visited) (map Some rest)
                         (base + segments_size []) index) as Hstep.
           unfold index_after in Hstep. rewrite length_reverse in Hstep.
           rewrite Hstep. clear Hstep.
           rewrite <- reverse_visited.
           replace (Z.of_nat (length visited) + 1)
             with (Z.of_nat (length (None :: visited)))
             by (cbn [length]; lia).
           specialize (IH (None :: visited) [] false base index (-1)
                         Hstack eq_refl (fun _ => eq_refl)
                         ltac:(discriminate) Hbase ltac:(lia)).
           destruct (walk rest [] false) as [names|].
           ++ destruct IH as (final & last' & Hloop & Hnames & Hlength).
              exists final, last'. rewrite Hloop.
              repeat split; [exact Hnames|]. cbn [length] in Hlength. lia.
           ++ exact IH.
      * assert (pushed = true) as ->
          by (destruct pushed; [reflexivity|specialize (Hpushed eq_refl);
                                             discriminate]).
        destruct (surviving_cons_inv visited top below Hstack)
          as (k & before & -> & Hbefore).
        rewrite previous_used_cleared in Hlast. cbn [previous_used] in Hlast.
        subst last_used.
        rewrite segments_size_cons in *.
        pose proof (segments_size_nonneg below) as Hbelow.
        assert (0 <= length_of top) by (unfold length_of; lia).
        rewrite reverse_app, reverse_cons, reverse_replicate.
        rewrite <- !app_assoc. cbn [app].
        rewrite length_app, length_replicate. cbn [length].
        replace (Z.of_nat (k + S (length before)))
          with (Z.of_nat (length before + 1 + k)) by lia.
        rewrite count_pop by (rewrite SIZE_MAX_value in *; lia).
        replace (base + (length_of top + 1 + segments_size below)
                 - (length_of top + 1))
          with (base + segments_size below) by lia.
        specialize (IH (None :: replicate k None ++ None :: before) below true
                       base index (previous_used before)).
        rewrite reverse_cons, reverse_app, reverse_cons, reverse_replicate
          in IH.
        rewrite <- !app_assoc in IH. cbn [app] in IH.
        cbn [length] in IH. rewrite length_app, length_replicate in IH.
        cbn [length] in IH.
        replace (Z.of_nat (S (k + S (length before))))
          with (Z.of_nat (length before + 1 + k) + 1) in IH by lia.
        assert (surviving (None :: replicate k None ++ None :: before) = below)
          as Hsurvive.
        { change (surviving (None :: ?l)) with (surviving l).
          rewrite surviving_cleared. exact Hbefore. }
        specialize (IH Hsurvive).
        assert (previous_used before
                = previous_used (None :: replicate k None ++ None :: before))
          as Hprevious.
        { cbn [previous_used]. rewrite previous_used_cleared. reflexivity. }
        specialize (IH Hprevious ltac:(discriminate) ltac:(discriminate)
                       Hbase ltac:(lia)).
        destruct (walk rest below true) as [names|].
        -- destruct IH as (final & last' & Hloop & Hnames & Hlength).
           exists final, last'. rewrite Hloop.
           repeat split; [exact Hnames|]. lia.
        -- exact IH.
    + destruct (is_plain_name segment) eqn:Hplain.
      * pose proof (count_plain_name (reverse visited) (map Some rest) segment
                      None (base + segments_size stack) index last_used
                      Hplain ltac:(lia)
                      ltac:(rewrite SIZE_MAX_value in *; lia)) as Hstep.
        unfold index_after in Hstep. rewrite length_reverse in Hstep.
        rewrite Hstep. clear Hstep.
        rewrite <- reverse_visited.
        replace (Z.of_nat (length visited) + 1)
          with (Z.of_nat (length (Some segment :: visited)))
          by (cbn [length]; lia).
        replace (base + segments_size stack + (length_of segment + 1))
          with (base + segments_size (segment :: stack))
          by (rewrite segments_size_cons; lia).
        specialize (IH (Some segment :: visited) (segment :: stack) true
                       base index (Z.of_nat (length visited))).
        assert (surviving (Some segment :: visited) = segment :: stack)
          as Hsurvive
          by (change (surviving (Some segment :: visited))
                with (segment :: surviving visited); rewrite Hstack;
              reflexivity).
        specialize (IH Hsurvive eq_refl ltac:(discriminate)
                       ltac:(discriminate) Hbase
                       ltac:(rewrite segments_size_cons; lia)).
        destruct (walk rest (segment :: stack) true) as [names|].
        -- destruct IH as (final & last' & Hloop & Hnames & Hlength).
           exists final, last'. rewrite Hloop.
           repeat split; [exact Hnames|]. cbn [length] in Hlength. lia.
        -- exact IH.
      * pose proof (count_skipped (reverse visited) (map Some rest) segment
                      None (base + segments_size stack) index last_used
                      Hup Hplain) as Hstep.
        unfold index_after in Hstep. rewrite length_reverse in Hstep.
        rewrite Hstep. clear Hstep.
        rewrite <- reverse_visited.
        replace (Z.of_nat (length visited) + 1)
          with (Z.of_nat (length (None :: visited)))
          by (cbn [length]; lia).
        specialize (IH (None :: visited) stack pushed base index last_used).
        assert (surviving (None :: visited) = stack) as Hsurvive by exact Hstack.
        assert (last_used = if pushed then previous_used (None :: visited)
                            else -1) as Hlast' by exact Hlast.
        specialize (IH Hsurvive Hlast' Hpushed ltac:(discriminate) Hbase
                       ltac:(lia)).
        destruct (walk rest stack pushed) as [names|].
        -- destruct IH as (final & last' & Hloop & Hnames & Hlength).
           exists final, last'. rewrite Hloop.
           repeat split; [exact Hnames|]. cbn [length] in Hlength. lia.
        -- exact IH.
Qed.

Lemma walk_size (segments : list cstring) :
  forall (stack : list cstring) (pushed : bool) (names : list cstring),
    walk segments stack pushed = Some names ->
    segments_size names <= segments_size stack + segments_size segments.
Proof.
  induction segments as [|segment rest IH]; intros stack pushed names.
  - cbn [walk]. intros [= <-]. rewrite segments_size_reverse.
    pose proof (segments_size_nonneg []). lia.
  - cbn [walk]. rewrite segments_size_cons.
    assert (0 <= length_of segment) by (unfold length_of; lia).
    destruct (is_up segment).
    + destruct stack as [|top below].
      * destruct pushed; [discriminate|]. intros Hwalk.
        specialize (IH _ _ _ Hwalk). lia.
      * intros Hwalk. specialize (IH _ _ _ Hwalk).
        rewrite segments_size_cons.
        assert (0 <= length_of top) by (unfold length_of; lia). lia.
    + destruct (is_plain_name segment).
      * intros Hwalk. specialize (IH _ _ _ Hwalk).
        rewrite segments_size_cons in IH. lia.
      * intros Hwalk. specialize (IH _ _ _ Hwalk). lia.
Qed.

Lemma posix_resolve_walk (segments : list cstring) :
  segments <> [] ->
  Forall (fun segment => free_of "/" segment = true) segments ->
  length_of ("/"%char :: joined "/" segments) <= SSIZE_MAX - 1 ->
  Posix.resolve ("/"%char :: joined "/" segments)
    (length_of ("/"%char :: joined "/" segments)) LIBCPATH_TYPE_ABSOLUTE None
  = match walk segments [] false with
    | Some names =>
        Ok (mk_buffer (rooted names ++ [NUL]) [], length_of (rooted names) + 1)
    | None =>
        fail LIBCERROR_ERROR_DOMAIN_RUNTIME
          LIBCERROR_RUNTIME_ERROR_VALUE_MISSING
          "missing last used path string string segment."
    end.
Proof.
  intros Hsegments Hfree Hmax.
  set (path := "/"%char :: joined "/" segments) in *.
  assert (segments_size segments = length_of (joined "/" segments) + 1)
    as Hsize.
  { rewrite <- (length_written "/"), written_joined by exact Hsegments.
    unfold length_of. rewrite length_app. cbn [length]. lia. }
  assert (length_of path = 1 + length_of (joined "/" segments)) as Hlength
    by (unfold path, length_of; cbn [length]; lia).
  assert (0 <= length_of (joined "/" segments)) by (unfold length_of; lia).
  assert (libcsplit.narrow_string_split path (size_add (length_of path) 1) "/"
          = Ok (Some [] :: map Some segments)) as Hsplit.
  { rewrite narrow_string_split_whole by size_lia.
    unfold path.
    change ("/"%char :: joined "/" segments)
      with ([] ++ "/"%char :: joined "/" segments).
    rewrite <- (joined_cons "/" [] _ Hsegments).
    rewrite split_on_joined;
      [reflexivity|discriminate|constructor; [reflexivity|exact Hfree]]. }
  unfold Posix.resolve. cbv zeta. cbn [bind].
  rewrite Hsplit. cbn [bind_or bind].
  unfold libcsplit.narrow_split_string_get_number_of_segments.
  cbn [bind_or bind]. rewrite Nat2Z.id.
  cbn [length]. rewrite length_map.
  cbn [for_loop].
  pose proof (count_empty_segment [] (map Some segments) None 1 0 (-1))
    as Hfirst.
  change (index_after []) with 0 in Hfirst. cbn [app] in Hfirst.
  rewrite Hfirst. clear Hfirst.
  pose proof (count_walk segments [None] [] false 1 0 (-1) eq_refl eq_refl
                (fun _ => eq_refl) ltac:(discriminate) ltac:(lia)) as Hcount.
  change (segments_size []) with 0 in Hcount.
  rewrite Z.add_0_r in Hcount.
  change (reverse [None] ++ map Some segments)
    with (None :: map Some segments) in Hcount.
  change (Z.of_nat (length [None])) with (0 + 1) in Hcount.
  specialize (Hcount ltac:(size_lia)).
  pose proof (walk_size segments [] false) as Hnames_size.
  destruct (walk segments [] false) as [names|].
  - destruct Hcount as (final & last_used & -> & Hsurvive & Hfinal).
    specialize (Hnames_size names eq_refl).
    change (segments_size []) with 0 in Hnames_size.
    pose proof (segments_size_nonneg names).
    cbn [bind Resolver.safe_full_path_size Resolver.path_split_string
         Resolver.current_directory_split_string].
    unfold narrow_string_allocate.
    destruct (Z.leb_spec (1 + segments_size names) SSIZE_MAX); [|size_lia].
    replace (Z.to_nat (1 + segments_size names))
      with (S (length (written "/" names) + 0))
      by (rewrite <- (length_written "/"); unfold length_of; lia).
    cbn [replicate]. rewrite store_first.
    pose proof (write_segments_all "/"
                  "unable to retrieve path string segment." [] 0
                  final ["/"%char]) as Hwrite.
    rewrite Hsurvive, Hfinal in Hwrite.
    change (length_of ["/"%char]) with 1 in Hwrite.
    cbn [app length] in Hwrite.
    replace (Z.of_nat (1 + length segments))
      with (Z.of_nat (S (length segments))) in Hwrite by lia.
    rewrite Hwrite by size_lia. clear Hwrite. cbn [bind fst snd].
    rewrite size_sub_exact by size_lia.
    cbn [replicate]. rewrite app_nil_r.
    destruct names as [|name names].
    + change (segments_size []) with 0. cbn [written map concat rooted app].
      change (1 + 0 - 1) with 0. rewrite store_first. reflexivity.
    + rewrite written_joined by discriminate.
      assert (segments_size (name :: names)
              = length_of (joined "/" (name :: names)) + 1) as Hnames.
      { rewrite <- (length_written "/"), written_joined by discriminate.
        unfold length_of. rewrite length_app. cbn [length]. lia. }
      cbn [rooted].
      replace (1 + segments_size (name :: names) - 1)
        with (length_of ("/"%char :: joined "/" (name :: names)))
        by (rewrite Hnames; unfold length_of; cbn [length]; lia).
      change ("/"%char :: joined "/" (name :: names) ++ ["/"%char])
        with (("/"%char :: joined "/" (name :: names)) ++ ["/"%char]).
      rewrite store_middle. f_equal. f_equal.
      rewrite Hnames. unfold length_of. cbn [length]. lia.
  - rewrite Hcount. reflexivity.
Qed.

Lemma posix_get_full_path_walk (segments : list cstring) (w : world) :
  segments <> [] ->
  Forall (fun segment => free_of "/" segment = true) segments ->
  length_of ("/"%char :: joined "/" segments) <= SSIZE_MAX - 1 ->
  Posix.libcpath_path_get_full_path (Some ("/"%char :: joined "/" segments))
    (length_of ("/"%char :: joined "/" segments)) (Some None) (Some 0) w
  = (match walk segments [] false with
     | Some names =>
         Ok (mk_buffer (rooted names ++ [NUL]) [],
             length_of (rooted names) + 1)
     | None =>
         fail LIBCERROR_ERROR_DOMAIN_RUNTIME
           LIBCERROR_RUNTIME_ERROR_VALUE_MISSING
           "missing last used path string string segment."
     end, w).
Proof.
  intros Hsegments Hfree Hmax. unfold Posix.libcpath_path_get_full_path.
  rewrite posix_resolve_walk by assumption.
  set (path := "/"%char :: joined "/" segments) in *.
  assert (1 <= length_of path) by (unfold path, length_of; cbn [length]; lia).
  destruct (Z.eqb_spec (length_of path) 0); [lia|].
  rewrite Z.gtb_ltb.
  destruct (Z.ltb_spec (SSIZE_MAX - 1) (length_of path)); [lia|].
  reflexivity.
Qed.

(** ** The walk on names, on [..] and on lists without [..] *)

Lemma plain_name_not_up (segment : cstring) :
  is_plain_name segment = true -> is_up segment = false.
Proof.
  destruct segment as [|c1 [|c2 [|c3 rest]]]; cbn; try reflexivity.
  intros H. apply negb_true_iff in H. exact H.
Qed.

Lemma walk_names (names : list cstring) :
  forall (rest stack : list cstring) (pushed : bool),
    names <> [] ->
    Forall (fun name => is_plain_name name = true) names ->
    walk (names ++ rest) stack pushed
    = walk rest (reverse names ++ stack) true.
Proof.
  induction names as [|name names IH]; intros rest stack pushed Hnames Hplain;
    [congruence|].
  apply Forall_cons in Hplain as [Hname Hplain].
  cbn [app walk]. rewrite (plain_name_not_up _ Hname), Hname.
  destruct names as [|name' names].
  - reflexivity.
  - rewrite IH by (discriminate || assumption).
    rewrite (reverse_cons _ name), <- app_assoc. reflexivity.
Qed.

Lemma walk_ups (n : nat) :
  forall (rest stack : list cstring) (pushed : bool),
    (n <= length stack)%nat ->
    walk (replicate n (str "..") ++ rest) stack pushed
    = walk rest (drop n stack) pushed.
Proof.
  induction n as [|n IH]; intros rest stack pushed Hn.
  - reflexivity.
  - destruct stack as [|top below]; [cbn in Hn; lia|].
    cbn [replicate app]. cbn -[replicate]. apply IH. cbn in Hn. lia.
Qed.

Lemma walk_without_ups (segments : list cstring) :
  forall (stack : list cstring) (pushed : bool),
    Forall (fun segment => is_up segment = false) segments ->
    walk segments stack pushed
    = Some (reverse stack ++ filter (fun s => is_plain_name s = true) segments).
Proof.
  induction segments as [|segment rest IH]; intros stack pushed Hups.
  - cbn. rewrite app_nil_r. reflexivity.
  - apply Forall_cons in Hups as [Hup Hups]. cbn [walk]. rewrite Hup.
    rewrite filter_cons.
    destruct (is_plain_name segment) eqn:Hplain.
    + rewrite IH by assumption. rewrite reverse_cons, <- app_assoc.
      destruct (decide (true = true)); [reflexivity|congruence].
    + rewrite IH by assumption.
      destruct (decide (false = true)); [discriminate|reflexivity].
Qed.

Lemma walk_Forall (P : cstring -> Prop) (segments : list cstring) :
  forall (stack : list cstring) (pushed : bool) (names : list cstring),
    Forall P segments -> Forall P stack ->
    walk segments stack pushed = Some names -> Forall P names.
Proof.
  induction segments as [|segment rest IH];
    intros stack pushed names Hsegments Hstack.
  - cbn. intros [= <-]. apply Forall_reverse. exact Hstack.
  - apply Forall_cons in Hsegments as [Hsegment Hrest]. cbn [walk].
    destruct (is_up segment).
    + destruct stack as [|top below].
      * destruct pushed; [discriminate|]. apply IH; assumption.
      * apply Forall_cons in Hstack as [_ Hbelow]. apply IH; assumption.
    + destruct (is_plain_name segment).
      * apply IH; [assumption|]. constructor; assumption.
      * apply IH; assumption.
Qed.

Lemma walk_plain (segments : list cstring) :
  forall (stack : list cstring) (pushed : bool) (names : list cstring),
    Forall (fun name => is_plain_name name = true) stack ->
    walk segments stack pushed = Some names ->
    Forall (fun name => is_plain_name name = true) names.
Proof.
  induction segments as [|segment rest IH]; intros stack pushed names Hstack.
  - cbn. intros [= <-]. apply Forall_reverse. exact Hstack.
  - cbn [walk]. destruct (is_up segment).
    + destruct stack as [|top below].
      * destruct pushed; [discriminate|]. apply IH; assumption.
      * apply Forall_cons in Hstack as [_ Hbelow]. apply IH; assumption.
    + destruct (is_plain_name segment) eqn:Hplain.
      * apply IH. constructor; assumption.
      * apply IH; assumption.
Qed.

Lemma length_rooted (names : list cstring) :
  names <> [] -> length_of (rooted names) = segments_size names.
Proof.
  intros Hnames.
  rewrite <- (length_written "/"), written_joined by exact Hnames.
  destruct names; [congruence|].
  unfold rooted, length_of. rewrite length_app. cbn [length]. lia.
Qed.

(** ** The POSIX resolver on absolute paths *)

(** An absolute POSIX path, split at its separators, is resolved as a
    walk with a stack of names: a name is pushed, a [..] pops the last
    name, empty segments and [.] are skipped.  A [..] met before any name
    was pushed is skipped as well, but a [..] met on a stack that was
    emptied by earlier [..] makes the call fail.  The result is a
    separator followed by the names left on the stack, joined by
    separators and followed by the end-of-string character; when no name
    is left it is the empty string. *)
Theorem posix_full_path_follows_walk (segments : list cstring) (w : world) :
  segments <> [] ->
  Forall (fun segment => free_of "/" segment = true) segments ->
  length_of ("/"%char :: joined "/" segments) <= SSIZE_MAX - 1 ->
  Posix.libcpath_path_get_full_path (Some ("/"%char :: joined "/" segments))
    (length_of ("/"%char :: joined "/" segments)) (Some None) (Some 0) w
  = (match walk segments [] false with
     | Some names =>
         Ok (mk_buffer (rooted names ++ [NUL]) [],
             length_of (rooted names) + 1)
     | None =>
         fail LIBCERROR_ERROR_DOMAIN_RUNTIME
           LIBCERROR_RUNTIME_ERROR_VALUE_MISSING
           "missing last used path string string segment."
     end, w).
Proof.
  apply posix_get_full_path_walk.
Qed.

Lemma posix_full_path_follows_walk_witness :
  Posix.libcpath_path_get_full_path (Some (str "/a/../b/.//c")) 12
    (Some None) (Some 0) (world_at "/home/user")
  = (Ok (mk_buffer (str "/b/c" ++ [NUL]) [], 5), world_at "/home/user").
Proof.
  apply (posix_full_path_follows_walk
           [str "a"; str ".."; str "b"; str "."; []; str "c"]
           (world_at "/home/user")).
  - discriminate.
  - repeat constructor.
  - vm_compute. discriminate.
Defined.

(** On an absolute POSIX path a successful call keeps the write pass
    inside the allocation: nothing is stored outside the buffer, the size
    returned is the size of the buffer, the last character of the buffer
    is the end-of-string character, and the result is not longer than the
    path.  When no segment holds an end-of-string character the string in
    the buffer fills it. *)
Theorem posix_absolute_size_invariant (segments : list cstring) (w : world)
    (full_path : buffer) (full_path_size : Z) :
  segments <> [] ->
  Forall (fun segment => free_of "/" segment = true) segments ->
  length_of ("/"%char :: joined "/" segments) <= SSIZE_MAX - 1 ->
  fst (Posix.libcpath_path_get_full_path
         (Some ("/"%char :: joined "/" segments))
         (length_of ("/"%char :: joined "/" segments)) (Some None) (Some 0) w)
  = Ok (full_path, full_path_size) ->
  buffer_overrun full_path = []
  /\ buffer_size full_path = full_path_size
  /\ char_at (buffer_data full_path) (full_path_size - 1) = NUL
  /\ 1 <= full_path_size <= length_of ("/"%char :: joined "/" segments) + 1
  /\ (Forall (fun segment => free_of NUL segment = true) segments ->
      length_of (c_string (buffer_data full_path)) + 1 = full_path_size).
Proof.
  intros Hsegments Hfree Hmax.
  rewrite posix_get_full_path_walk by assumption. cbn [fst].
  pose proof (walk_size segments [] false) as Hsize.
  pose proof (walk_Forall (fun segment => free_of NUL segment = true)
                segments [] false) as Hnul.
  destruct (walk segments [] false) as [names|]; [|discriminate].
  intros [= <- <-]. specialize (Hsize names eq_refl).
  change (segments_size []) with 0 in Hsize.
  assert (segments_size segments = length_of (joined "/" segments) + 1)
    as Hsegments_size.
  { rewrite <- (length_written "/"), written_joined by exact Hsegments.
    unfold length_of. rewrite length_app. cbn [length]. lia. }
  assert (length_of (rooted names) <= length_of ("/"%char :: joined "/" segments))
    as Hshorter.
  { destruct names as [|name names].
    - unfold length_of. cbn [rooted length]. lia.
    - rewrite length_rooted by discriminate.
      unfold length_of in *. cbn [length]. lia. }
  assert (0 <= length_of (rooted names)) by (unfold length_of; lia).
  cbn [buffer_overrun buffer_data]. unfold buffer_size. cbn [buffer_data].
  split; [reflexivity|].
  split; [unfold length_of; rewrite length_app; cbn [length]; lia|].
  split.
  { replace (length_of (rooted names) + 1 - 1) with (length_of (rooted names))
      by lia.
    unfold char_at, length_of. rewrite Nat2Z.id.
    rewrite app_nth2 by lia. rewrite Nat.sub_diag. reflexivity. }
  split; [lia|].
  intros Hclean. rewrite c_string_terminated; [reflexivity|].
  specialize (Hnul names Hclean (Forall_nil_2 _) eq_refl).
  destruct names as [|name names]; [reflexivity|].
  cbn [rooted free_of forallb]. cbn [negb char_eqb Ascii.eqb]. 
  change (free_of NUL (joined "/" (name :: names)) = true).
  apply free_of_joined; [reflexivity|exact Hnul].
Qed.

Lemma posix_absolute_size_invariant_witness :
  buffer_overrun (mk_buffer (str "/b" ++ [NUL]) []) = []
  /\ buffer_size (mk_buffer (str "/b" ++ [NUL]) []) = 3.
Proof.
  destruct (posix_absolute_size_invariant
              [str "a"; str ".."; str "b"] (world_at "/home/user")
              (mk_buffer (str "/b" ++ [NUL]) []) 3) as (Hoverrun & Hsize & _).
  - discriminate.
  - repeat constructor.
  - vm_compute. discriminate.
  - vm_compute. reflexivity.
  - split; [exact Hoverrun|exact Hsize].
Defined.

(** An absolute POSIX path without [..] segments resolves to its names:
    runs of separators, a trailing separator and [.] segments leave no
    trace.  When the path holds no name at all, as the root [/] itself,
    the result is the empty string. *)
Theorem posix_separator_runs_and_dots_collapse (segments : list cstring)
    (w : world) :
  segments <> [] ->
  Forall (fun segment => free_of "/" segment = true) segments ->
  Forall (fun segment => is_up segment = false) segments ->
  length_of ("/"%char :: joined "/" segments) <= SSIZE_MAX - 1 ->
  Posix.libcpath_path_get_full_path (Some ("/"%char :: joined "/" segments))
    (length_of ("/"%char :: joined "/" segments)) (Some None) (Some 0) w
  = (Ok (mk_buffer
           (rooted (filter (fun s => is_plain_name s = true) segments)
            ++ [NUL]) [],
         length_of (rooted (filter (fun s => is_plain_name s = true) segments))
         + 1), w).
Proof.
  intros Hsegments Hfree Hups Hmax.
  rewrite posix_get_full_path_walk by assumption.
  rewrite walk_without_ups by assumption. reflexivity.
Qed.

Lemma posix_separator_runs_and_dots_collapse_witness :
  Posix.libcpath_path_get_full_path (Some (str "//usr/.//lib/")) 13
    (Some None) (Some 0) (world_at "/home/user")
  = (Ok (mk_buffer (str "/usr/lib" ++ [NUL]) [], 9), world_at "/home/user")
  /\ Posix.libcpath_path_get_full_path (Some (str "/")) 1
       (Some None) (Some 0) (world_at "/home/user")
     = (Ok (mk_buffer [NUL] [], 1), world_at "/home/user").
Proof.
  split.
  - apply (posix_separator_runs_and_dots_collapse
             [[]; str "usr"; str "."; []; str "lib"; []]
             (world_at "/home/user")).
    + discriminate.
    + repeat constructor.
    + repeat constructor.
    + vm_compute. discriminate.
  - apply (posix_separator_runs_and_dots_collapse [[]]
             (world_at "/home/user")).
    + discriminate.
    + repeat constructor.
    + repeat constructor.
    + vm_compute. discriminate.
Defined.

(** Names followed by as many [..] segments as there are names: the
    POSIX resolver returns the empty string, of size 1, and not the
    root. *)
Theorem posix_undone_names_give_empty_path (names : list cstring)
    (w : world) :
  names <> [] ->
  Forall (fun name => is_plain_name name = true) names ->
  Forall (fun name => free_of "/" name = true) names ->
  length_of
    ("/"%char :: joined "/" (names ++ replicate (length names) (str "..")))
  <= SSIZE_MAX - 1 ->
  Posix.libcpath_path_get_full_path
    (Some ("/"%char
           :: joined "/" (names ++ replicate (length names) (str ".."))))
    (length_of
       ("/"%char :: joined "/" (names ++ replicate (length names) (str ".."))))
    (Some None) (Some 0) w
  = (Ok (mk_buffer [NUL] [], 1), w).
Proof.
  intros Hnames Hplain Hfree Hmax.
  rewrite posix_get_full_path_walk;
    [|destruct names; [congruence|discriminate]
     |apply Forall_app; split;
        [exact Hfree|apply Forall_replicate; reflexivity]
     |exact Hmax].
  rewrite walk_names by assumption.
  rewrite <- (app_nil_r (replicate (length names) (str ".."))).
  rewrite walk_ups by (rewrite length_app, length_reverse; lia).
  rewrite app_nil_r, drop_ge by (rewrite length_reverse; lia).
  reflexivity.
Qed.

Lemma posix_undone_names_give_empty_path_witness :
  Posix.libcpath_path_get_full_path (Some (str "/usr/lib/../..")) 14
    (Some None) (Some 0) (world_at "/home/user")
  = (Ok (mk_buffer [NUL] [], 1), world_at "/home/user").
Proof.
  apply (posix_undone_names_give_empty_path [str "usr"; str "lib"]
           (world_at "/home/user")).
  - discriminate.
  - repeat constructor.
  - repeat constructor.
  - vm_compute. discriminate.
Defined.

(** One [..] more than there are names before it: the POSIX resolver
    fails, whatever follows, although the same [..] is absorbed when no
    name precedes it. *)
Theorem posix_dot_dot_after_undone_names_fails (names rest : list cstring)
    (w : world) :
  names <> [] ->
  Forall (fun name => is_plain_name name = true) names ->
  Forall (fun name => free_of "/" name = true) names ->
  Forall (fun segment => free_of "/" segment = true) rest ->
  length_of
    ("/"%char
     :: joined "/" (names ++ replicate (S (length names)) (str "..") ++ rest))
  <= SSIZE_MAX - 1 ->
  Posix.libcpath_path_get_full_path
    (Some ("/"%char
           :: joined "/"
                (names ++ replicate (S (length names)) (str "..") ++ rest)))
    (length_of
       ("/"%char
        :: joined "/"
             (names ++ replicate (S (length names)) (str "..") ++ rest)))
    (Some None) (Some 0) w
  = (fail LIBCERROR_ERROR_DOMAIN_RUNTIME
       LIBCERROR_RUNTIME_ERROR_VALUE_MISSING
       "missing last used path string string segment.", w).
Proof.
  intros Hnames Hplain Hfree Hrest Hmax.
  rewrite posix_get_full_path_walk;
    [|destruct names; [congruence|discriminate]
     |apply Forall_app; split; [exact Hfree|];
      apply Forall_app; split; [apply Forall_replicate; reflexivity|exact Hrest]
     |exact Hmax].
  rewrite walk_names by assumption.
  replace (S (length names)) with (length names + 1)%nat by lia.
  rewrite replicate_add, <- app_assoc.
  rewrite walk_ups by (rewrite length_app, length_reverse; lia).
  rewrite app_nil_r, drop_ge by (rewrite length_reverse; lia).
  reflexivity.
Qed.

Lemma posix_dot_dot_after_undone_names_fails_witness :
  Posix.libcpath_path_get_full_path (Some (str "/usr/../../etc")) 14
    (Some None) (Some 0) (world_at "/home/user")
  = (fail LIBCERROR_ERROR_DOMAIN_RUNTIME
       LIBCERROR_RUNTIME_ERROR_VALUE_MISSING
       "missing last used path string string segment.",
     world_at "/home/user").
Proof.
  apply (posix_dot_dot_after_undone_names_fails [str "usr"] [str "etc"]
           (world_at "/home/user")).
  - discriminate.
  - repeat constructor.
  - repeat constructor.
  - repeat constructor.
  - vm_compute. discriminate.
Defined.

(** Resolving is idempotent on absolute POSIX paths: when a path
    resolves to at least one name, resolving the string of the result
    returns the same buffer and size.  When it resolves to no name, the
    result is the empty string, which the function refuses as a path. *)
Theorem posix_full_path_fixed_point (segments : list cstring) (w : world)
    (full_path : buffer) (full_path_size : Z) :
  segments <> [] ->
  Forall (fun segment => free_of "/" segment = true) segments ->
  Forall (fun segment => free_of NUL segment = true) segments ->
  length_of ("/"%char :: joined "/" segments) <= SSIZE_MAX - 1 ->
  fst (Posix.libcpath_path_get_full_path
         (Some ("/"%char :: joined "/" segments))
         (length_of ("/"%char :: joined "/" segments)) (Some None) (Some 0) w)
  = Ok (full_path, full_path_size) ->
  forall w2 : world,
    Posix.libcpath_path_get_full_path
      (Some (c_string (buffer_data full_path)))
      (length_of (c_string (buffer_data full_path))) (Some None) (Some 0) w2
    = (if full_path_size =? 1
       then fail LIBCERROR_ERROR_DOMAIN_ARGUMENTS
              LIBCERROR_ARGUMENT_ERROR_VALUE_ZERO_OR_LESS
              "invalid path length is zero."
       else Ok (full_path, full_path_size), w2).
Proof.
  intros Hsegments Hfree Hclean Hmax.
  rewrite posix_get_full_path_walk by assumption. cbn [fst].
  pose proof (walk_size segments [] false) as Hsize.
  pose proof (walk_Forall (fun segment => free_of NUL segment = true)
                segments [] false) as Hnul.
  pose proof (walk_Forall (fun segment => free_of "/" segment = true)
                segments [] false) as Hseparator.
  pose proof (walk_plain segments [] false) as Hplain.
  destruct (walk segments [] false) as [names|]; [|discriminate].
  intros [= <- <-] w2. specialize (Hsize names eq_refl).
  specialize (Hnul names Hclean (Forall_nil_2 _) eq_refl).
  specialize (Hseparator names Hfree (Forall_nil_2 _) eq_refl).
  specialize (Hplain names (Forall_nil_2 _) eq_refl).
  change (segments_size []) with 0 in Hsize.
  destruct names as [|name names]; [reflexivity|].
  assert (segments_size segments = length_of (joined "/" segments) + 1)
    as Hsegments_size.
  { rewrite <- (length_written "/"), written_joined by exact Hsegments.
    unfold length_of. rewrite length_app. cbn [length]. lia. }
  pose proof (length_rooted (name :: names) ltac:(discriminate)) as Hrooted.
  pose proof (segments_size_nonneg names).
  assert (0 <= length_of name) by (unfold length_of; lia).
  rewrite segments_size_cons in Hsize, Hrooted.
  destruct (Z.eqb_spec (length_of (rooted (name :: names)) + 1) 1); [lia|].
  cbn [buffer_data]. rewrite c_string_terminated.
  - cbn [rooted].
    apply (posix_get_full_path_absolute 0 (name :: names) w2).
    + repeat split; (discriminate || assumption).
    + cbn [replicate app]. cbn [rooted] in Hrooted.
      unfold length_of in *. cbn [length] in *. lia.
  - cbn [rooted free_of forallb]. cbn [negb char_eqb Ascii.eqb].
    change (free_of NUL (joined "/" (name :: names)) = true).
    apply free_of_joined; [reflexivity|exact Hnul].
Qed.

Lemma posix_full_path_fixed_point_witness :
  Posix.libcpath_path_get_full_path (Some (str "/b/c")) 4
    (Some None) (Some 0) (world_at "/")
  = (Ok (mk_buffer (str "/b/c" ++ [NUL]) [], 5), world_at "/").
Proof.
  apply (posix_full_path_fixed_point
           [str "a"; str ".."; str "b"; str "."; []; str "c"]
           (world_at "/home/user") (mk_buffer (str "/b/c" ++ [NUL]) []) 5).
  - discriminate.
  - repeat constructor.
  - repeat constructor.
  - vm_compute. discriminate.
  - vm_compute. reflexivity.
Defined.

(** ** The sanitizer loops *)

Lemma for_loop_ext {St : Type} (n : nat) (i : Z)
    (body body' : Z -> St -> result St) (s : St) :
  (forall j t, body j t = body' j t) ->
  for_loop n i body s = for_loop n i body' s.
Proof.
  intros Hbody. revert i s. induction n as [|n IH]; intros i s.
  - reflexivity.
  - cbn [for_loop]. rewrite Hbody. destruct (body' i s); [apply IH|reflexivity].
Qed.

Lemma path_character_size_cases (windows : bool) (escape character : ascii) :
  libcpath_path_get_sanitized_character_size windows escape character (Some 0)
  = Ok (path_character_size windows escape character)
  /\ (path_character_size windows escape character = 1
      \/ path_character_size windows escape character = 2
      \/ path_character_size windows escape character = 4).
Proof.
  unfold path_character_size.
  destruct (sanitized_character_size_cases windows escape character 0)
    as (size & -> & Hsize).
  split; [reflexivity|exact Hsize].
Qed.

Lemma filename_character_size_cases (windows : bool)
    (escape separator character : ascii) :
  sanitized_filename_character_size windows escape separator character
  = Ok (filename_character_size windows escape separator character)
  /\ (filename_character_size windows escape separator character = 1
      \/ filename_character_size windows escape separator character = 2
      \/ filename_character_size windows escape separator character = 4).
Proof.
  unfold sanitized_filename_character_size, filename_character_size.
  destruct (char_eqb character separator); [split; [reflexivity|auto]|].
  destruct (path_character_size_cases windows escape character) as [-> Hsize].
  split; [reflexivity|exact Hsize].
Qed.

Lemma length_escaped (escape character : ascii) (size : Z) :
  size = 1 \/ size = 2 \/ size = 4 ->
  length_of (escaped escape character size) = size.
Proof. intros [-> | [-> | ->]]; reflexivity. Qed.

Lemma store_after (pre middle post : cstring) (x c : ascii)
    (overrun : list (Z * ascii)) (i : Z) :
  i = length_of pre + length_of middle ->
  store (mk_buffer (pre ++ middle ++ x :: post) overrun) i c
  = mk_buffer (pre ++ middle ++ c :: post) overrun.
Proof.
  intros ->. rewrite !app_assoc.
  replace (length_of pre + length_of middle) with (length_of (pre ++ middle))
    by (unfold length_of; rewrite length_app; lia).
  apply store_middle.
Qed.

Lemma sanitized_character_fits (escape character : ascii) (size : Z)
    (pre remaining : cstring) (overrun : list (Z * ascii)) :
  size = 1 \/ size = 2 \/ size = 4 ->
  length_of pre + length_of remaining <= SSIZE_MAX ->
  size <= length_of remaining ->
  libcpath_path_get_sanitized_character escape character size
    (Some (mk_buffer (pre ++ remaining) overrun))
    (length_of pre + length_of remaining) (Some (length_of pre))
  = Ok (mk_buffer
          (pre ++ escaped escape character size
           ++ drop (Z.to_nat size) remaining) overrun,
        length_of pre + size).
Proof.
  intros Hsize Hmax Hfits.
  assert (0 <= length_of pre) by (unfold length_of; lia).
  unfold libcpath_path_get_sanitized_character.
  replace (negb (size =? 1) && negb (size =? 2) && negb (size =? 4))
    with false by (destruct Hsize as [-> | [-> | ->]]; reflexivity).
  rewrite (Z.gtb_ltb _ SSIZE_MAX).
  destruct (Z.ltb_spec SSIZE_MAX (length_of pre + length_of remaining)); [lia|].
  rewrite (Z.gtb_ltb (length_of pre)).
  destruct (Z.ltb_spec (length_of pre + length_of remaining) (length_of pre));
    [lia|].
  rewrite (Z.gtb_ltb size).
  destruct (Z.ltb_spec (length_of pre + length_of remaining) size); [lia|].
  rewrite size_sub_exact by size_lia.
  rewrite Z.gtb_ltb.
  destruct (Z.ltb_spec (length_of pre + length_of remaining - size)
              (length_of pre)); [lia|].
  cbn [orb].
  destruct Hsize as [-> | [-> | ->]]; cbn [Z.eqb Pos.eqb]; cbv zeta.
  - destruct remaining as [|r0 remaining];
      [unfold length_of in Hfits; cbn in Hfits; lia|].
    rewrite store_middle. rewrite size_add_exact by size_lia. reflexivity.
  - destruct remaining as [|r0 [|r1 remaining]];
      try (unfold length_of in Hfits; cbn in Hfits; lia).
    rewrite !size_add_exact by size_lia.
    rewrite store_middle.
    pose proof (store_after pre [escape] remaining r1 escape overrun
                  (length_of pre + 1) eq_refl) as Hstore.
    cbn [app] in Hstore. rewrite Hstore. reflexivity.
  - destruct remaining as [|r0 [|r1 [|r2 [|r3 remaining]]]];
      try (unfold length_of in Hfits; cbn in Hfits; lia).
    rewrite !size_add_exact by size_lia.
    rewrite store_middle.
    pose proof (store_after pre [escape] (r2 :: r3 :: remaining) r1 "x"
                  overrun (length_of pre + 1) eq_refl) as Hstore.
    cbn [app] in Hstore. rewrite Hstore. clear Hstore.
    match goal with
    | |- context [store (store _ _ (render_nibble ?u)) _ (render_nibble ?l)] =>
        pose proof (store_after pre [escape; "x"%char] (r3 :: remaining) r2
                      (render_nibble u) overrun (length_of pre + 2) eq_refl)
          as Hupper;
        pose proof (store_after pre [escape; "x"%char; render_nibble u]
                      remaining r3 (render_nibble l) overrun
                      (length_of pre + 3) eq_refl) as Hlower
    end.
    cbn [app] in Hupper, Hlower. rewrite Hupper, Hlower. reflexivity.
Qed.

Lemma sanitized_character_too_small (escape character : ascii) (size : Z)
    (pre remaining : cstring) (overrun : list (Z * ascii)) :
  size = 1 \/ size = 2 \/ size = 4 ->
  length_of pre + length_of remaining <= SSIZE_MAX ->
  length_of remaining < size ->
  libcpath_path_get_sanitized_character escape character size
    (Some (mk_buffer (pre ++ remaining) overrun))
    (length_of pre + length_of remaining) (Some (length_of pre))
  = fail LIBCERROR_ERROR_DOMAIN_ARGUMENTS
      LIBCERROR_ARGUMENT_ERROR_VALUE_TOO_SMALL
      "invalid sanitized path size value too small.".
Proof.
  intros Hsize Hmax Hfits.
  assert (0 <= length_of pre /\ 0 <= length_of remaining) as [? ?]
    by (unfold length_of; lia).
  unfold libcpath_path_get_sanitized_character.
  replace (negb (size =? 1) && negb (size =? 2) && negb (size =? 4))
    with false by (destruct Hsize as [-> | [-> | ->]]; reflexivity).
  rewrite (Z.gtb_ltb _ SSIZE_MAX).
  destruct (Z.ltb_spec SSIZE_MAX (length_of pre + length_of remaining)); [lia|].
  rewrite (Z.gtb_ltb (length_of pre)).
  destruct (Z.ltb_spec (length_of pre + length_of remaining) (length_of pre));
    [lia|].
  rewrite (Z.gtb_ltb size).
  destruct (Z.ltb_spec (length_of pre + length_of remaining) size);
    [reflexivity|].
  rewrite size_sub_exact by size_lia.
  rewrite Z.gtb_ltb.
  destruct (Z.ltb_spec (length_of pre + length_of remaining - size)
              (length_of pre)); [reflexivity|lia].
Qed.

Lemma length_sanitized_cons (size_of : ascii -> Z) (escape c : ascii)
    (rest : cstring) :
  size_of c = 1 \/ size_of c = 2 \/ size_of c = 4 ->
  sanitized size_of escape (c :: rest)
  = escaped escape c (size_of c) ++ sanitized size_of escape rest
  /\ length_of (sanitized size_of escape (c :: rest))
     = size_of c + length_of (sanitized size_of escape rest).
Proof.
  intros Hsize. split; [reflexivity|].
  unfold sanitized. cbn [map concat]. unfold length_of. rewrite length_app.
  pose proof (length_escaped escape c (size_of c) Hsize) as Hlength.
  unfold length_of in Hlength. lia.
Qed.

Lemma write_loop_fits (size_of : ascii -> Z) (escape : ascii)
    (body : Z -> buffer * Z -> result (buffer * Z)) (total : Z)
    (path : cstring) :
  (forall i out,
     body i out
     = bind_or
         (libcpath_path_get_sanitized_character escape (char_at path i)
            (size_of (char_at path i)) (Some (fst out)) total (Some (snd out)))
         LIBCERROR_ERROR_DOMAIN_RUNTIME LIBCERROR_RUNTIME_ERROR_GET_FAILED
         "unable to determine sanitize character size." Ok) ->
  (forall c, size_of c = 1 \/ size_of c = 2 \/ size_of c = 4) ->
  total <= SSIZE_MAX ->
  forall (rest done pre remaining : cstring) (overrun : list (Z * ascii)),
    path = done ++ rest ->
    total = length_of pre + length_of remaining ->
    length_of (sanitized size_of escape rest) <= length_of remaining ->
    for_loop (length rest) (length_of done) body
      (mk_buffer (pre ++ remaining) overrun, length_of pre)
    = Ok (mk_buffer
            (pre ++ sanitized size_of escape rest
             ++ drop (length (sanitized size_of escape rest)) remaining)
            overrun,
          length_of pre + length_of (sanitized size_of escape rest)).
Proof.
  intros Hbody Hsizes Hmax.
  induction rest as [|c rest IH];
    intros done pre remaining overrun Hpath Htotal Hfits.
  - cbn [length for_loop sanitized map concat app drop].
    change (length_of []) with 0. rewrite Z.add_0_r. reflexivity.
  - destruct (length_sanitized_cons size_of escape c rest (Hsizes c))
      as [Hcons Hlength].
    pose proof (length_escaped escape c (size_of c) (Hsizes c)) as Hescaped.
    assert (0 <= length_of (sanitized size_of escape rest))
      by (unfold length_of; lia).
    assert (0 <= size_of c) by (destruct (Hsizes c) as [-> | [-> | ->]]; lia).
    cbn [length for_loop]. rewrite Hbody. cbn [fst snd].
    assert (char_at path (length_of done) = c) as ->.
    { rewrite Hpath. rewrite <- (Z.add_0_r (length_of done)).
      rewrite char_at_app_r by lia. reflexivity. }
    rewrite Htotal.
    rewrite sanitized_character_fits by (auto || lia).
    cbn [bind_or].
    replace (length_of pre + size_of c)
      with (length_of (pre ++ escaped escape c (size_of c)))
      by (unfold length_of in *; rewrite length_app; lia).
    rewrite (app_assoc pre).
    replace (length_of done + 1) with (length_of (done ++ [c]))
      by (unfold length_of; rewrite length_app; cbn [length]; lia).
    rewrite (IH (done ++ [c]) (pre ++ escaped escape c (size_of c))).
    + rewrite Hcons, drop_drop, <- !app_assoc.
      replace (Z.to_nat (size_of c)
               + length (sanitized size_of escape rest))%nat
        with (length (escaped escape c (size_of c)
                      ++ sanitized size_of escape rest))
        by (rewrite length_app; unfold length_of in Hescaped; lia).
      f_equal. f_equal. unfold length_of in *. rewrite !length_app. lia.
    + rewrite Hpath, <- app_assoc. reflexivity.
    + unfold length_of in *. rewrite length_app, length_drop. lia.
    + unfold length_of in *. rewrite length_drop. lia.
Qed.

Lemma write_loop_too_small (size_of : ascii -> Z) (escape : ascii)
    (body : Z -> buffer * Z -> result (buffer * Z)) (total : Z)
    (path : cstring) :
  (forall i out,
     body i out
     = bind_or
         (libcpath_path_get_sanitized_character escape (char_at path i)
            (size_of (char_at path i)) (Some (fst out)) total (Some (snd out)))
         LIBCERROR_ERROR_DOMAIN_RUNTIME LIBCERROR_RUNTIME_ERROR_GET_FAILED
         "unable to determine sanitize character size." Ok) ->
  (forall c, size_of c = 1 \/ size_of c = 2 \/ size_of c = 4) ->
  total <= SSIZE_MAX ->
  forall (rest done pre remaining : cstring) (overrun : list (Z * ascii)),
    path = done ++ rest ->
    total = length_of pre + length_of remaining ->
    length_of remaining < length_of (sanitized size_of escape rest) ->
    for_loop (length rest) (length_of done) body
      (mk_buffer (pre ++ remaining) overrun, length_of pre)
    = Err (mk_error LIBCERROR_ERROR_DOMAIN_ARGUMENTS
             LIBCERROR_ARGUMENT_ERROR_VALUE_TOO_SMALL
             ["invalid sanitized path size value too small.";
              "unable to determine sanitize character size."]%string).
Proof.
  intros Hbody Hsizes Hmax.
  induction rest as [|c rest IH];
    intros done pre remaining overrun Hpath Htotal Hfits.
  - unfold length_of in Hfits. cbn in Hfits. lia.
  - destruct (length_sanitized_cons size_of escape c rest (Hsizes c))
      as [Hcons Hlength].
    pose proof (length_escaped escape c (size_of c) (Hsizes c)) as Hescaped.
    assert (0 <= size_of c) by (destruct (Hsizes c) as [-> | [-> | ->]]; lia).
    cbn [length for_loop]. rewrite Hbody. cbn [fst snd].
    assert (char_at path (length_of done) = c) as ->.
    { rewrite Hpath. rewrite <- (Z.add_0_r (length_of done)).
      rewrite char_at_app_r by lia. reflexivity. }
    rewrite Htotal.
    destruct (Z.lt_ge_cases (length_of remaining) (size_of c)) as [Hsmall|Hroom].
    + rewrite sanitized_character_too_small by (auto || lia). reflexivity.
    + rewrite sanitized_character_fits by (auto || lia).
      cbn [bind_or].
      replace (length_of pre + size_of c)
        with (length_of (pre ++ escaped escape c (size_of c)))
        by (unfold length_of in *; rewrite length_app; lia).
      rewrite (app_assoc pre).
      replace (length_of done + 1) with (length_of (done ++ [c]))
        by (unfold length_of; rewrite length_app; cbn [length]; lia).
      apply (IH (done ++ [c]) (pre ++ escaped escape c (size_of c))).
      * rewrite Hpath, <- app_assoc. reflexivity.
      * unfold length_of in *. rewrite length_app, length_drop. lia.
      * unfold length_of in *. rewrite length_drop. lia.
Qed.

Lemma size_add_mod (a b : Z) : size_add (a mod 2 ^ 64) b = (a + b) mod 2 ^ 64.
Proof. unfold size_add. apply Zplus_mod_idemp_l. Qed.

Lemma size_loop (size_of : ascii -> Z) (escape : ascii)
    (body : Z -> Z -> result Z) (path : cstring) :
  (forall i size, body i size = Ok (size_add size (size_of (char_at path i)))) ->
  (forall c, size_of c = 1 \/ size_of c = 2 \/ size_of c = 4) ->
  forall (rest done : cstring) (size : Z),
    path = done ++ rest ->
    for_loop (length rest) (length_of done) body (size mod 2 ^ 64)
    = Ok ((size + length_of (sanitized size_of escape rest)) mod 2 ^ 64).
Proof.
  intros Hbody Hsizes.
  induction rest as [|c rest IH]; intros done size Hpath.
  - cbn [length for_loop sanitized map concat].
    change (length_of []) with 0. rewrite Z.add_0_r. reflexivity.
  - destruct (length_sanitized_cons size_of escape c rest (Hsizes c))
      as [_ Hlength].
    cbn [length for_loop]. rewrite Hbody.
    assert (char_at path (length_of done) = c) as ->.
    { rewrite Hpath. rewrite <- (Z.add_0_r (length_of done)).
      rewrite char_at_app_r by lia. reflexivity. }
    rewrite size_add_mod.
    replace (length_of done + 1) with (length_of (done ++ [c]))
      by (unfold length_of; rewrite length_app; cbn [length]; lia).
    rewrite (IH (done ++ [c])) by (rewrite Hpath, <- app_assoc; reflexivity).
    rewrite Hlength. f_equal. f_equal. lia.
Qed.

Lemma path_size_loop (windows : bool) (escape separator : ascii)
    (path : cstring) :
  forall (rest done : cstring) (size last : Z),
    path = done ++ rest ->
    exists last',
      for_loop (length rest) (length_of done)
        (fun path_index counted =>
           do sanitized_character_size <-
             libcpath_path_get_sanitized_character_size windows escape
               (char_at path path_index) (Some 0)
             else (LIBCERROR_ERROR_DOMAIN_RUNTIME,
                   LIBCERROR_RUNTIME_ERROR_GET_FAILED,
                   "unable to determine sanitize character size.");
           Ok (size_add (fst counted) sanitized_character_size,
               if windows && char_eqb (char_at path path_index) separator
               then path_index
               else snd counted))
        (size mod 2 ^ 64, last)
      = Ok ((size
             + length_of (sanitized (path_character_size windows escape)
                            escape rest)) mod 2 ^ 64, last')
      /\ (last' = last \/ length_of done <= last' < length_of path).
Proof.
  induction rest as [|c rest IH]; intros done size last Hpath.
  - exists last. cbn [length for_loop sanitized map concat].
    change (length_of []) with 0. rewrite Z.add_0_r. auto.
  - destruct (path_character_size_cases windows escape c) as [Hsize Hcases].
    destruct (length_sanitized_cons (path_character_size windows escape)
                escape c rest Hcases) as [_ Hlength].
    cbn [length for_loop].
    assert (char_at path (length_of done) = c) as ->.
    { rewrite Hpath. rewrite <- (Z.add_0_r (length_of done)).
      rewrite char_at_app_r by lia. reflexivity. }
    rewrite Hsize. cbn [bind_or fst snd].
    rewrite size_add_mod.
    replace (length_of done + 1) with (length_of (done ++ [c]))
      by (unfold length_of; rewrite length_app; cbn [length]; lia).
    destruct (IH (done ++ [c]) (size + path_character_size windows escape c)
                (if windows && char_eqb c separator
                 then length_of done else last))
      as (last' & -> & Hlast); [rewrite Hpath, <- app_assoc; reflexivity|].
    exists last'. split.
    + rewrite Hlength. f_equal. f_equal. f_equal. lia.
    + assert (length_of path = length_of done + 1 + length_of rest) as Hlen
        by (rewrite Hpath; unfold length_of; rewrite length_app;
            cbn [length]; lia).
      assert (0 <= length_of rest) by (unfold length_of; lia).
      assert (length_of (done ++ [c]) = length_of done + 1) as Hdone
        by (unfold length_of; rewrite length_app; cbn [length]; lia).
      rewrite Hdone in Hlast.
      destruct (windows && char_eqb c separator); lia.
Qed.

Lemma length_sanitized_bounds (size_of : ascii -> Z) (escape : ascii)
    (s : cstring) :
  (forall c, size_of c = 1 \/ size_of c = 2 \/ size_of c = 4) ->
  length_of s <= length_of (sanitized size_of escape s) <= 4 * length_of s.
Proof.
  intros Hsizes. induction s as [|c s IH].
  - unfold length_of. cbn. lia.
  - destruct (length_sanitized_cons size_of escape c s (Hsizes c))
      as [_ ->].
    replace (length_of (c :: s)) with (1 + length_of s)
      by (unfold length_of; cbn [length]; lia).
    destruct (Hsizes c) as [-> | [-> | ->]]; lia.
Qed.

Lemma drop_last_one {A : Type} (l : list A) (n : nat) :
  length l = S n -> exists x, drop n l = [x].
Proof.
  revert l. induction n as [|n IH]; intros l Hl.
  - destruct l as [|x [|y l]]; try discriminate. exists x. reflexivity.
  - destruct l as [|x l]; [discriminate|]. cbn [drop]. apply IH.
    cbn in Hl. lia.
Qed.

Lemma write_loop_start (size_of : ascii -> Z) (escape : ascii)
    (body : Z -> buffer * Z -> result (buffer * Z)) (total : Z)
    (path : cstring) (heap : nat -> ascii) :
  (forall i out,
     body i out
     = bind_or
         (libcpath_path_get_sanitized_character escape (char_at path i)
            (size_of (char_at path i)) (Some (fst out)) total (Some (snd out)))
         LIBCERROR_ERROR_DOMAIN_RUNTIME LIBCERROR_RUNTIME_ERROR_GET_FAILED
         "unable to determine sanitize character size." Ok) ->
  (forall c, size_of c = 1 \/ size_of c = 2 \/ size_of c = 4) ->
  0 <= total <= SSIZE_MAX ->
  for_loop (Z.to_nat (length_of path)) 0 body
    (mk_buffer (map heap (seq 0 (Z.to_nat total))) [], 0)
  = if length_of (sanitized size_of escape path) <=? total
    then Ok (mk_buffer
               (sanitized size_of escape path
                ++ drop (length (sanitized size_of escape path))
                     (map heap (seq 0 (Z.to_nat total)))) [],
             length_of (sanitized size_of escape path))
    else Err (mk_error LIBCERROR_ERROR_DOMAIN_ARGUMENTS
                LIBCERROR_ARGUMENT_ERROR_VALUE_TOO_SMALL
                ["invalid sanitized path size value too small.";
                 "unable to determine sanitize character size."]%string).
Proof.
  intros Hbody Hsizes Htotal.
  replace (Z.to_nat (length_of path)) with (length path)
    by (unfold length_of; lia).
  assert (total = length_of []
                  + length_of (map heap (seq 0 (Z.to_nat total)))) as Hlength
    by (unfold length_of; rewrite length_map, length_seq; cbn [length]; lia).
  destruct (Z.leb_spec (length_of (sanitized size_of escape path)) total).
  - pose proof (write_loop_fits size_of escape body total path Hbody Hsizes
                  ltac:(lia) path [] []
                  (map heap (seq 0 (Z.to_nat total))) [] eq_refl Hlength)
      as Hloop.
    change (length_of []) with 0 in Hloop. cbn [app] in Hloop.
    rewrite Z.add_0_l in Hloop. apply Hloop.
    unfold length_of in *. rewrite length_map, length_seq. lia.
  - pose proof (write_loop_too_small size_of escape body total path Hbody
                  Hsizes ltac:(lia) path [] []
                  (map heap (seq 0 (Z.to_nat total))) [] eq_refl Hlength)
      as Hloop.
    change (length_of []) with 0 in Hloop. cbn [app] in Hloop.
    apply Hloop.
    unfold length_of in *. rewrite length_map, length_seq. lia.
Qed.

Lemma store_terminator (text : cstring) (heap : nat -> ascii) (total : Z) :
  total = length_of text + 1 ->
  store (mk_buffer (text ++ drop (length text)
                              (map heap (seq 0 (Z.to_nat total)))) [])
    (length_of text) NUL
  = mk_buffer (text ++ [NUL]) [].
Proof.
  intros Htotal.
  destruct (drop_last_one (map heap (seq 0 (Z.to_nat total))) (length text))
    as [x ->].
  - rewrite length_map, length_seq. unfold length_of in Htotal. lia.
  - apply store_middle.
Qed.

Lemma sanitized_path_fits (windows : bool) (escape separator : ascii)
    (heap : nat -> ascii) (path : cstring) :
  path <> [] ->
  1 + length_of (sanitized (path_character_size windows escape) escape path)
  <= (if windows then 32767 else SSIZE_MAX) ->
  libcpath_path_get_sanitized_path windows escape separator heap (Some path)
    (length_of path) (Some None) (Some 0)
  = Ok (mk_buffer
          (sanitized (path_character_size windows escape) escape path
           ++ [NUL]) [],
        1 + length_of
              (sanitized (path_character_size windows escape) escape path)).
Proof.
  intros Hpath Hfits.
  set (size_of := path_character_size windows escape) in *.
  assert (forall c, size_of c = 1 \/ size_of c = 2 \/ size_of c = 4) as Hsizes
    by (intros c; apply path_character_size_cases).
  pose proof (length_sanitized_bounds size_of escape path Hsizes) as Hbounds.
  assert (1 <= length_of path)
    by (destruct path; [congruence|unfold length_of; cbn [length]; lia]).
  assert (1 + length_of (sanitized size_of escape path) <= SSIZE_MAX) as Hmax
    by (destruct windows; size_lia).
  unfold libcpath_path_get_sanitized_path.
  destruct (Z.eqb_spec (length_of path) 0); [lia|].
  rewrite Z.gtb_ltb.
  destruct (Z.ltb_spec (SSIZE_MAX - 1) (length_of path)); [lia|].
  destruct (path_size_loop windows escape separator path path [] 1 0 eq_refl)
    as (last & Hcount & Hlast).
  change (1 mod 2 ^ 64) with 1 in Hcount.
  change (length_of []) with 0 in Hcount, Hlast.
  replace (Z.to_nat (length_of path)) with (length path)
    by (unfold length_of; lia).
  rewrite Hcount. clear Hcount. fold size_of.
  rewrite Z.mod_small by size_lia.
  cbn [bind fst snd]. cbv zeta.
  rewrite Z.gtb_ltb.
  destruct (Z.ltb_spec SSIZE_MAX (1 + length_of (sanitized size_of escape path)));
    [lia|].
  replace (windows && (last >? 32767)) with false
    by (destruct windows; [|reflexivity]; cbn [andb]; symmetry;
        rewrite Z.gtb_ltb; apply Z.ltb_ge; lia).
  replace (windows
           && (1 + length_of (sanitized size_of escape path) >? 32767))
    with false
    by (destruct windows; [|reflexivity]; cbn [andb]; symmetry;
        rewrite Z.gtb_ltb; apply Z.ltb_ge; lia).
  unfold narrow_string_allocate_uninitialized.
  destruct (Z.leb_spec (1 + length_of (sanitized size_of escape path))
              SSIZE_MAX); [|lia].
  replace (length path) with (Z.to_nat (length_of path))
    by (unfold length_of; lia).
  rewrite (write_loop_start size_of escape);
    [|intros i out; unfold size_of;
      rewrite (proj1 (path_character_size_cases windows escape _));
      reflexivity
     |exact Hsizes|lia].
  destruct (Z.leb_spec (length_of (sanitized size_of escape path))
              (1 + length_of (sanitized size_of escape path))); [|lia].
  cbn [bind fst snd].
  rewrite store_terminator by lia. reflexivity.
Qed.

Lemma sanitized_filename_fits (windows : bool) (escape separator : ascii)
    (heap : nat -> ascii) (filename : cstring) :
  filename <> [] ->
  1 + length_of
        (sanitized (filename_character_size windows escape separator) escape
           filename)
  <= SSIZE_MAX ->
  libcpath_path_get_sanitized_filename windows escape separator heap
    (Some filename) (length_of filename) (Some None) (Some 0)
  = Ok (mk_buffer
          (sanitized (filename_character_size windows escape separator) escape
             filename ++ [NUL]) [],
        1 + length_of
              (sanitized (filename_character_size windows escape separator)
                 escape filename)).
Proof.
  intros Hfilename Hmax.
  set (size_of := filename_character_size windows escape separator) in *.
  assert (forall c, size_of c = 1 \/ size_of c = 2 \/ size_of c = 4) as Hsizes
    by (intros c; apply filename_character_size_cases).
  pose proof (length_sanitized_bounds size_of escape filename Hsizes)
    as Hbounds.
  assert (1 <= length_of filename)
    by (destruct filename; [congruence|unfold length_of; cbn [length]; lia]).
  unfold libcpath_path_get_sanitized_filename.
  destruct (Z.eqb_spec (length_of filename) 0); [lia|].
  rewrite Z.gtb_ltb.
  destruct (Z.ltb_spec (SSIZE_MAX - 1) (length_of filename)); [lia|].
  match goal with
  | |- context [for_loop _ 0 ?body 1] =>
      pose proof (size_loop size_of escape body filename) as Hcount
  end.
  specialize (Hcount
    ltac:(intros i size; unfold size_of;
          rewrite (proj1 (filename_character_size_cases windows escape
                            separator _)); reflexivity)
    Hsizes filename [] 1 eq_refl).
  change (1 mod 2 ^ 64) with 1 in Hcount.
  change (length_of []) with 0 in Hcount.
  replace (Z.to_nat (length_of filename)) with (length filename)
    by (unfold length_of; lia).
  rewrite Hcount. clear Hcount.
  rewrite Z.mod_small by size_lia.
  cbn [bind]. rewrite Z.gtb_ltb.
  destruct (Z.ltb_spec SSIZE_MAX
              (1 + length_of (sanitized size_of escape filename))); [lia|].
  unfold narrow_string_allocate_uninitialized.
  destruct (Z.leb_spec (1 + length_of (sanitized size_of escape filename))
              SSIZE_MAX); [|lia].
  replace (length filename) with (Z.to_nat (length_of filename))
    by (unfold length_of; lia).
  rewrite (write_loop_start size_of escape);
    [|intros i out; unfold size_of;
      rewrite (proj1 (filename_character_size_cases windows escape
                        separator _));
      reflexivity
     |exact Hsizes|lia].
  destruct (Z.leb_spec (length_of (sanitized size_of escape filename))
              (1 + length_of (sanitized size_of escape filename))); [|lia].
  cbn [bind fst snd].
  rewrite store_terminator by lia. reflexivity.
Qed.

Lemma sanitized_path_at_limit (escape separator : ascii)
    (heap : nat -> ascii) (path : cstring) :
  length_of (sanitized (path_character_size true escape) escape path) = 32767 ->
  libcpath_path_get_sanitized_path true escape separator heap (Some path)
    (length_of path) (Some None) (Some 0)
  = Ok (mk_buffer (sanitized (path_character_size true escape) escape path)
          [(32767, NUL)], 32767).
Proof.
  intros Hlimit.
  set (size_of := path_character_size true escape) in *.
  assert (forall c, size_of c = 1 \/ size_of c = 2 \/ size_of c = 4) as Hsizes
    by (intros c; apply path_character_size_cases).
  pose proof (length_sanitized_bounds size_of escape path Hsizes) as Hbounds.
  assert (1 <= length_of path) by lia.
  unfold libcpath_path_get_sanitized_path.
  destruct (Z.eqb_spec (length_of path) 0); [lia|].
  rewrite Z.gtb_ltb.
  destruct (Z.ltb_spec (SSIZE_MAX - 1) (length_of path)); [size_lia|].
  destruct (path_size_loop true escape separator path path [] 1 0 eq_refl)
    as (last & Hcount & Hlast).
  change (1 mod 2 ^ 64) with 1 in Hcount.
  change (length_of []) with 0 in Hcount, Hlast.
  replace (Z.to_nat (length_of path)) with (length path)
    by (unfold length_of; lia).
  rewrite Hcount. clear Hcount. fold size_of. rewrite Hlimit.
  change ((1 + 32767) mod 2 ^ 64) with 32768.
  cbn [bind fst snd]. cbv zeta.
  change (32768 >? SSIZE_MAX) with false.
  replace (last >? 32767) with false
    by (symmetry; rewrite Z.gtb_ltb; apply Z.ltb_ge; lia).
  change (32768 >? 32767) with true. cbn [andb].
  unfold narrow_string_allocate_uninitialized.
  change (32767 <=? SSIZE_MAX) with true. cbv iota.
  replace (length path) with (Z.to_nat (length_of path))
    by (unfold length_of; lia).
  rewrite (write_loop_start size_of escape);
    [|intros i out; unfold size_of;
      rewrite (proj1 (path_character_size_cases true escape _));
      reflexivity
     |exact Hsizes|size_lia].
  rewrite Hlimit. change (32767 <=? 32767) with true. cbv iota.
  cbn [bind fst snd].
  rewrite drop_ge, app_nil_r
    by (rewrite length_map, length_seq; unfold length_of in Hlimit; lia).
  unfold store, buffer_size. cbn [buffer_data buffer_overrun].
  fold (length_of (sanitized size_of escape path)). rewrite Hlimit.
  reflexivity.
Qed.

Lemma sanitized_path_beyond_limit (escape separator : ascii)
    (heap : nat -> ascii) (path : cstring) :
  32767 < length_of (sanitized (path_character_size true escape) escape path) ->
  exists e,
    libcpath_path_get_sanitized_path true escape separator heap (Some path)
      (length_of path) (Some None) (Some 0)
    = Err e.
Proof.
  intros Hlimit.
  set (size_of := path_character_size true escape) in *.
  assert (forall c, size_of c = 1 \/ size_of c = 2 \/ size_of c = 4) as Hsizes
    by (intros c; apply path_character_size_cases).
  unfold libcpath_path_get_sanitized_path.
  destruct (length_of path =? 0); [eexists; reflexivity|].
  destruct (length_of path >? SSIZE_MAX - 1); [eexists; reflexivity|].
  destruct (path_size_loop true escape separator path path [] 1 0 eq_refl)
    as (last & Hcount & Hlast).
  change (1 mod 2 ^ 64) with 1 in Hcount.
  change (length_of []) with 0 in Hcount, Hlast.
  replace (Z.to_nat (length_of path)) with (length path)
    by (unfold length_of; lia).
  rewrite Hcount. clear Hcount. fold size_of.
  cbn [bind fst snd]. cbv zeta.
  set (counted := (1 + length_of (sanitized size_of escape path)) mod 2 ^ 64).
  assert (0 <= counted) by (apply Z.mod_pos_bound; lia).
  destruct (counted >? SSIZE_MAX) eqn:Hcounted; [eexists; reflexivity|].
  rewrite Z.gtb_ltb in Hcounted. apply Z.ltb_ge in Hcounted.
  cbn [andb].
  destruct (last >? 32767); [eexists; reflexivity|].
  set (size := if counted >? 32767 then 32767 else counted).
  assert (0 <= size <= 32767) as Hsize.
  { unfold size. rewrite Z.gtb_ltb.
    destruct (Z.ltb_spec 32767 counted); lia. }
  unfold narrow_string_allocate_uninitialized.
  destruct (Z.leb_spec size SSIZE_MAX); [|size_lia].
  replace (length path) with (Z.to_nat (length_of path))
    by (unfold length_of; lia).
  rewrite (write_loop_start size_of escape);
    [|intros i out; unfold size_of;
      rewrite (proj1 (path_character_size_cases true escape _));
      reflexivity
     |exact Hsizes|size_lia].
  destruct (Z.leb_spec (length_of (sanitized size_of escape path)) size);
    [lia|].
  eexists. reflexivity.
Qed.



Lemma safe_character_size (windows : bool) (escape character : ascii) :
  is_safe_character windows escape character = true ->
  path_character_size windows escape character = 1.
Proof.
  unfold is_safe_character, path_character_size,
    libcpath_path_get_sanitized_character_size.
  intros Hsafe.
  repeat match type of Hsafe with
  | _ && _ = true => apply andb_prop in Hsafe as [Hsafe ?]
  end.
  repeat match goal with
  | H : negb ?b = true |- _ => apply negb_true_iff in H; rewrite H
  end.
  reflexivity.
Qed.

Lemma sanitized_safe (windows : bool) (escape : ascii) (s : cstring) :
  Forall (fun c => is_safe_character windows escape c = true) s ->
  sanitized (path_character_size windows escape) escape s = s.
Proof.
  induction 1 as [|c s Hc _ IH]; [reflexivity|].
  unfold sanitized in *. cbn [map concat]. rewrite IH.
  rewrite (safe_character_size _ _ _ Hc). reflexivity.
Qed.

Lemma rendered_nibbles_decoded (character : ascii) :
  char_of_value
    (nibble_value
       (render_nibble (Z.land (Z.shiftr (char_value character) 4) 15)) * 16
     + nibble_value (render_nibble (Z.land (char_value character) 15)))
  = character.
Proof.
  destruct character as [[] [] [] [] [] [] [] []]; vm_compute; reflexivity.
Qed.

Lemma rendered_nibbles_free (character : ascii) :
  free_of "/"
    [render_nibble (Z.land (Z.shiftr (char_value character) 4) 15);
     render_nibble (Z.land (char_value character) 15)] = true
  /\ free_of "\"
       [render_nibble (Z.land (Z.shiftr (char_value character) 4) 15);
        render_nibble (Z.land (char_value character) 15)] = true.
Proof.
  destruct character as [[] [] [] [] [] [] [] []]; vm_compute; split;
    reflexivity.
Qed.

Lemma unsanitized_sanitized (size_of : ascii -> Z) (escape : ascii)
    (s : cstring) :
  char_eqb escape "x" = false ->
  (forall c, size_of c = 1 \/ size_of c = 2 \/ size_of c = 4) ->
  (forall c, size_of c = 1 -> char_eqb c escape = false) ->
  (forall c, size_of c = 2 -> c = escape) ->
  unsanitized escape (sanitized size_of escape s) = s.
Proof.
  intros Hx Hsizes Hone Htwo. induction s as [|c s IH]; [reflexivity|].
  rewrite (proj1 (length_sanitized_cons size_of escape c s (Hsizes c))).
  assert (char_eqb escape escape = true) as Hescape
    by (unfold char_eqb; apply Ascii.eqb_refl).
  assert (char_eqb "x" escape = false) as Hx'
    by (unfold char_eqb in *; rewrite Ascii.eqb_sym; exact Hx).
  destruct (Hsizes c) as [Hc | [Hc | Hc]]; rewrite Hc.
  - cbn [escaped Z.eqb Pos.eqb app unsanitized].
    rewrite (Hone c Hc), IH. reflexivity.
  - cbn [escaped Z.eqb Pos.eqb app unsanitized].
    rewrite Hescape, IH, (Htwo c Hc). reflexivity.
  - cbn [escaped Z.eqb Pos.eqb app unsanitized].
    rewrite Hescape, Hx', IH, rendered_nibbles_decoded. reflexivity.
Qed.

Lemma path_character_size_escape (windows : bool) (escape c : ascii) :
  (path_character_size windows escape c = 1 -> char_eqb c escape = false)
  /\ (path_character_size windows escape c = 2 -> c = escape).
Proof.
  unfold path_character_size, libcpath_path_get_sanitized_character_size.
  destruct ((0 <=? char_value c) && (char_value c <=? 31));
    [split; discriminate|].
  destruct (char_eqb c escape) eqn:Hc.
  - split; [discriminate|]. intros _. apply char_eqb_eq. exact Hc.
  - destruct (windows && char_eqb c "/"); [split; [reflexivity|discriminate]|].
    destruct (is_reserved c); split; (reflexivity || discriminate).
Qed.

Lemma filename_character_size_escape (windows : bool)
    (escape separator c : ascii) :
  (filename_character_size windows escape separator c = 1 ->
   char_eqb c escape = false)
  /\ (filename_character_size windows escape separator c = 2 -> c = escape).
Proof.
  unfold filename_character_size.
  destruct (char_eqb c separator); [split; discriminate|].
  apply path_character_size_escape.
Qed.

Lemma sanitized_filename_free (windows : bool) (escape separator : ascii)
    (s : cstring) :
  char_eqb escape separator = false ->
  separator = "/"%char \/ separator = "\"%char ->
  free_of separator
    (sanitized (filename_character_size windows escape separator) escape s)
  = true.
Proof.
  intros Hescape Hseparator. induction s as [|c s IH]; [reflexivity|].
  rewrite (proj1 (length_sanitized_cons _ escape c s
                    (proj2 (filename_character_size_cases windows escape
                              separator c)))).
  rewrite free_of_app, IH, andb_true_r.
  assert (free_of separator [escape] = true) as Hfree_escape
    by (cbn; rewrite Hescape; reflexivity).
  unfold filename_character_size.
  destruct (char_eqb c separator) eqn:Hc.
  - change (escaped escape c 4)
      with ([escape; "x"%char]
            ++ [render_nibble (Z.land (Z.shiftr (char_value c) 4) 15);
                render_nibble (Z.land (char_value c) 15)]).
    rewrite free_of_app.
    destruct (rendered_nibbles_free c) as [Hslash Hbackslash].
    destruct Hseparator as [-> | ->]; [rewrite Hslash|rewrite Hbackslash];
      cbn; rewrite Hescape; reflexivity.
  - destruct (path_character_size_cases windows escape c)
      as [_ [-> | [-> | ->]]].
    + cbn. rewrite Hc. reflexivity.
    + cbn. rewrite Hescape. reflexivity.
    + change (escaped escape c 4)
        with ([escape; "x"%char]
              ++ [render_nibble (Z.land (Z.shiftr (char_value c) 4) 15);
                  render_nibble (Z.land (char_value c) 15)]).
      rewrite free_of_app.
      destruct (rendered_nibbles_free c) as [Hslash Hbackslash].
      destruct Hseparator as [-> | ->]; [rewrite Hslash|rewrite Hbackslash];
        cbn; rewrite Hescape; reflexivity.
Qed.

(** ** Sanitizing one character *)

(** A successful [libcpath_path_get_sanitized_character] that is told
    the true size of the buffer stores nothing outside of it: the stores
    recorded outside the buffer and the size of the buffer are unchanged,
    the index advances by the sanitized size and stays within the
    buffer, and the characters of the buffer are those before the index,
    the escaped form of the character and those after the new index. *)
Theorem sanitized_character_stays_in_bounds (escape character : ascii)
    (size index : Z) (sanitized_path result : buffer) (index' : Z) :
  0 <= index ->
  libcpath_path_get_sanitized_character escape character size
    (Some sanitized_path) (buffer_size sanitized_path) (Some index)
  = Ok (result, index') ->
  buffer_overrun result = buffer_overrun sanitized_path
  /\ buffer_size result = buffer_size sanitized_path
  /\ index' = index + size
  /\ index' <= buffer_size sanitized_path
  /\ buffer_data result
     = take (Z.to_nat index) (buffer_data sanitized_path)
       ++ escaped escape character size
       ++ drop (Z.to_nat index') (buffer_data sanitized_path).
Proof.
  intros Hindex Hcall.
  destruct sanitized_path as [data overrun].
  unfold buffer_size in *. cbn [buffer_data buffer_overrun] in *.
  fold (length_of data) in *.
  destruct (negb (size =? 1) && negb (size =? 2) && negb (size =? 4))
    eqn:Hsize.
  { unfold libcpath_path_get_sanitized_character in Hcall.
    rewrite Hsize in Hcall. discriminate. }
  destruct (length_of data >? SSIZE_MAX) eqn:Hmax.
  { unfold libcpath_path_get_sanitized_character in Hcall.
    rewrite Hsize, Hmax in Hcall. discriminate. }
  destruct (index >? length_of data) eqn:Hinside.
  { unfold libcpath_path_get_sanitized_character in Hcall.
    rewrite Hsize, Hmax, Hinside in Hcall. discriminate. }
  destruct ((size >? length_of data)
            || (index >? size_sub (length_of data) size)) eqn:Hroom.
  { unfold libcpath_path_get_sanitized_character in Hcall.
    rewrite Hsize, Hmax, Hinside, Hroom in Hcall. discriminate. }
  assert (size = 1 \/ size = 2 \/ size = 4) as Hcases.
  { destruct (Z.eqb_spec size 1); [auto|].
    destruct (Z.eqb_spec size 2); [auto|].
    destruct (Z.eqb_spec size 4); [auto|]. discriminate. }
  rewrite Z.gtb_ltb in Hmax, Hinside. apply Z.ltb_ge in Hmax, Hinside.
  apply orb_false_elim in Hroom as [Hfits Hroom].
  rewrite Z.gtb_ltb in Hfits, Hroom. apply Z.ltb_ge in Hfits.
  rewrite size_sub_exact in Hroom by size_lia. apply Z.ltb_ge in Hroom.
  assert (length_of (take (Z.to_nat index) data) = index) as Hpre
    by (unfold length_of in *; rewrite length_take; lia).
  assert (length_of (drop (Z.to_nat index) data) = length_of data - index)
    as Hremaining by (unfold length_of in *; rewrite length_drop; lia).
  pose proof (sanitized_character_fits escape character size
                (take (Z.to_nat index) data) (drop (Z.to_nat index) data)
                overrun Hcases ltac:(lia) ltac:(lia)) as Hwrite.
  rewrite take_drop, Hpre, Hremaining in Hwrite.
  replace (index + (length_of data - index)) with (length_of data) in Hwrite
    by lia.
  rewrite Hwrite in Hcall. injection Hcall as <- <-.
  cbn [buffer_data buffer_overrun].
  split; [reflexivity|]. split.
  - pose proof (length_escaped escape character size Hcases) as Hescaped.
    unfold length_of in *.
    rewrite !length_app, length_take, length_drop, length_drop. lia.
  - split; [reflexivity|]. split; [lia|].
    rewrite drop_drop. do 3 f_equal. lia.
Qed.

Lemma sanitized_character_stays_in_bounds_witness :
  buffer_overrun (mk_buffer (str "ab\x3f") []) = []
  /\ buffer_size (mk_buffer (str "ab\x3f") []) = 6.
Proof.
  destruct (sanitized_character_stays_in_bounds "\" "?" 4 2
              (mk_buffer (str "ab....") []) (mk_buffer (str "ab\x3f") []) 6)
    as (Hoverrun & Hsize & _).
  - lia.
  - vm_compute. reflexivity.
  - split; [exact Hoverrun|exact Hsize].
Defined.

(** ** Sanitized paths and file names *)

(** [libcpath_path_get_sanitized_path] writes what it counted: when the
    escaped forms of the characters of the path and the end-of-string
    character fit (in [SSIZE_MAX] characters, on Windows in 32767), the
    call succeeds, the buffer holds the escaped forms in order followed
    by the end-of-string character, whatever the allocation held before,
    nothing is stored outside of it and the size returned is the size of
    the buffer. *)
Theorem sanitized_path_is_escaped_text (windows : bool)
    (escape separator : ascii) (heap : nat -> ascii) (path : cstring) :
  path <> [] ->
  1 + length_of (sanitized (path_character_size windows escape) escape path)
  <= (if windows then 32767 else SSIZE_MAX) ->
  libcpath_path_get_sanitized_path windows escape separator heap (Some path)
    (length_of path) (Some None) (Some 0)
  = Ok (mk_buffer
          (sanitized (path_character_size windows escape) escape path
           ++ [NUL]) [],
        1 + length_of
              (sanitized (path_character_size windows escape) escape path)).
Proof.
  apply sanitized_path_fits.
Qed.

Lemma sanitized_path_is_escaped_text_witness :
  libcpath_path_get_sanitized_path false "\" "/" (fun _ => "#"%char)
    (Some (str "a?/b\")) 5 (Some None) (Some 0)
  = Ok (mk_buffer (str "a\x3f/b\\" ++ [NUL]) [], 10).
Proof.
  apply (sanitized_path_is_escaped_text false "\" "/" (fun _ => "#"%char)
           (str "a?/b\")).
  - discriminate.
  - vm_compute. discriminate.
Defined.

(** [libcpath_path_get_sanitized_filename] writes what it counted: when
    the escaped forms of the characters of the file name, a separator
    being escaped with its two nibbles, and the end-of-string character
    fit in [SSIZE_MAX] characters, the call succeeds, the buffer holds
    the escaped forms in order followed by the end-of-string character,
    nothing is stored outside of it and the size returned is the size of
    the buffer. *)
Theorem sanitized_filename_is_escaped_text (windows : bool)
    (escape separator : ascii) (heap : nat -> ascii) (filename : cstring) :
  filename <> [] ->
  1 + length_of
        (sanitized (filename_character_size windows escape separator) escape
           filename)
  <= SSIZE_MAX ->
  libcpath_path_get_sanitized_filename windows escape separator heap
    (Some filename) (length_of filename) (Some None) (Some 0)
  = Ok (mk_buffer
          (sanitized (filename_character_size windows escape separator) escape
             filename ++ [NUL]) [],
        1 + length_of
              (sanitized (filename_character_size windows escape separator)
                 escape filename)).
Proof.
  apply sanitized_filename_fits.
Qed.

Lemma sanitized_filename_is_escaped_text_witness :
  libcpath_path_get_sanitized_filename false "\" "/" (fun _ => "#"%char)
    (Some (str "a/b")) 3 (Some None) (Some 0)
  = Ok (mk_buffer (str "a\x2fb" ++ [NUL]) [], 7).
Proof.
  apply (sanitized_filename_is_escaped_text false "\" "/" (fun _ => "#"%char)
           (str "a/b")).
  - discriminate.
  - vm_compute. discriminate.
Defined.

(** A path of safe characters (no control character, no escape
    character, no reserved character and, on Windows, no forward slash)
    is returned as it is by [libcpath_path_get_sanitized_path], with its
    end-of-string character. *)
Theorem sanitized_path_keeps_safe_characters (windows : bool)
    (escape separator : ascii) (heap : nat -> ascii) (path : cstring) :
  path <> [] ->
  Forall (fun c => is_safe_character windows escape c = true) path ->
  1 + length_of path <= (if windows then 32767 else SSIZE_MAX) ->
  libcpath_path_get_sanitized_path windows escape separator heap (Some path)
    (length_of path) (Some None) (Some 0)
  = Ok (mk_buffer (path ++ [NUL]) [], 1 + length_of path).
Proof.
  intros Hpath Hsafe Hmax.
  pose proof (sanitized_path_fits windows escape separator heap path Hpath)
    as Hfits.
  rewrite (sanitized_safe windows escape path Hsafe) in Hfits.
  apply Hfits. exact Hmax.
Qed.

Lemma sanitized_path_keeps_safe_characters_witness :
  libcpath_path_get_sanitized_path true "^" "\" (fun _ => "#"%char)
    (Some (str "C\Users\me\file-1.txt")) 21 (Some None) (Some 0)
  = Ok (mk_buffer (str "C\Users\me\file-1.txt" ++ [NUL]) [], 22).
Proof.
  apply (sanitized_path_keeps_safe_characters true "^" "\"
           (fun _ => "#"%char) (str "C\Users\me\file-1.txt")).
  - discriminate.
  - repeat constructor.
  - vm_compute. discriminate.
Defined.

(** A sanitized file name is a single path segment: when the separator
    is the forward slash or the backslash and differs from the escape
    character, the buffer returned by
    [libcpath_path_get_sanitized_filename] holds no separator. *)
Theorem sanitized_filename_has_no_separator (windows : bool)
    (escape separator : ascii) (heap : nat -> ascii) (filename : cstring) :
  char_eqb escape separator = false ->
  separator = "/"%char \/ separator = "\"%char ->
  filename <> [] ->
  1 + length_of
        (sanitized (filename_character_size windows escape separator) escape
           filename)
  <= SSIZE_MAX ->
  exists (sanitized_filename : buffer) (sanitized_filename_size : Z),
    libcpath_path_get_sanitized_filename windows escape separator heap
      (Some filename) (length_of filename) (Some None) (Some 0)
    = Ok (sanitized_filename, sanitized_filename_size)
    /\ buffer_overrun sanitized_filename = []
    /\ free_of separator (buffer_data sanitized_filename) = true.
Proof.
  intros Hescape Hseparator Hfilename Hmax.
  rewrite sanitized_filename_fits by assumption.
  eexists _, _. split; [reflexivity|]. split; [reflexivity|].
  cbn [buffer_data]. rewrite free_of_app.
  rewrite sanitized_filename_free by assumption.
  destruct Hseparator as [-> | ->]; reflexivity.
Qed.

Lemma sanitized_filename_has_no_separator_witness :
  exists (sanitized_filename : buffer) (sanitized_filename_size : Z),
    libcpath_path_get_sanitized_filename true "^" "\" (fun _ => "#"%char)
      (Some (str "..\..\boot.ini")) 14 (Some None) (Some 0)
    = Ok (sanitized_filename, sanitized_filename_size)
    /\ buffer_overrun sanitized_filename = []
    /\ free_of "\" (buffer_data sanitized_filename) = true.
Proof.
  apply (sanitized_filename_has_no_separator true "^" "\"
           (fun _ => "#"%char) (str "..\..\boot.ini")).
  - reflexivity.
  - right. reflexivity.
  - discriminate.
  - vm_compute. discriminate.
Defined.

(** On Windows a path whose escaped forms take exactly 32767 characters
    is accepted: the buffer of 32767 characters is filled with them and
    the end-of-string character is stored at index 32767, one past the
    end of the allocation. *)
Theorem sanitized_path_terminator_past_limit (escape separator : ascii)
    (heap : nat -> ascii) (path : cstring) :
  length_of (sanitized (path_character_size true escape) escape path) = 32767 ->
  libcpath_path_get_sanitized_path true escape separator heap (Some path)
    (length_of path) (Some None) (Some 0)
  = Ok (mk_buffer (sanitized (path_character_size true escape) escape path)
          [(32767, NUL)], 32767).
Proof.
  apply sanitized_path_at_limit.
Qed.

Lemma sanitized_path_terminator_past_limit_witness :
  libcpath_path_get_sanitized_path true "^" "\" (fun _ => "#"%char)
    (Some (replicate (Z.to_nat 32767) "a"%char))
    (length_of (replicate (Z.to_nat 32767) "a"%char)) (Some None) (Some 0)
  = Ok (mk_buffer
          (sanitized (path_character_size true "^") "^"
             (replicate (Z.to_nat 32767) "a"%char))
          [(32767, NUL)], 32767).
Proof.
  apply (sanitized_path_terminator_past_limit "^" "\" (fun _ => "#"%char)
           (replicate (Z.to_nat 32767) "a"%char)).
  vm_compute. reflexivity.
Defined.

(** On Windows a path whose escaped forms take more than 32767
    characters is never sanitized: the call fails, the size kept at
    32767 does not make it return a shortened path. *)
Theorem sanitized_path_beyond_limit_fails (escape separator : ascii)
    (heap : nat -> ascii) (path : cstring) :
  32767 < length_of (sanitized (path_character_size true escape) escape path) ->
  exists e,
    libcpath_path_get_sanitized_path true escape separator heap (Some path)
      (length_of path) (Some None) (Some 0)
    = Err e.
Proof.
  apply sanitized_path_beyond_limit.
Qed.

Lemma sanitized_path_beyond_limit_fails_witness :
  exists e,
    libcpath_path_get_sanitized_path true "^" "\" (fun _ => "#"%char)
      (Some (replicate (Z.to_nat 32768) "a"%char))
      (length_of (replicate (Z.to_nat 32768) "a"%char)) (Some None) (Some 0)
    = Err e.
Proof.
  apply (sanitized_path_beyond_limit_fails "^" "\" (fun _ => "#"%char)
           (replicate (Z.to_nat 32768) "a"%char)).
  vm_compute. reflexivity.
Defined.

(** Sanitizing loses nothing: when the escape character is not [x], two
    paths that [libcpath_path_get_sanitized_path] turns into the same
    buffer are the same path. *)
Theorem sanitized_path_injective (windows : bool) (escape separator : ascii)
    (heap heap' : nat -> ascii) (a b : cstring) :
  char_eqb escape "x" = false ->
  a <> [] -> b <> [] ->
  1 + length_of (sanitized (path_character_size windows escape) escape a)
  <= (if windows then 32767 else SSIZE_MAX) ->
  1 + length_of (sanitized (path_character_size windows escape) escape b)
  <= (if windows then 32767 else SSIZE_MAX) ->
  libcpath_path_get_sanitized_path windows escape separator heap (Some a)
    (length_of a) (Some None) (Some 0)
  = libcpath_path_get_sanitized_path windows escape separator heap' (Some b)
      (length_of b) (Some None) (Some 0) ->
  a = b.
Proof.
  intros Hx Ha Hb Hfits_a Hfits_b.
  rewrite !sanitized_path_fits by assumption.
  intros [= Hequal _]. apply app_inj_tail in Hequal as [Hequal _].
  apply (f_equal (unsanitized escape)) in Hequal.
  rewrite !unsanitized_sanitized in Hequal;
    (exact Hequal || exact Hx
     || (intros c; apply path_character_size_cases)
     || (intros c; apply path_character_size_escape)).
Qed.

Lemma sanitized_path_injective_witness : str "a?/b\" = str "a?/b\".
Proof.
  apply (sanitized_path_injective false "\" "/" (fun _ => "#"%char)
           (fun _ => "*"%char) (str "a?/b\") (str "a?/b\")).
  - reflexivity.
  - discriminate.
  - discriminate.
  - vm_compute. discriminate.
  - vm_compute. discriminate.
  - vm_compute. reflexivity.
Defined.

(** Sanitizing a file name loses nothing either: when the escape
    character is not [x], two file names that
    [libcpath_path_get_sanitized_filename] turns into the same buffer are
    the same name. *)
Theorem sanitized_filename_injective (windows : bool)
    (escape separator : ascii) (heap heap' : nat -> ascii) (a b : cstring) :
  char_eqb escape "x" = false ->
  a <> [] -> b <> [] ->
  1 + length_of
        (sanitized (filename_character_size windows escape separator) escape a)
  <= SSIZE_MAX ->
  1 + length_of
        (sanitized (filename_character_size windows escape separator) escape b)
  <= SSIZE_MAX ->
  libcpath_path_get_sanitized_filename windows escape separator heap (Some a)
    (length_of a) (Some None) (Some 0)
  = libcpath_path_get_sanitized_filename windows escape separator heap'
      (Some b) (length_of b) (Some None) (Some 0) ->
  a = b.
Proof.
  intros Hx Ha Hb Hfits_a Hfits_b.
  rewrite !sanitized_filename_fits by assumption.
  intros [= Hequal _]. apply app_inj_tail in Hequal as [Hequal _].
  apply (f_equal (unsanitized escape)) in Hequal.
  rewrite !unsanitized_sanitized in Hequal;
    (exact Hequal || exact Hx
     || (intros c; apply filename_character_size_cases)
     || (intros c; apply filename_character_size_escape)).
Qed.

Lemma sanitized_filename_injective_witness : str "a/b" = str "a/b".
Proof.
  apply (sanitized_filename_injective false "\" "/" (fun _ => "#"%char)
           (fun _ => "*"%char) (str "a/b") (str "a/b")).
  - reflexivity.
  - discriminate.
  - discriminate.
  - vm_compute. discriminate.
  - vm_compute. discriminate.
  - vm_compute. reflexivity.
Defined.

(** ** Volume names *)

Lemma scan_past_separator_advances (fuel : nat) (path : cstring)
    (path_length i : Z) :
  i < path_length -> (0 < fuel)%nat ->
  i < Windows.scan_past_separator fuel path path_length i <= path_length.
Proof.
  intros Hi Hfuel. destruct fuel as [|fuel]; [lia|].
  cbn [Windows.scan_past_separator].
  destruct (Z.ltb_spec i path_length); [|lia].
  destruct (char_eqb (char_at path i) "\"); [lia|].
  pose proof (scan_past_separator_bounds fuel path path_length (i + 1)
                ltac:(lia)). lia.
Qed.

Lemma volume_name_result_bounds (path : cstring) (start index : Z) :
  0 <= start < index -> index <= SIZE_MAX ->
  exists length,
    Windows.volume_name_result path start index
    = (Some (drop (Z.to_nat start) path), length, index)
    /\ 0 <= length /\ index - 1 <= start + length <= index.
Proof.
  intros Hstart Hmax. unfold Windows.volume_name_result, Windows.pointer_into.
  rewrite (size_sub_exact index start) by lia.
  destruct (char_eqb (char_at path (index - 1)) "\").
  - rewrite size_sub_exact by lia. eexists. split; [reflexivity|lia].
  - eexists. split; [reflexivity|lia].
Qed.

Lemma volume_name_inside (path : cstring) :
  1 <= length_of path <= SSIZE_MAX - 1 ->
  Windows.find_volume_name_index path (length_of path) < length_of path ->
  exists (volume_name : option cstring)
         (volume_name_length directory_name_index : Z),
    Windows.libcpath_path_get_volume_name (Some path) (length_of path)
      (Some None) (Some 0) (Some 0)
    = Ok (volume_name, volume_name_length, directory_name_index)
    /\ 0 <= volume_name_length
    /\ 0 <= directory_name_index <= length_of path
    /\ match volume_name with
       | None => volume_name_length = 0 /\ directory_name_index = 0
       | Some name =>
           exists skipped,
             path = skipped ++ name
             /\ directory_name_index - 1
                <= length_of skipped + volume_name_length
                <= directory_name_index
       end.
Proof.
  intros Hlength Hprefix.
  set (path_length := length_of path) in *.
  unfold Windows.libcpath_path_get_volume_name.
  destruct (Z.eqb_spec path_length 0); [lia|].
  rewrite Z.gtb_ltb.
  destruct (Z.ltb_spec (SSIZE_MAX - 1) path_length); [lia|].
  cbv zeta.
  pose proof (find_volume_name_index_cases path path_length) as Hcases.
  cbv zeta in Hcases.
  set (start := Windows.find_volume_name_index path path_length) in *.
  assert (0 <= start) as Hstart by lia.
  assert (forall index,
            start < index -> index <= path_length ->
            exists (volume_name : option cstring)
                   (volume_name_length directory_name_index : Z),
              Ok (Windows.volume_name_result path start index)
              = Ok (volume_name, volume_name_length, directory_name_index)
              /\ 0 <= volume_name_length
              /\ 0 <= directory_name_index <= path_length
              /\ match volume_name with
                 | None => volume_name_length = 0 /\ directory_name_index = 0
                 | Some name =>
                     exists skipped,
                       path = skipped ++ name
                       /\ directory_name_index - 1
                          <= length_of skipped + volume_name_length
                          <= directory_name_index
                 end) as Hresult.
  { intros index Hindex Hinside.
    destruct (volume_name_result_bounds path start index ltac:(lia)
                ltac:(size_lia)) as (length & -> & Hpositive & Hspan).
    eexists _, _, _. split; [reflexivity|].
    split; [exact Hpositive|]. split; [lia|].
    exists (take (Z.to_nat start) path). split.
    - rewrite take_drop. reflexivity.
    - assert (length_of (take (Z.to_nat start) path) = start) as ->
        by (unfold path_length, length_of in *; rewrite length_take; lia).
      lia. }
  destruct ((2 <=? path_length) && (start <=? path_length - 2)
            && char_eqb (char_at path (start + 1)) ":"
            && Windows.is_letter (char_at path start)) eqn:Hdrive.
  - apply andb_prop in Hdrive as [Hdrive _].
    apply andb_prop in Hdrive as [Hdrive _].
    apply andb_prop in Hdrive as [_ Hdrive]. apply Z.leb_le in Hdrive.
    destruct ((start + 2 <? path_length)
              && char_eqb (char_at path (start + 2)) "\") eqn:Hseparator.
    + apply andb_prop in Hseparator as [Hseparator _].
      apply Z.ltb_lt in Hseparator. apply Hresult; lia.
    + apply Hresult; lia.
  - destruct (Z.eqb_spec start 4) as [Hfour|Hfour].
    + rewrite <- Hfour.
      pose proof (scan_past_separator_advances
                    (Z.to_nat (path_length - start)) path path_length start
                    Hprefix ltac:(lia)).
      apply Hresult; lia.
    + destruct ((start =? 2) || (start =? 8)) eqn:Hunc.
      * pose proof (scan_past_separator_advances
                      (Z.to_nat (path_length - start)) path path_length start
                      Hprefix ltac:(lia)) as Hshare.
        set (share := Windows.scan_past_separator
                        (Z.to_nat (path_length - start)) path path_length
                        start) in *.
        rewrite Z.gtb_ltb.
        destruct (Z.ltb_spec path_length share); [lia|].
        pose proof (scan_past_separator_bounds
                      (Z.to_nat (path_length - share)) path path_length share
                      ltac:(lia)).
        apply Hresult; lia.
      * exists None, 0, 0. repeat split; lia.
Qed.


Ltac read_hypotheses :=
  unfold char_at in *;
  change (Z.to_nat 0) with 0%nat in *; change (Z.to_nat 1) with 1%nat in *;
  change (Z.to_nat 2) with 2%nat in *; change (Z.to_nat 3) with 3%nat in *;
  change (Z.to_nat 4) with 4%nat in *; change (Z.to_nat 5) with 5%nat in *;
  change (Z.to_nat 6) with 6%nat in *; change (Z.to_nat 7) with 7%nat in *;
  cbn [nth] in *.

Lemma bare_prefix_only (path : cstring) :
  1 <= length_of path ->
  Windows.find_volume_name_index path (length_of path) = length_of path ->
  In path bare_prefixes.
Proof.
  intros Hlength.
  unfold Windows.find_volume_name_index.
  destruct (Windows.has_special_prefix path (length_of path)) eqn:Hspecial.
  - unfold Windows.has_special_prefix in Hspecial.
    repeat match type of Hspecial with
    | _ && _ = true => apply andb_prop in Hspecial as [Hspecial ?]
    end.
    destruct (char_eqb (char_at path 2) ".") eqn:Hdot.
    + intros Hfour.
      destruct path as [|c0 [|c1 [|c2 [|c3 [|c4 path]]]]];
        try (unfold length_of in Hfour; cbn [length] in Hfour; lia).
      read_hypotheses.
      repeat match goal with
      | H : char_eqb _ _ = true |- _ => apply char_eqb_eq in H; subst
      end.
      right. left. reflexivity.
    + destruct (Windows.has_unc_marker path (length_of path)) eqn:Hmarker.
      * unfold Windows.has_unc_marker in Hmarker.
        repeat match type of Hmarker with
        | _ && _ = true => apply andb_prop in Hmarker as [Hmarker ?]
        end.
        intros Height.
        destruct path as [|c0 [|c1 [|c2 [|c3 [|c4 [|c5 [|c6 [|c7 [|c8 path]]]]]]]]];
          try (unfold length_of in Height; cbn [length] in Height; lia).
        read_hypotheses.
        rewrite ?Hdot in *; cbn [orb] in *.
        repeat match goal with
        | H : char_eqb _ _ = true |- _ => apply char_eqb_eq in H; subst
        end.
        right. right. right. left. reflexivity.
      * intros Hfour.
        destruct path as [|c0 [|c1 [|c2 [|c3 [|c4 path]]]]];
          try (unfold length_of in Hfour; cbn [length] in Hfour; lia).
        read_hypotheses.
        rewrite ?Hdot in *; cbn [orb] in *.
        repeat match goal with
        | H : char_eqb _ _ = true |- _ => apply char_eqb_eq in H; subst
        end.
        right. right. left. reflexivity.
  - destruct ((2 <=? length_of path) && char_eqb (char_at path 0) "\"
              && char_eqb (char_at path 1) "\") eqn:Hunc; [|lia].
    repeat match type of Hunc with
    | _ && _ = true => apply andb_prop in Hunc as [Hunc ?]
    end.
    intros Htwo.
    destruct path as [|c0 [|c1 [|c2 path]]];
      try (unfold length_of in Htwo; cbn [length] in Htwo; lia).
    read_hypotheses.
    repeat match goal with
    | H : char_eqb _ _ = true |- _ => apply char_eqb_eq in H; subst
    end.
    left. reflexivity.
Qed.

Lemma scan_to_separator (segment : cstring) :
  forall (pre rest : cstring) (fuel : nat) (path_length : Z),
    free_of "\" segment = true ->
    (length segment < fuel)%nat ->
    length_of pre + length_of segment < path_length ->
    Windows.scan_past_separator fuel (pre ++ segment ++ "\"%char :: rest)
      path_length (length_of pre)
    = length_of pre + length_of segment + 1.
Proof.
  induction segment as [|c segment IH];
    intros pre rest fuel path_length Hfree Hfuel Hlength.
  - destruct fuel as [|fuel]; [cbn in Hfuel; lia|].
    cbn [Windows.scan_past_separator app].
    change (length_of []) with 0 in *.
    destruct (Z.ltb_spec (length_of pre) path_length); [|lia].
    rewrite <- (Z.add_0_r (length_of pre)) at 1.
    rewrite char_at_app_r by lia.
    change (char_at ("\"%char :: rest) 0) with "\"%char.
    change (char_eqb "\" "\") with true. cbv iota. lia.
  - destruct fuel as [|fuel]; [cbn in Hfuel; lia|].
    cbn [free_of forallb] in Hfree.
    apply andb_prop in Hfree as [Hc Hfree]. apply negb_true_iff in Hc.
    assert (length_of (c :: segment) = 1 + length_of segment) as Hcons
      by (unfold length_of; cbn [length]; lia).
    rewrite Hcons in *.
    assert (0 <= length_of segment) by (unfold length_of; lia).
    cbn [Windows.scan_past_separator app].
    destruct (Z.ltb_spec (length_of pre) path_length); [|lia].
    rewrite <- (Z.add_0_r (length_of pre)) at 1.
    rewrite char_at_app_r by lia.
    change (char_at (c :: segment ++ "\"%char :: rest) 0) with c.
    rewrite Hc.
    replace (length_of pre + 1) with (length_of (pre ++ [c]))
      by (unfold length_of; rewrite length_app; cbn [length]; lia).
    pose proof (IH (pre ++ [c]) rest fuel path_length Hfree) as Hscan.
    rewrite <- app_assoc in Hscan. cbn [app] in Hscan.
    rewrite Hscan.
    + unfold length_of. rewrite length_app. cbn [length]. lia.
    + cbn [length] in Hfuel. lia.
    + unfold length_of in *. rewrite length_app. cbn [length]. lia.
Qed.

Lemma get_volume_name_share (pre server share tail : cstring) :
  let path := pre ++ server ++ "\"%char :: share ++ "\"%char :: tail in
  length_of path <= SSIZE_MAX - 1 ->
  Windows.find_volume_name_index path (length_of path) = length_of pre ->
  length_of pre = 2 \/ length_of pre = 8 ->
  free_of "\" server = true ->
  free_of ":" server = true ->
  free_of "\" share = true ->
  Windows.libcpath_path_get_volume_name (Some path) (length_of path)
    (Some None) (Some 0) (Some 0)
  = Ok (Some (server ++ "\"%char :: share ++ "\"%char :: tail),
        length_of server + 1 + length_of share,
        length_of pre + length_of server + length_of share + 2).
Proof.
  intros path Hmax Hstart Hpre Hserver Hcolon Hshare.
  assert (length_of path
          = length_of pre + length_of server + length_of share
            + length_of tail + 2) as Hlength
    by (unfold path, length_of; rewrite !length_app; cbn [length];
        rewrite !length_app; cbn [length]; lia).
  assert (0 <= length_of server /\ 0 <= length_of share
          /\ 0 <= length_of tail) as (? & ? & ?) by (unfold length_of; lia).
  unfold Windows.libcpath_path_get_volume_name.
  destruct (Z.eqb_spec (length_of path) 0); [lia|].
  rewrite Z.gtb_ltb.
  destruct (Z.ltb_spec (SSIZE_MAX - 1) (length_of path)); [lia|].
  cbv zeta. rewrite Hstart.
  assert (char_eqb (char_at path (length_of pre + 1)) ":"
          && Windows.is_letter (char_at path (length_of pre)) = false)
    as Hdrive.
  { unfold path. rewrite char_at_app_r by lia.
    rewrite <- (Z.add_0_r (length_of pre)).
    rewrite char_at_app_r by lia.
    destruct server as [|s0 [|s1 server]];
      [unfold char_at; change (Z.to_nat 0) with 0%nat; cbn [app nth];
       apply andb_false_r
      |reflexivity|].
    cbn [free_of forallb] in Hcolon.
    apply andb_prop in Hcolon as [_ Hcolon].
    apply andb_prop in Hcolon as [Hcolon _].
    apply negb_true_iff in Hcolon.
    change (char_at ((s0 :: s1 :: server) ++ _) 1) with s1.
    rewrite Hcolon. reflexivity. }
  rewrite <- !andb_assoc, Hdrive, !andb_false_r.
  replace (length_of pre =? 4) with false
    by (symmetry; apply Z.eqb_neq; lia).
  replace ((length_of pre =? 2) || (length_of pre =? 8)) with true
    by (destruct Hpre as [-> | ->]; reflexivity).
  assert (path = (pre ++ server ++ ["\"%char]) ++ share ++ "\"%char :: tail)
    as Hsplit by (unfold path; rewrite <- !app_assoc; reflexivity).
  assert (length_of (pre ++ server ++ ["\"%char])
          = length_of pre + length_of server + 1) as Hshare_index
    by (unfold length_of; rewrite !length_app; cbn [length]; lia).
  pose proof (scan_to_separator server pre (share ++ "\"%char :: tail)
                (Z.to_nat (length_of path - length_of pre)) (length_of path)
                Hserver ltac:(unfold length_of in *; lia) ltac:(lia))
    as Hscan.
  fold path in Hscan. rewrite Hscan. clear Hscan.
  rewrite Z.gtb_ltb.
  destruct (Z.ltb_spec (length_of path)
              (length_of pre + length_of server + 1)); [lia|].
  pose proof (scan_to_separator share (pre ++ server ++ ["\"%char]) tail
                (Z.to_nat (length_of path
                           - (length_of pre + length_of server + 1)))
                (length_of path) Hshare
                ltac:(unfold length_of in *; lia) ltac:(lia)) as Hscan.
  rewrite <- Hsplit, Hshare_index in Hscan. rewrite Hscan. clear Hscan.
  unfold Windows.volume_name_result, Windows.pointer_into.
  rewrite (size_sub_exact _ (length_of pre)) by size_lia.
  assert (char_at path
            (length_of pre + length_of server + 1 + length_of share + 1 - 1)
          = "\"%char) as ->.
  { rewrite Hsplit.
    replace (length_of pre + length_of server + 1 + length_of share + 1 - 1)
      with (length_of (pre ++ server ++ ["\"%char]) + length_of share)
      by lia.
    rewrite char_at_app_r by lia.
    rewrite <- (Z.add_0_r (length_of share)).
    rewrite char_at_app_r by lia. reflexivity. }
  change (char_eqb "\" "\") with true. cbv iota.
  rewrite size_sub_exact by size_lia.
  unfold path at 1. unfold length_of at 1. rewrite Nat2Z.id, drop_app_length.
  f_equal. f_equal; [f_equal|]; lia.
Qed.

Lemma find_volume_name_index_unc (server rest : cstring) :
  free_of "\" server = true ->
  server <> str "." -> server <> str "?" ->
  Windows.find_volume_name_index
    (str "\\" ++ server ++ "\"%char :: rest)
    (length_of (str "\\" ++ server ++ "\"%char :: rest))
  = 2.
Proof.
  intros Hserver Hdot Hquestion.
  assert (3 <= length_of (str "\\" ++ server ++ "\"%char :: rest)) as Hlength
    by (unfold length_of; cbn [str list_ascii_of_string app length];
        rewrite length_app; cbn [length]; lia).
  unfold Windows.find_volume_name_index.
  replace (Windows.has_special_prefix _ _) with false.
  - destruct (Z.leb_spec 2 (length_of (str "\\" ++ server
                                         ++ "\"%char :: rest))); [|lia].
    reflexivity.
  - symmetry. unfold Windows.has_special_prefix.
    destruct server as [|s0 [|s1 server]].
    + unfold char_at. change (Z.to_nat 2) with 2%nat.
      cbn [str list_ascii_of_string app nth].
      change (char_eqb "\" "." || char_eqb "\" "?") with false.
      rewrite andb_false_r. reflexivity.
    + unfold char_at. change (Z.to_nat 2) with 2%nat.
      cbn [str list_ascii_of_string app nth].
      replace (char_eqb s0 "." || char_eqb s0 "?") with false;
        [rewrite andb_false_r; reflexivity|].
      symmetry.
      apply orb_false_intro; apply char_eqb_neq; intros ->;
        [apply Hdot|apply Hquestion]; reflexivity.
    + cbn [free_of forallb] in Hserver.
      apply andb_prop in Hserver as [_ Hserver].
      apply andb_prop in Hserver as [Hserver _].
      apply negb_true_iff in Hserver.
      unfold char_at. change (Z.to_nat 3) with 3%nat.
      cbn [str list_ascii_of_string app nth].
      rewrite Hserver. apply andb_false_r.
Qed.

Lemma find_volume_name_index_extended_unc (rest : cstring) :
  Windows.find_volume_name_index (str "\\?\UNC\" ++ rest)
    (length_of (str "\\?\UNC\" ++ rest))
  = 8.
Proof.
  assert (8 <= length_of (str "\\?\UNC\" ++ rest)) as Hlength
    by (unfold length_of; rewrite length_app;
        cbn [str list_ascii_of_string length]; lia).
  unfold Windows.find_volume_name_index, Windows.has_special_prefix,
    Windows.has_unc_marker.
  destruct (Z.leb_spec 4 (length_of (str "\\?\UNC\" ++ rest))); [|lia].
  destruct (Z.leb_spec 8 (length_of (str "\\?\UNC\" ++ rest))); [|lia].
  reflexivity.
Qed.

(** The volume name of an UNC path [\\server\share\tail] and of an
    extended-length UNC path [\\?\UNC\server\share\tail] is the server
    and the share with the separator between them, and the directory
    name starts after the separator that follows the share.  The server
    name holds no colon, and in the first form it is neither [.] nor
    [?], which mark a device or an extended-length path. *)
Theorem unc_volume_name (server share tail : cstring) :
  free_of "\" server = true ->
  free_of ":" server = true ->
  free_of "\" share = true ->
  (server <> str "." -> server <> str "?" ->
   length_of (str "\\" ++ server ++ "\"%char :: share ++ "\"%char :: tail)
   <= SSIZE_MAX - 1 ->
   Windows.libcpath_path_get_volume_name
     (Some (str "\\" ++ server ++ "\"%char :: share ++ "\"%char :: tail))
     (length_of
        (str "\\" ++ server ++ "\"%char :: share ++ "\"%char :: tail))
     (Some None) (Some 0) (Some 0)
   = Ok (Some (server ++ "\"%char :: share ++ "\"%char :: tail),
         length_of server + 1 + length_of share,
         length_of server + length_of share + 4))
  /\ (length_of
        (str "\\?\UNC\" ++ server ++ "\"%char :: share ++ "\"%char :: tail)
      <= SSIZE_MAX - 1 ->
      Windows.libcpath_path_get_volume_name
        (Some (str "\\?\UNC\" ++ server ++ "\"%char :: share
               ++ "\"%char :: tail))
        (length_of
           (str "\\?\UNC\" ++ server ++ "\"%char :: share
            ++ "\"%char :: tail))
        (Some None) (Some 0) (Some 0)
      = Ok (Some (server ++ "\"%char :: share ++ "\"%char :: tail),
            length_of server + 1 + length_of share,
            length_of server + length_of share + 10)).
Proof.
  intros Hserver Hcolon Hshare. split.
  - intros Hdot Hquestion Hmax.
    pose proof (get_volume_name_share (str "\\") server share tail Hmax
                  (find_volume_name_index_unc server _ Hserver Hdot Hquestion)
                  ltac:(left; reflexivity) Hserver Hcolon Hshare) as Hname.
    cbv zeta in Hname. rewrite Hname.
    change (length_of (str "\\")) with 2. do 2 f_equal. lia.
  - intros Hmax.
    pose proof (get_volume_name_share (str "\\?\UNC\") server share tail Hmax
                  (find_volume_name_index_extended_unc _)
                  ltac:(right; reflexivity) Hserver Hcolon Hshare) as Hname.
    cbv zeta in Hname. rewrite Hname.
    change (length_of (str "\\?\UNC\")) with 8. do 2 f_equal. lia.
Qed.

Lemma unc_volume_name_witness :
  Windows.libcpath_path_get_volume_name
    (Some (str "\\server\share\directory\file")) 29
    (Some None) (Some 0) (Some 0)
  = Ok (Some (str "server\share\directory\file"), 12, 15).
Proof.
  apply (proj1 (unc_volume_name (str "server") (str "share")
                  (str "directory\file") eq_refl eq_refl eq_refl)).
  - discriminate.
  - discriminate.
  - vm_compute. discriminate.
Defined.

(** For every path but the four that are a prefix and nothing else,
    [libcpath_path_get_volume_name] succeeds and its results lie inside
    the path: the directory name index is at most the length of the
    path; without a volume name the length and the index are 0; a volume
    name is the rest of the path from some position on, and the volume
    name length leads from that position to the directory name index, or
    to the separator before it. *)
Theorem volume_name_within_path (path : cstring) :
  1 <= length_of path <= SSIZE_MAX - 1 ->
  ~ In path bare_prefixes ->
  exists (volume_name : option cstring)
         (volume_name_length directory_name_index : Z),
    Windows.libcpath_path_get_volume_name (Some path) (length_of path)
      (Some None) (Some 0) (Some 0)
    = Ok (volume_name, volume_name_length, directory_name_index)
    /\ 0 <= volume_name_length
    /\ 0 <= directory_name_index <= length_of path
    /\ match volume_name with
       | None => volume_name_length = 0 /\ directory_name_index = 0
       | Some name =>
           exists skipped,
             path = skipped ++ name
             /\ directory_name_index - 1
                <= length_of skipped + volume_name_length
                <= directory_name_index
       end.
Proof.
  intros Hlength Hbare. apply volume_name_inside; [exact Hlength|].
  pose proof (find_volume_name_index_cases path (length_of path)) as Hcases.
  cbv zeta in Hcases.
  destruct (Z.eq_dec (Windows.find_volume_name_index path (length_of path))
              (length_of path)) as [Hequal|Hdifferent]; [|lia].
  exfalso. apply Hbare. apply bare_prefix_only; [lia|exact Hequal].
Qed.

Lemma volume_name_within_path_witness :
  exists (volume_name : option cstring)
         (volume_name_length directory_name_index : Z),
    Windows.libcpath_path_get_volume_name (Some (str "\\.\PhysicalDrive0"))
      (length_of (str "\\.\PhysicalDrive0")) (Some None) (Some 0) (Some 0)
    = Ok (volume_name, volume_name_length, directory_name_index)
    /\ 0 <= volume_name_length
    /\ 0 <= directory_name_index <= length_of (str "\\.\PhysicalDrive0")
    /\ match volume_name with
       | None => volume_name_length = 0 /\ directory_name_index = 0
       | Some name =>
           exists skipped,
             str "\\.\PhysicalDrive0" = skipped ++ name
             /\ directory_name_index - 1
                <= length_of skipped + volume_name_length
                <= directory_name_index
       end.
Proof.
  apply (volume_name_within_path (str "\\.\PhysicalDrive0")).
  - vm_compute. split; discriminate.
  - vm_compute. intros H. repeat destruct H as [H|H]; discriminate H || exact H.
Defined.

(** For the four paths that are a prefix and nothing else ([\\], [\\.\],
    [\\?\] and [\\?\UNC\]) [libcpath_path_get_volume_name] succeeds with
    an empty volume name whose length, 0 minus the separator that ends
    the prefix, wraps around to [SIZE_MAX]. *)
Theorem volume_name_of_bare_prefix (path : cstring) :
  In path bare_prefixes ->
  Windows.libcpath_path_get_volume_name (Some path) (length_of path)
    (Some None) (Some 0) (Some 0)
  = Ok (Some [], SIZE_MAX, length_of path).
Proof.
  intros Hbare. repeat destruct Hbare as [<-|Hbare]; try reflexivity.
  destruct Hbare.
Qed.

Lemma volume_name_of_bare_prefix_witness :
  Windows.libcpath_path_get_volume_name (Some (str "\\")) 2
    (Some None) (Some 0) (Some 0)
  = Ok (Some [], SIZE_MAX, 2).
Proof.
  apply (volume_name_of_bare_prefix (str "\\")). left. reflexivity.
Defined.

(** ** The working directory of a volume *)

Lemma get_current_working_directory_result (w w' : world)
    (directory : cstring) (size : Z) :
  Windows.libcpath_path_get_current_working_directory (Some None) (Some 0) w
  = (Ok (directory, size), w') ->
  directory = working_directory w
  /\ size = length_of directory + 1
  /\ w' = mk_world (working_directory w) (change_directory w)
            (os_calls w ++ [OS_get_current_directory; OS_get_current_directory]).
Proof.
  unfold Windows.libcpath_path_get_current_working_directory.
  cbv zeta. unfold os_log. cbn [working_directory change_directory os_calls].
  destruct (narrow_string_length (working_directory w) + 1 =? 0);
    [discriminate|].
  destruct (narrow_string_length (working_directory w) + 1 >? SSIZE_MAX);
    [discriminate|].
  destruct (narrow_string_allocate _); [|discriminate].
  intros [= <- <- <-]. rewrite <- app_assoc. repeat split.
Qed.

(** A successful [libcpath_path_get_current_working_directory_by_volume]
    with a volume name makes six calls to the operating system, in this
    order: the working directory is read (size and content), the process
    changes to the volume name, the working directory is read again, and
    the process is sent back to the directory read first.  The directory
    returned is the one the change to the volume name led to. *)
Theorem current_directory_by_volume_trace (volume_name : cstring)
    (volume_name_length : Z) (w w' : world) (directory : cstring) (size : Z) :
  Windows.libcpath_path_get_current_working_directory_by_volume
    (Some volume_name) volume_name_length (Some None) (Some 0) w
  = (Ok (directory, size), w') ->
  change_directory w (working_directory w)
    (take (Z.to_nat volume_name_length) volume_name) = Some directory
  /\ size = length_of directory + 1
  /\ change_directory w directory (working_directory w)
     = Some (working_directory w')
  /\ os_calls w'
     = os_calls w
       ++ [OS_get_current_directory; OS_get_current_directory;
           OS_change_directory
             (take (Z.to_nat volume_name_length) volume_name);
           OS_get_current_directory; OS_get_current_directory;
           OS_change_directory (working_directory w)].
Proof.
  unfold Windows.libcpath_path_get_current_working_directory_by_volume.
  destruct (volume_name_length >? SSIZE_MAX - 1); [discriminate|].
  destruct (Windows.libcpath_path_get_current_working_directory
              (Some None) (Some 0) w) as [[[saved saved_size]|e] w1] eqn:Hsaved;
    [|discriminate].
  apply get_current_working_directory_result in Hsaved
    as (-> & -> & ->).
  destruct (narrow_string_allocate _); [|discriminate].
  unfold Windows.libcpath_path_change_directory at 1.
  unfold os_log. cbn [working_directory change_directory os_calls].
  destruct (change_directory w (working_directory w)
              (take (Z.to_nat volume_name_length) volume_name))
    as [switched|] eqn:Hswitch; [|discriminate].
  unfold Windows.read_and_restore.
  destruct (Windows.libcpath_path_get_current_working_directory
              (Some None) (Some 0) _) as [[[read read_size]|e] w2] eqn:Hread.
  - apply get_current_working_directory_result in Hread as (-> & -> & ->).
    cbn [working_directory change_directory os_calls bind_or].
    unfold Windows.libcpath_path_change_directory.
    unfold os_log. cbn [working_directory change_directory os_calls].
    destruct (change_directory w switched (working_directory w))
      as [restored|] eqn:Hrestore; [|discriminate].
    intros [= <- <- <-]. cbn [working_directory os_calls].
    rewrite <- !app_assoc. repeat split; assumption || reflexivity.
  - cbn [bind_or].
    destruct (Windows.libcpath_path_change_directory _ w2) as [[?|?] ?];
      discriminate.
Qed.

Lemma current_directory_by_volume_trace_witness :
  os_calls
    (mk_world (str "C:\work") (change_directory (world_with_drives "C:\work"))
       [OS_get_current_directory; OS_get_current_directory;
        OS_change_directory (str "D:");
        OS_get_current_directory; OS_get_current_directory;
        OS_change_directory (str "C:\work")])
  = os_calls (world_with_drives "C:\work")
    ++ [OS_get_current_directory; OS_get_current_directory;
        OS_change_directory (take (Z.to_nat 2) (str "D:\data"));
        OS_get_current_directory; OS_get_current_directory;
        OS_change_directory (working_directory (world_with_drives "C:\work"))].
Proof.
  apply (current_directory_by_volume_trace (str "D:\data") 2
           (world_with_drives "C:\work")
           (mk_world (str "C:\work")
              (change_directory (world_with_drives "C:\work"))
              [OS_get_current_directory; OS_get_current_directory;
               OS_change_directory (str "D:");
               OS_get_current_directory; OS_get_current_directory;
               OS_change_directory (str "C:\work")])
           (str "D:\") 4).
  vm_compute. reflexivity.
Defined.

(** Without a volume name
    [libcpath_path_get_current_working_directory_by_volume] reads the
    working directory and never asks for a change of directory. *)
Theorem current_directory_without_volume (w : world) :
  length_of (working_directory w) + 1 <= SSIZE_MAX ->
  Windows.libcpath_path_get_current_working_directory_by_volume
    None 0 (Some None) (Some 0) w
  = (Ok (working_directory w, length_of (working_directory w) + 1),
     mk_world (working_directory w) (change_directory w)
       (os_calls w ++ [OS_get_current_directory; OS_get_current_directory])).
Proof.
  intros Hmax.
  assert (0 <= length_of (working_directory w)) by (unfold length_of; lia).
  unfold Windows.libcpath_path_get_current_working_directory_by_volume,
    Windows.read_and_restore,
    Windows.libcpath_path_get_current_working_directory.
  cbv zeta. unfold os_log. cbn [working_directory change_directory os_calls].
  change (narrow_string_length (working_directory w))
    with (length_of (working_directory w)).
  destruct (Z.eqb_spec (length_of (working_directory w) + 1) 0); [lia|].
  rewrite Z.gtb_ltb.
  destruct (Z.ltb_spec SSIZE_MAX (length_of (working_directory w) + 1)); [lia|].
  unfold narrow_string_allocate.
  destruct (Z.leb_spec (length_of (working_directory w) + 1) SSIZE_MAX); [|lia].
  cbn [bind_or]. rewrite <- app_assoc. reflexivity.
Qed.

Lemma current_directory_without_volume_witness :
  Windows.libcpath_path_get_current_working_directory_by_volume
    None 0 (Some None) (Some 0) (world_at "C:\work")
  = (Ok (str "C:\work", 8),
     mk_world (str "C:\work") (change_directory (world_at "C:\work"))
       [OS_get_current_directory; OS_get_current_directory]).
Proof.
  apply (current_directory_without_volume (world_at "C:\work")).
  vm_compute. discriminate.
Defined.

(** When the operating system refuses the way back,
    [libcpath_path_get_current_working_directory_by_volume] fails with
    RUNTIME/SET_FAILED although the directory was read, and the process
    stays in the directory the change to the volume name led to. *)
Theorem current_directory_by_volume_not_restored (volume_name : cstring)
    (volume_name_length : Z) (w : world) (switched : cstring) :
  0 <= volume_name_length <= SSIZE_MAX - 1 ->
  length_of (working_directory w) + 1 <= SSIZE_MAX ->
  length_of switched + 1 <= SSIZE_MAX ->
  change_directory w (working_directory w)
    (take (Z.to_nat volume_name_length) volume_name) = Some switched ->
  change_directory w switched (working_directory w) = None ->
  exists (e : libcerror_error_t) (w' : world),
    Windows.libcpath_path_get_current_working_directory_by_volume
      (Some volume_name) volume_name_length (Some None) (Some 0) w
    = (Err e, w')
    /\ error_domain e = LIBCERROR_ERROR_DOMAIN_RUNTIME
    /\ error_code e = LIBCERROR_RUNTIME_ERROR_SET_FAILED
    /\ working_directory w' = switched.
Proof.
  intros Hlength Hsaved Hswitched Hswitch Hrestore.
  assert (0 <= length_of (working_directory w) /\ 0 <= length_of switched)
    as [? ?] by (unfold length_of; lia).
  assert (forall v : world,
            length_of (working_directory v) + 1 <= SSIZE_MAX ->
            Windows.libcpath_path_get_current_working_directory
              (Some None) (Some 0) v
            = (Ok (working_directory v, length_of (working_directory v) + 1),
               mk_world (working_directory v) (change_directory v)
                 (os_calls v
                  ++ [OS_get_current_directory; OS_get_current_directory])))
    as Hread.
  { intros v Hv.
    assert (0 <= length_of (working_directory v)) by (unfold length_of; lia).
    unfold Windows.libcpath_path_get_current_working_directory.
    cbv zeta. unfold os_log.
    cbn [working_directory change_directory os_calls].
    change (narrow_string_length (working_directory v))
      with (length_of (working_directory v)).
    destruct (Z.eqb_spec (length_of (working_directory v) + 1) 0); [lia|].
    rewrite Z.gtb_ltb.
    destruct (Z.ltb_spec SSIZE_MAX (length_of (working_directory v) + 1));
      [lia|].
    unfold narrow_string_allocate.
    destruct (Z.leb_spec (length_of (working_directory v) + 1) SSIZE_MAX);
      [|lia].
    rewrite <- app_assoc. reflexivity. }
  unfold Windows.libcpath_path_get_current_working_directory_by_volume.
  rewrite Z.gtb_ltb.
  destruct (Z.ltb_spec (SSIZE_MAX - 1) volume_name_length); [lia|].
  rewrite Hread by exact Hsaved.
  unfold narrow_string_allocate.
  rewrite size_add_exact by size_lia.
  destruct (Z.leb_spec (volume_name_length + 1) SSIZE_MAX); [|lia].
  unfold Windows.libcpath_path_change_directory at 1.
  unfold os_log. cbn [working_directory change_directory os_calls].
  rewrite Hswitch.
  unfold Windows.read_and_restore.
  rewrite Hread by exact Hswitched.
  cbn [working_directory change_directory os_calls bind_or].
  unfold Windows.libcpath_path_change_directory.
  unfold os_log. cbn [working_directory change_directory os_calls].
  rewrite Hrestore.
  eexists _, _. split; [reflexivity|]. repeat split.
Qed.

Lemma current_directory_by_volume_not_restored_witness :
  exists (e : libcerror_error_t) (w' : world),
    Windows.libcpath_path_get_current_working_directory_by_volume
      (Some (str "D:\data")) 2 (Some None) (Some 0)
      (mk_world (str "C:\work")
         (fun current name =>
            if (length name =? 2)%nat then Some (name ++ ["\"%char])
            else None) [])
    = (Err e, w')
    /\ error_domain e = LIBCERROR_ERROR_DOMAIN_RUNTIME
    /\ error_code e = LIBCERROR_RUNTIME_ERROR_SET_FAILED
    /\ working_directory w' = str "D:\".
Proof.
  apply (current_directory_by_volume_not_restored (str "D:\data") 2
           (mk_world (str "C:\work")
              (fun current name =>
                 if (length name =? 2)%nat then Some (name ++ ["\"%char])
                 else None) [])
           (str "D:\")).
  - vm_compute. split; discriminate.
  - vm_compute. discriminate.
  - vm_compute. discriminate.
  - reflexivity.
  - reflexivity.
Defined.

(** ** The counting loop and the working directory *)

Lemma find_previous_used_nonneg (fuel : nat) (segments : list (option cstring)) :
  forall last previous : Z,
    0 <= last ->
    Resolver.find_previous_used fuel segments last = Ok previous ->
    0 <= previous.
Proof.
  induction fuel as [|fuel IH]; intros last previous Hlast.
  - cbn. intros [= <-]. exact Hlast.
  - cbn [Resolver.find_previous_used]. rewrite Z.gtb_ltb.
    destruct (Z.ltb_spec 0 last); [|intros [= <-]; exact Hlast].
    destruct (libcsplit.narrow_split_string_get_segment_by_index segments
                (last - 1)) as [segment|e]; [|discriminate].
    cbn [bind_or].
    destruct (negb (snd segment =? 0)); [intros [= <-]; lia|].
    apply IH. lia.
Qed.

Lemma count_segment_used (i : Z) (path : list (option cstring))
    (current_directory_segments : option (list (option cstring)))
    (size index last : Z) :
  0 <= last -> 0 <= i ->
  match Resolver.count_segment i
          (Resolver.mk_state path None size index last) with
  | Ok st =>
      Resolver.count_segment i
        (Resolver.mk_state path current_directory_segments size index last)
      = Ok (with_working_directory current_directory_segments st)
      /\ 0 <= Resolver.last_used_path_segment_index st
      /\ Resolver.current_directory_split_string st = None
  | Err e =>
      Resolver.count_segment i
        (Resolver.mk_state path current_directory_segments size index last)
      = Err e
  end.
Proof.
  intros Hlast Hi.
  unfold Resolver.count_segment, Resolver.go_up, Resolver.clear_path_segment.
  cbn [Resolver.path_split_string Resolver.current_directory_split_string
       Resolver.last_used_path_segment_index Resolver.safe_full_path_size
       Resolver.current_directory_segment_index].
  replace (last =? -1) with false by (symmetry; apply Z.eqb_neq; lia).
  destruct (Z.geb_spec last 0); [|lia].
  destruct (libcsplit.narrow_split_string_get_segment_by_index path i)
    as [[[segment|] segment_size]|e]; cbn [bind_or]; try reflexivity.
  destruct (Resolver.is_dot_dot segment segment_size).
  - destruct current_directory_segments as [current|].
    + destruct (libcsplit.narrow_split_string_get_segment_by_index path last)
        as [[[used|] used_size]|e]; cbn [bind_or bind fst snd];
        try reflexivity.
      destruct (libcsplit.narrow_split_string_clear_segment_by_index path last)
        as [cleared|e]; cbn [bind_or bind]; try reflexivity.
      destruct (Resolver.find_previous_used (Z.to_nat last) cleared last)
        as [previous|e] eqn:Hprevious; cbn [bind_or bind]; try reflexivity.
      cbn [Resolver.path_split_string Resolver.current_directory_split_string
           Resolver.last_used_path_segment_index Resolver.safe_full_path_size
           Resolver.current_directory_segment_index].
      destruct (libcsplit.narrow_split_string_clear_segment_by_index cleared i)
        as [cleared'|e]; cbn [bind_or bind]; try reflexivity.
      repeat split.
      exact (find_previous_used_nonneg _ _ _ _ Hlast Hprevious).
    + destruct (libcsplit.narrow_split_string_get_segment_by_index path last)
        as [[[used|] used_size]|e]; cbn [bind_or bind fst snd];
        try reflexivity.
      destruct (libcsplit.narrow_split_string_clear_segment_by_index path last)
        as [cleared|e]; cbn [bind_or bind]; try reflexivity.
      destruct (Resolver.find_previous_used (Z.to_nat last) cleared last)
        as [previous|e] eqn:Hprevious; cbn [bind_or bind]; try reflexivity.
      cbn [Resolver.path_split_string Resolver.current_directory_split_string
           Resolver.last_used_path_segment_index Resolver.safe_full_path_size
           Resolver.current_directory_segment_index].
      destruct (libcsplit.narrow_split_string_clear_segment_by_index cleared i)
        as [cleared'|e]; cbn [bind_or bind]; try reflexivity.
      repeat split.
      exact (find_previous_used_nonneg _ _ _ _ Hlast Hprevious).
  - destruct (Resolver.is_dot segment segment_size).
    + destruct (libcsplit.narrow_split_string_clear_segment_by_index path i)
        as [cleared|e]; cbn [bind_or]; [|reflexivity].
      repeat split. exact Hlast.
    + destruct (segment_size <=? 1).
      * destruct (libcsplit.narrow_split_string_clear_segment_by_index path i)
          as [cleared|e]; cbn [bind_or]; [|reflexivity].
        repeat split. exact Hlast.
      * repeat split. exact Hi.
Qed.

Lemma count_loop_used (n : nat) :
  forall (i : Z) (path : list (option cstring))
         (current_directory_segments : option (list (option cstring)))
         (size index last : Z),
    0 <= last -> 0 <= i ->
    for_loop n i Resolver.count_segment
      (Resolver.mk_state path current_directory_segments size index last)
    = match for_loop n i Resolver.count_segment
              (Resolver.mk_state path None size index last) with
      | Ok st => Ok (with_working_directory current_directory_segments st)
      | Err e => Err e
      end.
Proof.
  induction n as [|n IH];
    intros i path current_directory_segments size index last Hlast Hi.
  - reflexivity.
  - cbn [for_loop].
    pose proof (count_segment_used i path current_directory_segments size
                  index last Hlast Hi) as Hstep.
    destruct (Resolver.count_segment i
                (Resolver.mk_state path None size index last)) as [st|e].
    + destruct Hstep as (-> & Hused & Hnone).
      destruct st as [path' current' size' index' last'].
      cbn [Resolver.current_directory_split_string
           Resolver.last_used_path_segment_index] in Hused, Hnone.
      subst current'. unfold with_working_directory.
      cbn [Resolver.path_split_string Resolver.safe_full_path_size
           Resolver.current_directory_segment_index
           Resolver.last_used_path_segment_index].
      apply IH; lia.
    + rewrite Hstep. reflexivity.
Qed.

(** A [..] that removes the last segment of the working directory *)
Lemma count_up_working_directory (done rest front back : list (option cstring))
    (name : cstring) (size : Z) :
  length_of name + 1 <= size <= SIZE_MAX ->
  Resolver.count_segment (index_after done)
    (Resolver.mk_state (done ++ Some (str "..") :: rest)
       (Some (front ++ Some name :: back)) size (index_after front) (-1))
  = Ok (Resolver.mk_state (done ++ None :: rest)
          (Some (front ++ None :: back)) (size - (length_of name + 1))
          (index_after front - 1) (-1)).
Proof.
  intros Hsize.
  assert (0 <= length_of name) by (unfold length_of; lia).
  unfold Resolver.count_segment. cbn [Resolver.path_split_string].
  rewrite get_segment_middle. cbn [bind_or].
  change (Resolver.is_dot_dot (str "..")
            (libcsplit.segment_size (Some (str "..")))) with true.
  cbv iota. unfold Resolver.go_up.
  cbn [Resolver.current_directory_split_string
       Resolver.last_used_path_segment_index Resolver.path_split_string
       Resolver.safe_full_path_size Resolver.current_directory_segment_index].
  change (-1 =? -1) with true. cbv iota.
  rewrite get_segment_middle. cbn [bind_or fst snd libcsplit.segment_size].
  rewrite clear_segment_middle. cbn [bind_or bind].
  unfold Resolver.clear_path_segment.
  cbn [Resolver.current_directory_split_string
       Resolver.last_used_path_segment_index Resolver.path_split_string
       Resolver.safe_full_path_size Resolver.current_directory_segment_index].
  rewrite clear_segment_middle. cbn [bind_or].
  fold (length_of name). rewrite size_sub_exact by lia. reflexivity.
Qed.

Lemma count_leading_ups (popped : list cstring) :
  forall (done rest front back : list (option cstring)) (size : Z),
    segments_size popped <= size <= SIZE_MAX ->
    for_loop (length popped) (index_after done) Resolver.count_segment
      (Resolver.mk_state
         (done ++ replicate (length popped) (Some (str "..")) ++ rest)
         (Some (front ++ map Some popped ++ back)) size
         (index_after front + Z.of_nat (length popped) - 1) (-1))
    = Ok (Resolver.mk_state
            (done ++ replicate (length popped) None ++ rest)
            (Some (front ++ replicate (length popped) None ++ back))
            (size - segments_size popped) (index_after front - 1) (-1)).
Proof.
  induction popped as [|name popped IH] using rev_ind;
    intros done rest front back size Hsize.
  - cbn [length for_loop replicate app map].
    change (segments_size []) with 0. do 2 f_equal; lia.
  - rewrite segments_size_app, segments_size_cons in *.
    change (segments_size []) with 0 in *.
    pose proof (segments_size_nonneg popped).
    assert (0 <= length_of name) by (unfold length_of; lia).
    rewrite length_app. cbn [length]. rewrite Nat.add_1_r.
    cbn [for_loop replicate app].
    rewrite map_app. cbn [map].
    rewrite <- (app_assoc (map Some popped)). cbn [app].
    rewrite (app_assoc front).
    replace (index_after front + Z.of_nat (S (length popped)) - 1)
      with (index_after (front ++ map Some popped))
      by (unfold index_after; rewrite length_app, length_map; lia).
    rewrite count_up_working_directory by lia.
    rewrite <- (app_assoc front).
    replace (index_after (front ++ map Some popped) - 1)
      with (index_after front + Z.of_nat (length popped) - 1)
      by (unfold index_after; rewrite length_app, length_map; lia).
    rewrite <- (index_after_snoc done None).
    pose proof (IH (done ++ [None]) rest front (None :: back)
                  (size - (length_of name + 1)) ltac:(lia)) as Hloop.
    rewrite <- app_assoc in Hloop. cbn [app] in Hloop.
    rewrite Hloop. rewrite <- !app_assoc. cbn [app].
    replace (size - (length_of name + 1) - segments_size popped)
      with (size - (segments_size popped + (length_of name + 1 + 0))) by lia.
    replace (done ++ None :: replicate (length popped) None ++ rest)
      with (done ++ replicate (S (length popped)) None ++ rest)
      by reflexivity.
    replace (front ++ replicate (length popped) None ++ None :: back)
      with (front ++ replicate (S (length popped)) None ++ back);
      [reflexivity|].
    rewrite replicate_S_end, <- app_assoc. reflexivity.
Qed.

Lemma last_character_of_joined (separator : ascii) (names : list cstring) :
  forall c : ascii,
    names <> [] ->
    Forall (fun name => is_plain_name name = true) names ->
    Forall (fun name => free_of separator name = true) names ->
    char_eqb
      (char_at (c :: joined separator names)
         (length_of (c :: joined separator names) - 1)) separator
    = false.
Proof.
  induction names as [|name names IH]; intros c Hnames Hplain Hfree;
    [congruence|].
  apply Forall_cons in Hplain as [Hname Hplain].
  apply Forall_cons in Hfree as [Hfree_name Hfree].
  destruct names as [|next names].
  - cbn [joined].
    destruct (exists_last (l := name)) as (front & x & ->);
      [intros ->; discriminate|].
    rewrite free_of_app in Hfree_name.
    apply andb_prop in Hfree_name as [_ Hx]. cbn in Hx.
    rewrite andb_true_r in Hx. apply negb_true_iff in Hx.
    replace (length_of (c :: front ++ [x]) - 1)
      with (length_of (c :: front) + 0)
      by (unfold length_of; cbn [length]; rewrite length_app; cbn [length];
          lia).
    change (c :: front ++ [x]) with ((c :: front) ++ [x]).
    rewrite char_at_app_r by lia. exact Hx.
  - rewrite joined_cons by discriminate.
    replace (length_of (c :: name ++ separator :: joined separator (next :: names)) - 1)
      with (length_of (c :: name)
            + (length_of (separator :: joined separator (next :: names)) - 1))
      by (unfold length_of; cbn [length]; rewrite length_app; cbn [length];
          lia).
    change (c :: name ++ separator :: joined separator (next :: names))
      with ((c :: name) ++ separator :: joined separator (next :: names)).
    rewrite char_at_app_r by (unfold length_of; cbn [length]; lia).
    apply IH; (discriminate || assumption).
Qed.

Lemma plain_name_first_character (name : cstring) (c : ascii) :
  is_plain_name name = true -> free_of c name = true ->
  char_eqb (char_at name 0) c = false.
Proof.
  destruct name as [|x name]; [discriminate|].
  intros _ Hfree. cbn [free_of forallb] in Hfree.
  apply andb_prop in Hfree as [Hx _]. apply negb_true_iff in Hx. exact Hx.
Qed.

Lemma count_relative (front : list (option cstring)) (popped : list cstring)
    (name : cstring) (more : list cstring) (size : Z) :
  is_plain_name name = true ->
  segments_size popped <= size ->
  size + segments_size (name :: more) <= SIZE_MAX ->
  match walk more [name] true with
  | Some names =>
      exists (final : list (option cstring)) (last_used : Z),
        for_loop (length popped + S (length more)) 0 Resolver.count_segment
          (Resolver.mk_state
             (replicate (length popped) (Some (str ".."))
              ++ map Some (name :: more))
             (Some (front ++ map Some popped)) size
             (index_after front + Z.of_nat (length popped) - 1) (-1))
        = Ok (Resolver.mk_state final
                (Some (front ++ replicate (length popped) None))
                (size - segments_size popped + segments_size names)
                (index_after front - 1) last_used)
        /\ surviving final = names
        /\ length final = (length popped + S (length more))%nat
  | None =>
      for_loop (length popped + S (length more)) 0 Resolver.count_segment
        (Resolver.mk_state
           (replicate (length popped) (Some (str ".."))
            ++ map Some (name :: more))
           (Some (front ++ map Some popped)) size
           (index_after front + Z.of_nat (length popped) - 1) (-1))
      = fail LIBCERROR_ERROR_DOMAIN_RUNTIME
          LIBCERROR_RUNTIME_ERROR_VALUE_MISSING
          "missing last used path string string segment."
  end.
Proof.
  intros Hname Hpopped Hmax.
  pose proof (segments_size_nonneg popped).
  pose proof (segments_size_nonneg more).
  rewrite segments_size_cons in Hmax.
  assert (0 <= length_of name) by (unfold length_of; lia).
  set (base := size - segments_size popped).
  assert (forall outcome,
            for_loop (length more) (Z.of_nat (length popped) + 1)
              Resolver.count_segment
              (Resolver.mk_state
                 (replicate (length popped) None ++ Some name :: map Some more)
                 (Some (front ++ replicate (length popped) None))
                 (base + (length_of name + 1)) (index_after front - 1)
                 (Z.of_nat (length popped)))
            = outcome ->
            for_loop (length popped + S (length more)) 0
              Resolver.count_segment
              (Resolver.mk_state
                 (replicate (length popped) (Some (str ".."))
                  ++ map Some (name :: more))
                 (Some (front ++ map Some popped)) size
                 (index_after front + Z.of_nat (length popped) - 1) (-1))
            = outcome) as Hprefix.
  { intros outcome <-. rewrite for_loop_app.
    pose proof (count_leading_ups popped [] (map Some (name :: more)) front []
                  size ltac:(rewrite SIZE_MAX_value in *; lia)) as Hups.
    change (index_after []) with 0 in Hups. cbn [app] in Hups.
    rewrite !app_nil_r in Hups.
    rewrite Hups. clear Hups. cbn [bind for_loop map].
    pose proof (count_plain_name (replicate (length popped) None)
                  (map Some more) name
                  (Some (front ++ replicate (length popped) None))
                  base (index_after front - 1) (-1) Hname
                  ltac:(unfold base; lia)
                  ltac:(unfold base; rewrite SIZE_MAX_value in *; lia))
      as Hstep.
    replace (index_after (replicate (length popped) None))
      with (Z.of_nat (length popped)) in Hstep
      by (unfold index_after; rewrite length_replicate; reflexivity).
    rewrite Z.add_0_l. fold base. rewrite Hstep. reflexivity. }
  pose proof (count_walk more (Some name :: replicate (length popped) None)
                [name] true base (index_after front - 1)
                (Z.of_nat (length popped))) as Hwalk.
  assert (surviving (Some name :: replicate (length popped) None) = [name])
    as Hsurvive.
  { change (surviving (Some name :: ?l)) with (name :: surviving l).
    rewrite <- (app_nil_r (replicate (length popped) None)).
    rewrite surviving_cleared. reflexivity. }
  assert (Z.of_nat (length popped)
          = previous_used (Some name :: replicate (length popped) None))
    as Hprevious
    by (cbn [previous_used]; rewrite length_replicate; reflexivity).
  specialize (Hwalk Hsurvive Hprevious ltac:(discriminate) ltac:(discriminate)
                ltac:(unfold base; lia)).
  rewrite segments_size_cons in Hwalk.
  change (segments_size []) with 0 in Hwalk.
  specialize (Hwalk ltac:(unfold base; lia)).
  rewrite reverse_cons, reverse_replicate, <- app_assoc in Hwalk.
  cbn [app length] in Hwalk. rewrite length_replicate in Hwalk.
  replace (Z.of_nat (S (length popped))) with (Z.of_nat (length popped) + 1)
    in Hwalk by lia.
  replace (base + (length_of name + 1 + 0)) with (base + (length_of name + 1))
    in Hwalk by lia.
  pose proof (count_loop_used (length more) (Z.of_nat (length popped) + 1)
                (replicate (length popped) None ++ Some name :: map Some more)
                (Some (front ++ replicate (length popped) None))
                (base + (length_of name + 1)) (index_after front - 1)
                (Z.of_nat (length popped)) ltac:(lia) ltac:(lia)) as Hused.
  destruct (walk more [name] true) as [names|].
  - destruct Hwalk as (final & last_used & Hloop & Hnames & Hlength).
    rewrite Hloop in Hused. exists final, last_used.
    split; [apply Hprefix; exact Hused|].
    split; [exact Hnames|lia].
  - rewrite Hwalk in Hused. apply Hprefix. exact Hused.
Qed.


Lemma segments_size_replicate_nonneg (segments more : list cstring) :
  segments_size more <= segments_size (segments ++ more).
Proof.
  rewrite segments_size_app. pose proof (segments_size_nonneg segments). lia.
Qed.

Lemma posix_resolve_relative (names_of_directory : list cstring) (k : nat)
    (name : cstring) (more : list cstring) :
  normalized "/" names_of_directory ->
  (k <= length names_of_directory)%nat ->
  is_plain_name name = true ->
  Forall (fun segment => free_of "/" segment = true) (name :: more) ->
  length_of ("/"%char :: joined "/" names_of_directory)
  + length_of (joined "/" (replicate k (str "..") ++ name :: more)) + 2
  <= SSIZE_MAX ->
  Posix.resolve (joined "/" (replicate k (str "..") ++ name :: more))
    (length_of (joined "/" (replicate k (str "..") ++ name :: more)))
    LIBCPATH_TYPE_RELATIVE (Some ("/"%char :: joined "/" names_of_directory))
  = match walk more [name] true with
    | Some names =>
        Ok (mk_buffer
              (rooted (take (length names_of_directory - k) names_of_directory
                       ++ names) ++ [NUL]) [],
            length_of
              (rooted (take (length names_of_directory - k) names_of_directory
                       ++ names)) + 1)
    | None =>
        fail LIBCERROR_ERROR_DOMAIN_RUNTIME
          LIBCERROR_RUNTIME_ERROR_VALUE_MISSING
          "missing last used path string string segment."
    end.
Proof.
  intros (Hdirectory & Hplain_directory & Hfree_directory & _) Hk Hname Hfree
    Hmax.
  set (kept := take (length names_of_directory - k) names_of_directory).
  set (popped := drop (length names_of_directory - k) names_of_directory).
  assert (names_of_directory = kept ++ popped) as Hsplit_directory
    by (unfold kept, popped; rewrite take_drop; reflexivity).
  assert (length popped = k) as Hpopped
    by (unfold popped; rewrite length_drop; lia).
  assert (length kept = (length names_of_directory - k)%nat) as Hkept
    by (unfold kept; rewrite length_take; lia).
  set (segments := replicate k (str "..") ++ name :: more) in *.
  set (directory := "/"%char :: joined "/" names_of_directory) in *.
  assert (segments <> []) as Hsegments
    by (unfold segments; destruct k; discriminate).
  assert (Forall (fun segment => free_of "/" segment = true) segments)
    as Hfree_segments.
  { unfold segments. apply Forall_app. split; [|exact Hfree].
    apply Forall_replicate. reflexivity. }
  assert (directory = joined "/" ([] :: names_of_directory)) as Hjoined
    by (rewrite joined_cons by exact Hdirectory; reflexivity).
  assert (segments_size names_of_directory
          = length_of (joined "/" names_of_directory) + 1) as Hdirectory_size.
  { rewrite <- (length_written "/"), written_joined by exact Hdirectory.
    unfold length_of. rewrite length_app. cbn [length]. lia. }
  assert (segments_size segments = length_of (joined "/" segments) + 1)
    as Hsegments_size.
  { rewrite <- (length_written "/"), written_joined by exact Hsegments.
    unfold length_of. rewrite length_app. cbn [length]. lia. }
  assert (length_of directory = 1 + length_of (joined "/" names_of_directory))
    as Hdirectory_length by (unfold directory, length_of; cbn [length]; lia).
  assert (0 <= length_of (joined "/" names_of_directory)
          /\ 0 <= length_of (joined "/" segments)) as [? ?]
    by (unfold length_of; lia).
  assert (segments_size names_of_directory
          = segments_size kept + segments_size popped) as Hparts
    by (rewrite Hsplit_directory at 1; apply segments_size_app).
  pose proof (segments_size_nonneg kept).
  pose proof (segments_size_nonneg popped).
  pose proof (segments_size_replicate_nonneg (replicate k (str ".."))
                (name :: more)) as Htail.
  fold segments in Htail.
  unfold Posix.resolve. cbv zeta.
  change (narrow_string_length directory) with (length_of directory).
  rewrite narrow_string_split_whole by size_lia.
  rewrite Hjoined at 1.
  rewrite split_on_joined;
    [|discriminate|constructor; [reflexivity|exact Hfree_directory]].
  cbn [bind_or bind].
  rewrite narrow_string_split_whole by size_lia.
  rewrite split_on_joined by assumption.
  cbn [bind_or bind].
  destruct (Z.leb_spec 1 (length_of directory)); [|lia].
  unfold directory at 1 2.
  rewrite last_character_of_joined by assumption.
  cbn [andb negb bind].
  unfold libcsplit.narrow_split_string_get_number_of_segments.
  cbn [bind_or bind]. rewrite !Nat2Z.id.
  rewrite size_add_exact by size_lia.
  pose proof (count_relative (Some [] :: map Some kept) popped name more
                (length_of directory + 1) Hname ltac:(lia)
                ltac:(size_lia)) as Hcount.
  assert (map Some segments
          = replicate (length popped) (Some (str ".."))
            ++ map Some (name :: more)) as Hpath
    by (unfold segments; rewrite map_app, map_Some_replicate, Hpopped;
        reflexivity).
  assert (map Some ([] :: names_of_directory)
          = (Some [] :: map Some kept) ++ map Some popped) as Hcurrent
    by (rewrite Hsplit_directory at 1; cbn [map app]; rewrite map_app;
        reflexivity).
  assert (length (map Some segments) = (length popped + S (length more))%nat)
    as Hnumber
    by (rewrite Hpath, length_app, length_replicate; cbn [length map];
        rewrite length_map; reflexivity).
  assert (Z.of_nat (length (map Some ([] :: names_of_directory))) - 1
          = index_after (Some [] :: map Some kept)
            + Z.of_nat (length popped) - 1) as Hindex
    by (unfold index_after; cbn [length map]; rewrite !length_map; lia).
  rewrite Hindex, Hnumber. rewrite Hpath at 1. rewrite Hcurrent at 1.
  pose proof (walk_size more [name] true) as Hnames_size.
  destruct (walk more [name] true) as [names|]; [|rewrite Hcount; reflexivity].
  destruct Hcount as (final & last_used & -> & Hsurvive & Hfinal).
  specialize (Hnames_size names eq_refl).
  rewrite segments_size_cons in Hnames_size, Htail.
  change (segments_size []) with 0 in Hnames_size.
  pose proof (segments_size_nonneg names).
  cbn [bind Resolver.safe_full_path_size Resolver.path_split_string
       Resolver.current_directory_split_string].
  set (total := length_of directory + 1 - segments_size popped
                + segments_size names).
  assert (total = 1 + segments_size kept + segments_size names) as Htotal
    by (unfold total; lia).
  unfold narrow_string_allocate.
  destruct (Z.leb_spec total SSIZE_MAX); [|size_lia].
  assert (surviving ((Some [] :: map Some kept)
                     ++ replicate (length popped) None) = [] :: kept)
    as Hsurvive_directory.
  { rewrite surviving_app. cbn [app].
    change (surviving (Some [] :: map Some kept))
      with ([] :: surviving (map Some kept)).
    rewrite surviving_names.
    rewrite <- (app_nil_r (replicate (length popped) None)).
    rewrite surviving_cleared. cbn. rewrite app_nil_r. reflexivity. }
  assert (segments_size ([] :: kept) = 1 + segments_size kept) as Hroot
    by (rewrite segments_size_cons; unfold length_of; cbn [length]; lia).
  pose proof (write_segments_all "/"
                "unable to retrieve current working directory string segment."
                [] (length (written "/" names) + 0)
                ((Some [] :: map Some kept) ++ replicate (length popped) None)
                []) as Hwrite_directory.
  rewrite Hsurvive_directory in Hwrite_directory.
  change (length_of []) with 0 in Hwrite_directory.
  cbn [app] in Hwrite_directory.
  replace (Z.to_nat total)
    with (length (written "/" ([] :: kept))
          + (length (written "/" names) + 0))%nat
    by (pose proof (length_written "/" ([] :: kept));
        pose proof (length_written "/" names);
        unfold length_of in *; lia).
  replace (Z.of_nat (length (map Some ([] :: names_of_directory))))
    with (Z.of_nat (length (Some [] :: map Some kept
                            ++ replicate (length popped) None)))
    by (cbn [length map]; rewrite length_app, !length_map, length_replicate;
        lia).
  cbn [app]. rewrite Hwrite_directory by size_lia. clear Hwrite_directory.
  cbn [bind].
  pose proof (write_segments_all "/"
                "unable to retrieve path string segment." [] 0
                final (written "/" ([] :: kept))) as Hwrite.
  rewrite Hsurvive, Hfinal, length_written in Hwrite.
  rewrite Z.add_0_l. rewrite Hwrite by size_lia. clear Hwrite.
  cbn [bind fst snd]. rewrite size_sub_exact by size_lia.
  cbn [replicate]. rewrite app_nil_r.
  rewrite <- written_app.
  change (([] :: kept) ++ names) with ([] :: (kept ++ names)).
  replace (segments_size ([] :: kept) + segments_size names) with total
    by lia.
  assert (total = 1 + segments_size (kept ++ names)) as Hall
    by (rewrite segments_size_app; lia).
  clearbody total.
  destruct (kept ++ names) as [|first others].
  - change (segments_size []) with 0 in Hall. rewrite Hall.
    cbn [written map concat rooted app].
    change (1 + 0 - 1) with 0. rewrite store_first. reflexivity.
  - change (written "/" ([] :: first :: others))
      with ("/"%char :: written "/" (first :: others)).
    rewrite written_joined by discriminate.
    pose proof (length_rooted (first :: others) ltac:(discriminate))
      as Hrooted.
    cbn [rooted] in Hrooted. cbn [rooted].
    replace (total - 1)
      with (length_of ("/"%char :: joined "/" (first :: others))) by lia.
    change ("/"%char :: joined "/" (first :: others) ++ ["/"%char])
      with (("/"%char :: joined "/" (first :: others)) ++ ["/"%char]).
    rewrite store_middle. f_equal. f_equal. lia.
Qed.

Lemma posix_get_full_path_enters_relative (w : world) (path : cstring) :
  char_eqb (char_at path 0) "/" = false ->
  1 <= length_of path <= SSIZE_MAX - 1 ->
  length_of (working_directory w) + 1 <= Posix.PATH_MAX ->
  Posix.libcpath_path_get_full_path (Some path) (length_of path)
    (Some None) (Some 0) w
  = (Posix.resolve path (length_of path) LIBCPATH_TYPE_RELATIVE
       (Some (working_directory w)),
     os_log OS_get_current_directory w).
Proof.
  intros Hfirst Hlength Hlimit.
  unfold Posix.libcpath_path_get_full_path.
  destruct (Z.eqb_spec (length_of path) 0); [lia|].
  rewrite Z.gtb_ltb.
  destruct (Z.ltb_spec (SSIZE_MAX - 1) (length_of path)); [lia|].
  rewrite Hfirst.
  unfold Posix.libcpath_path_get_current_working_directory.
  change (narrow_string_allocate Posix.PATH_MAX)
    with (Some (mk_buffer (replicate (Z.to_nat Posix.PATH_MAX) NUL) [])).
  cbv zeta. unfold os_log at 1 2 3.
  cbn [working_directory].
  change (narrow_string_length (working_directory w))
    with (length_of (working_directory w)).
  destruct (Z.leb_spec (length_of (working_directory w) + 1) Posix.PATH_MAX);
    [|lia].
  reflexivity.
Qed.

Lemma joined_first_character (separator : ascii) (name : cstring)
    (more : list cstring) :
  name <> [] ->
  char_at (joined separator (name :: more)) 0 = char_at name 0
  /\ 1 <= length_of (joined separator (name :: more)).
Proof.
  intros Hname. destruct name as [|c name]; [congruence|].
  destruct more as [|next more].
  - cbn [joined]. split; [reflexivity|].
    unfold length_of. cbn [length]. lia.
  - rewrite joined_cons by discriminate. split; [reflexivity|].
    unfold length_of. cbn [length app]. lia.
Qed.

Lemma posix_get_full_path_relative (w : world)
    (names_of_directory : list cstring) (k : nat) (name : cstring)
    (more : list cstring) :
  working_directory w = "/"%char :: joined "/" names_of_directory ->
  normalized "/" names_of_directory ->
  length_of (working_directory w) + 1 <= Posix.PATH_MAX ->
  (k <= length names_of_directory)%nat ->
  is_plain_name name = true ->
  Forall (fun segment => free_of "/" segment = true) (name :: more) ->
  length_of (working_directory w)
  + length_of (joined "/" (replicate k (str "..") ++ name :: more)) + 2
  <= SSIZE_MAX ->
  Posix.libcpath_path_get_full_path
    (Some (joined "/" (replicate k (str "..") ++ name :: more)))
    (length_of (joined "/" (replicate k (str "..") ++ name :: more)))
    (Some None) (Some 0) w
  = (match walk more [name] true with
     | Some names =>
         Ok (mk_buffer
               (rooted (take (length names_of_directory - k)
                          names_of_directory ++ names) ++ [NUL]) [],
             length_of
               (rooted (take (length names_of_directory - k)
                          names_of_directory ++ names)) + 1)
     | None =>
         fail LIBCERROR_ERROR_DOMAIN_RUNTIME
           LIBCERROR_RUNTIME_ERROR_VALUE_MISSING
           "missing last used path string string segment."
     end, os_log OS_get_current_directory w).
Proof.
  intros Hdirectory Hnormalized Hlimit Hk Hname Hfree Hmax.
  assert (0 <= length_of (working_directory w)) by (unfold length_of; lia).
  assert (char_eqb
            (char_at (joined "/" (replicate k (str "..") ++ name :: more)) 0)
            "/" = false
          /\ 1 <= length_of
                    (joined "/" (replicate k (str "..") ++ name :: more)))
    as [Hfirst Hlength].
  { destruct k as [|k].
    - cbn [replicate app].
      destruct (joined_first_character "/" name more) as [-> Hlength];
        [intros ->; discriminate|].
      split; [|exact Hlength].
      apply plain_name_first_character; [exact Hname|].
      apply Forall_cons in Hfree as [Hfree_name _]. exact Hfree_name.
    - cbn [replicate app].
      destruct (joined_first_character "/" (str "..")
                  (replicate k (str "..") ++ name :: more)) as [-> Hlength];
        [discriminate|].
      split; [reflexivity|exact Hlength]. }
  rewrite posix_get_full_path_enters_relative by (assumption || lia).
  rewrite Hdirectory in *.
  rewrite (posix_resolve_relative names_of_directory k name more)
    by assumption.
  reflexivity.
Qed.

Lemma write_loop_before (separator : ascii) (message : string)
    (overrun : list (Z * ascii)) (extra : nat)
    (rest tail : list (option cstring)) :
  forall (done : list (option cstring)) (pre : cstring),
    length_of pre + segments_size (surviving rest) <= SIZE_MAX ->
    for_loop (length rest) (index_after done)
      (Resolver.write_segment separator (done ++ rest ++ tail) message)
      (mk_buffer
         (pre ++ replicate
                   (length (written separator (surviving rest)) + extra) NUL)
         overrun,
       length_of pre)
    = Ok (mk_buffer
            (pre ++ written separator (surviving rest) ++ replicate extra NUL)
            overrun,
          length_of pre + segments_size (surviving rest)).
Proof.
  induction rest as [|[name|] rest IH]; intros done pre Hmax.
  - cbn. rewrite Z.add_0_r. reflexivity.
  - change (surviving (Some name :: rest)) with (name :: surviving rest) in *.
    rewrite segments_size_cons in *.
    pose proof (segments_size_nonneg (surviving rest)).
    assert (0 <= length_of pre /\ 0 <= length_of name) as [Hpre Hname]
      by (unfold length_of; lia).
    cbn [for_loop length].
    change (written separator (name :: surviving rest))
      with ((name ++ [separator]) ++ written separator (surviving rest)).
    rewrite (length_app (name ++ [separator])), (length_app name).
    cbn [length].
    rewrite <- (Nat.add_assoc (length name + 1)).
    change ((Some name :: rest) ++ tail) with (Some name :: rest ++ tail).
    rewrite write_segment_kept by lia.
    replace (done ++ Some name :: rest ++ tail)
      with ((done ++ [Some name]) ++ rest ++ tail)
      by (rewrite <- app_assoc; reflexivity).
    rewrite <- (index_after_snoc done (Some name)).
    rewrite (app_assoc pre (name ++ [separator])).
    replace (length_of pre + (length_of name + 1))
      with (length_of (pre ++ name ++ [separator]))
      by (unfold length_of; rewrite !length_app; cbn; lia).
    rewrite IH
      by (unfold length_of in *; rewrite !length_app; cbn [length]; lia).
    f_equal. f_equal.
    + f_equal. rewrite <- !app_assoc. reflexivity.
    + unfold length_of. rewrite !length_app. cbn [length]. lia.
  - change (surviving (None :: rest)) with (surviving rest) in *.
    cbn [for_loop length].
    change ((None :: rest) ++ tail) with (None :: rest ++ tail).
    rewrite write_segment_cleared.
    replace (done ++ None :: rest ++ tail)
      with ((done ++ [None]) ++ rest ++ tail)
      by (rewrite <- app_assoc; reflexivity).
    rewrite <- (index_after_snoc done None).
    apply IH. assumption.
Qed.

Lemma store_past_end (data : cstring) (overrun : list (Z * ascii))
    (c : ascii) :
  store (mk_buffer data overrun) (length_of data) c
  = mk_buffer data (overrun ++ [(length_of data, c)]).
Proof.
  unfold store, buffer_size. cbn [buffer_data buffer_overrun].
  fold (length_of data).
  destruct (Z.ltb_spec (length_of data) (length_of data)); [lia|].
  rewrite andb_false_r. reflexivity.
Qed.

Lemma write_segment_past_end (separator : ascii)
    (done rest : list (option cstring)) (message : string)
    (name pre : cstring) (overrun : list (Z * ascii)) :
  length_of pre + (length_of name + 1) <= SIZE_MAX ->
  Resolver.write_segment separator (done ++ Some name :: rest) message
    (index_after done)
    (mk_buffer (pre ++ replicate (length name) NUL) overrun, length_of pre)
  = Ok (mk_buffer (pre ++ name)
          (overrun ++ [(length_of pre + length_of name, separator)]),
        length_of pre + (length_of name + 1)).
Proof.
  intros Hmax. unfold Resolver.write_segment. rewrite get_segment_middle.
  cbn [bind_or fst snd libcsplit.segment_size].
  assert (0 <= length_of pre /\ 0 <= length_of name) as [Hpre Hname]
    by (unfold length_of; lia).
  fold (length_of name).
  destruct (Z.eqb_spec (length_of name + 1) 0); [lia|]. cbn [negb].
  rewrite size_sub_exact by lia.
  replace (length_of name + 1 - 1) with (length_of name) by lia.
  replace (Z.to_nat (length_of name)) with (length name)
    by (unfold length_of; lia).
  rewrite <- (app_nil_r (replicate (length name) NUL)).
  rewrite copy_middle; [|apply length_replicate|lia].
  rewrite firstn_all, app_nil_r.
  rewrite (size_add_exact (length_of pre)) by lia.
  replace (length_of pre + length_of name) with (length_of (pre ++ name))
    by (unfold length_of; rewrite length_app; lia).
  rewrite store_past_end.
  rewrite size_add_exact
    by (unfold length_of in *; rewrite length_app; lia).
  f_equal. f_equal. unfold length_of. rewrite length_app. lia.
Qed.

Lemma joined_snoc (separator : ascii) (names : list cstring) (last : cstring) :
  joined separator (names ++ [last]) = written separator names ++ last.
Proof.
  induction names as [|name names IH]; [reflexivity|].
  cbn [app]. rewrite joined_cons by (destruct names; discriminate).
  rewrite IH. unfold written. cbn [map concat].
  rewrite <- !app_assoc. reflexivity.
Qed.

Lemma posix_resolve_in_root (names : list cstring) :
  normalized "/" names ->
  length_of (joined "/" names) + 2 <= SSIZE_MAX ->
  Posix.resolve (joined "/" names) (length_of (joined "/" names))
    LIBCPATH_TYPE_RELATIVE (Some ["/"%char])
  = Ok (mk_buffer ("/"%char :: "/"%char :: joined "/" names)
          [(length_of (joined "/" names) + 2, "/"%char);
           (length_of (joined "/" names) + 2, NUL)],
        length_of (joined "/" names) + 2).
Proof.
  intros (Hnames & Hplain & Hfree & _) Hmax.
  assert (segments_size names = length_of (joined "/" names) + 1) as Hsize.
  { rewrite <- (length_written "/"), written_joined by exact Hnames.
    unfold length_of. rewrite length_app. cbn [length]. lia. }
  assert (0 <= length_of (joined "/" names)) by (unfold length_of; lia).
  unfold Posix.resolve. cbv zeta.
  change (narrow_string_length ["/"%char]) with 1.
  change (size_add 1 1) with 2.
  change (libcsplit.narrow_string_split ["/"%char] 2 "/")
    with (Ok [Some []; Some ([] : cstring)]
          : result (list (option cstring))).
  cbn [bind_or bind].
  rewrite narrow_string_split_whole by size_lia.
  rewrite split_on_joined by assumption.
  cbn [bind_or bind].
  change ((1 <=? 1) && negb (char_eqb (char_at ["/"%char] (1 - 1)) "/"))
    with false.
  cbv iota. cbn [bind].
  unfold libcsplit.narrow_split_string_get_number_of_segments.
  cbn [bind_or bind]. rewrite !Nat2Z.id, length_map.
  destruct (count_names_only names (Some [Some []; Some ([] : cstring)]) 1
              (Z.of_nat (length [Some []; Some ([] : cstring)]) - 1) Hplain
              ltac:(lia) ltac:(size_lia)) as [last_used ->].
  cbn [bind Resolver.safe_full_path_size Resolver.path_split_string
       Resolver.current_directory_split_string].
  unfold narrow_string_allocate.
  destruct (Z.leb_spec (1 + segments_size names) SSIZE_MAX); [|size_lia].
  destruct (exists_last (l := names)) as (front & last & Hlast);
    [exact Hnames|].
  assert (joined "/" names = written "/" front ++ last) as Hjoined
    by (rewrite Hlast; apply joined_snoc).
  assert (length_of (joined "/" names)
          = segments_size front + length_of last) as Hparts
    by (rewrite Hjoined, <- (length_written "/"); unfold length_of;
        rewrite length_app; lia).
  pose proof (segments_size_nonneg front).
  assert (0 <= length_of last) by (unfold length_of; lia).
  pose proof (write_segments_all "/"
                "unable to retrieve current working directory string segment."
                [] (length (written "/" front) + length last)
                [Some []; Some ([] : cstring)] []) as Hwrite_directory.
  change (surviving [Some []; Some ([] : cstring)]) with [[]; ([] : cstring)]
    in Hwrite_directory.
  change (written "/" [[]; []]) with ["/"%char; "/"%char] in Hwrite_directory.
  change (segments_size [[]; []]) with 2 in Hwrite_directory.
  change (length_of []) with 0 in Hwrite_directory.
  cbn [app length] in Hwrite_directory.
  replace (Z.to_nat (1 + segments_size names))
    with (2 + (length (written "/" front) + length last))%nat
    by (pose proof (length_written "/" front); unfold length_of in *; lia).
  cbn [length]. rewrite Hwrite_directory by size_lia. clear Hwrite_directory.
  cbn [bind]. unfold Resolver.write_segments. rewrite Nat2Z.id.
  change (0 + 2) with 2.
  rewrite Hlast at 1 2. rewrite map_app, length_app.
  cbn [map length]. rewrite for_loop_app.
  pose proof (write_loop_before "/" "unable to retrieve path string segment."
                [] (length last) (map Some front) [Some last] []
                ["/"%char; "/"%char]) as Hwrite.
  rewrite surviving_names, length_map in Hwrite.
  change (index_after []) with 0 in Hwrite.
  change (length_of ["/"%char; "/"%char]) with 2 in Hwrite.
  cbn [app] in Hwrite.
  rewrite Hwrite by size_lia. clear Hwrite.
  cbn [bind for_loop].
  pose proof (write_segment_past_end "/" (map Some front) []
                "unable to retrieve path string segment." last
                ("/"%char :: "/"%char :: written "/" front) []) as Hlast_write.
  unfold index_after in Hlast_write. rewrite length_map in Hlast_write.
  replace (length_of ("/"%char :: "/"%char :: written "/" front))
    with (2 + segments_size front) in Hlast_write
    by (rewrite <- (length_written "/"); unfold length_of; cbn [length]; lia).
  cbn [app] in Hlast_write.
  rewrite Z.add_0_l. rewrite Hlast_write by size_lia. clear Hlast_write.
  cbn [bind fst snd]. rewrite size_sub_exact by size_lia.
  replace (2 + segments_size front + (length_of last + 1) - 1)
    with (length_of ("/"%char :: "/"%char :: written "/" front ++ last))
    by (rewrite <- (length_written "/"); unfold length_of; cbn [length];
        rewrite length_app; lia).
  rewrite store_past_end. rewrite <- Hjoined.
  f_equal. f_equal; [|lia]. f_equal.
  cbn [app]. f_equal; [f_equal|f_equal; f_equal];
    unfold length_of in *; cbn [length]; lia.
Qed.

Lemma posix_get_full_path_in_root (w : world) (names : list cstring) :
  working_directory w = ["/"%char] ->
  normalized "/" names ->
  length_of (joined "/" names) + 2 <= SSIZE_MAX ->
  Posix.libcpath_path_get_full_path (Some (joined "/" names))
    (length_of (joined "/" names)) (Some None) (Some 0) w
  = (Ok (mk_buffer ("/"%char :: "/"%char :: joined "/" names)
           [(length_of (joined "/" names) + 2, "/"%char);
            (length_of (joined "/" names) + 2, NUL)],
         length_of (joined "/" names) + 2),
     os_log OS_get_current_directory w).
Proof.
  intros Hdirectory Hnormalized Hmax.
  pose proof Hnormalized as (Hnames & Hplain & Hfree & _).
  destruct names as [|name more]; [congruence|].
  apply Forall_cons in Hplain as [Hname _].
  apply Forall_cons in Hfree as [Hfree_name _].
  destruct (joined_first_character "/" name more) as [Hfirst Hlength];
    [intros ->; discriminate|].
  rewrite posix_get_full_path_enters_relative.
  - rewrite Hdirectory. rewrite posix_resolve_in_root by assumption.
    reflexivity.
  - rewrite Hfirst. apply plain_name_first_character; assumption.
  - lia.
  - rewrite Hdirectory. vm_compute. discriminate.
Qed.

(** ** Relative POSIX paths *)

(** A relative POSIX path is resolved against the working directory: in
    a directory [/d1/../dn] of plain names, a path that starts with [k]
    segments [..], with [k] at most [n], followed by a name and further
    segments, resolves to the first [n - k] names of the directory
    followed by the names that the walk leaves of the rest of the path;
    when no name is left at all the result is the empty string, of size
    1; the working directory is read once.  A [..] that comes after the
    names of the path have been removed again makes the call fail. *)
Theorem posix_relative_path_resolution (w : world)
    (names_of_directory : list cstring) (k : nat) (name : cstring)
    (more : list cstring) :
  working_directory w = "/"%char :: joined "/" names_of_directory ->
  normalized "/" names_of_directory ->
  length_of (working_directory w) + 1 <= Posix.PATH_MAX ->
  (k <= length names_of_directory)%nat ->
  is_plain_name name = true ->
  Forall (fun segment => free_of "/" segment = true) (name :: more) ->
  length_of (working_directory w)
  + length_of (joined "/" (replicate k (str "..") ++ name :: more)) + 2
  <= SSIZE_MAX ->
  Posix.libcpath_path_get_full_path
    (Some (joined "/" (replicate k (str "..") ++ name :: more)))
    (length_of (joined "/" (replicate k (str "..") ++ name :: more)))
    (Some None) (Some 0) w
  = (match walk more [name] true with
     | Some names =>
         Ok (mk_buffer
               (rooted (take (length names_of_directory - k)
                          names_of_directory ++ names) ++ [NUL]) [],
             length_of
               (rooted (take (length names_of_directory - k)
                          names_of_directory ++ names)) + 1)
     | None =>
         fail LIBCERROR_ERROR_DOMAIN_RUNTIME
           LIBCERROR_RUNTIME_ERROR_VALUE_MISSING
           "missing last used path string string segment."
     end, os_log OS_get_current_directory w).
Proof.
  apply posix_get_full_path_relative.
Qed.

Lemma posix_relative_path_resolution_witness :
  Posix.libcpath_path_get_full_path (Some (str "../a/./b/../c")) 13
    (Some None) (Some 0) (world_at "/home/user")
  = (Ok (mk_buffer (str "/home/a/c" ++ [NUL]) [], 10),
     os_log OS_get_current_directory (world_at "/home/user")).
Proof.
  apply (posix_relative_path_resolution (world_at "/home/user")
           [str "home"; str "user"] 1 (str "a")
           [str "."; str "b"; str ".."; str "c"]).
  - reflexivity.
  - repeat split; try discriminate; repeat constructor.
  - vm_compute. discriminate.
  - cbn. lia.
  - reflexivity.
  - repeat constructor.
  - vm_compute. discriminate.
Defined.

(** In the root directory a relative POSIX path of plain names is
    resolved with a buffer that is one character short: the size counts
    one separator for the working directory [/] and the write pass emits
    two, so the buffer holds two separators and the names without an
    end-of-string character, and both the last separator and the
    end-of-string character are stored one past its end. *)
Theorem posix_root_directory_overrun (w : world) (names : list cstring) :
  working_directory w = ["/"%char] ->
  normalized "/" names ->
  length_of (joined "/" names) + 2 <= SSIZE_MAX ->
  Posix.libcpath_path_get_full_path (Some (joined "/" names))
    (length_of (joined "/" names)) (Some None) (Some 0) w
  = (Ok (mk_buffer ("/"%char :: "/"%char :: joined "/" names)
           [(length_of (joined "/" names) + 2, "/"%char);
            (length_of (joined "/" names) + 2, NUL)],
         length_of (joined "/" names) + 2),
     os_log OS_get_current_directory w).
Proof.
  apply posix_get_full_path_in_root.
Qed.

Lemma posix_root_directory_overrun_witness :
  Posix.libcpath_path_get_full_path (Some (str "usr/lib")) 7
    (Some None) (Some 0) (world_at "/")
  = (Ok (mk_buffer (str "//usr/lib") [(9, "/"%char); (9, NUL)], 9),
     os_log OS_get_current_directory (world_at "/")).
Proof.
  apply (posix_root_directory_overrun (world_at "/") [str "usr"; str "lib"]).
  - reflexivity.
  - repeat split; try discriminate; repeat constructor.
  - vm_compute. discriminate.
Defined.

(** ** Extended-length Windows paths *)

Lemma windows_resolve_walk (prefix volume : cstring) (letter : ascii)
    (segments : list cstring) :
  segments <> [] ->
  Forall (fun segment => free_of "\" segment = true) segments ->
  take 2 volume = [letter; ":"%char] ->
  length_of prefix + length_of (joined "\" segments) <= SSIZE_MAX ->
  length_of (joined "\" segments) + 8 <= SSIZE_MAX ->
  Windows.resolve (prefix ++ joined "\" segments)
    (length_of (prefix ++ joined "\" segments)) LIBCPATH_TYPE_EXTENDED_LENGTH
    (Some volume) 2 (length_of prefix) None 0 0
  = match walk segments [] false with
    | Some names =>
        Ok (mk_buffer
              ((str "\\?\" ++ letter :: ":"%char :: after_volume names)
               ++ [NUL]) [],
            length_of (after_volume names) + 7)
    | None =>
        fail LIBCERROR_ERROR_DOMAIN_RUNTIME
          LIBCERROR_RUNTIME_ERROR_VALUE_MISSING
          "missing last used path string string segment."
    end.
Proof.
  intros Hsegments Hfree Hvolume Hprefix Hmax.
  assert (segments_size segments = length_of (joined "\" segments) + 1)
    as Hsize.
  { rewrite <- (length_written "\"), written_joined by exact Hsegments.
    unfold length_of. rewrite length_app. cbn [length]. lia. }
  assert (0 <= length_of (joined "\" segments) /\ 0 <= length_of prefix)
    as [Hjoined_pos Hprefix_pos] by (unfold length_of; lia).
  assert (length_of (prefix ++ joined "\" segments)
          = length_of prefix + length_of (joined "\" segments)) as Hlength
    by (unfold length_of; rewrite length_app; lia).
  assert (2 <= length volume)%nat as Hvolume_length.
  { apply (f_equal (@length ascii)) in Hvolume.
    rewrite length_take in Hvolume. cbn [length] in Hvolume. lia. }
  unfold Windows.resolve. cbn [bind]. unfold Windows.pointer_into.
  replace (Z.to_nat (length_of prefix)) with (length prefix)
    by (unfold length_of; lia).
  rewrite drop_app_length, Hlength.
  rewrite size_sub_exact by size_lia.
  replace (length_of prefix + length_of (joined "\" segments)
           - length_of prefix)
    with (length_of (joined "\" segments)) by lia.
  rewrite narrow_string_split_whole by size_lia.
  rewrite split_on_joined by assumption.
  cbn [bind_or]. cbv zeta.
  cbn [Windows.is_unc_type LIBCPATH_TYPE_eqb orb andb].
  fold_arithmetic. cbn [bind].
  unfold libcsplit.narrow_split_string_get_number_of_segments.
  cbn [bind_or]. rewrite Nat2Z.id, length_map.
  pose proof (count_walk segments [] [] false 7 0 (-1) eq_refl eq_refl
                (fun _ => eq_refl) ltac:(discriminate) ltac:(lia)) as Hcount.
  change (segments_size []) with 0 in Hcount.
  rewrite Z.add_0_r in Hcount.
  change (reverse [] ++ map Some segments) with (map Some segments) in Hcount.
  change (Z.of_nat (length (@nil (option cstring)))) with 0 in Hcount.
  specialize (Hcount ltac:(size_lia)).
  pose proof (walk_size segments [] false) as Hnames_size.
  destruct (walk segments [] false) as [names|];
    [|rewrite Hcount; reflexivity].
  destruct Hcount as (final & last_used & -> & Hsurvive & Hfinal).
  cbn [length Nat.add] in Hfinal.
  specialize (Hnames_size names eq_refl).
  change (segments_size []) with 0 in Hnames_size.
  pose proof (segments_size_nonneg names).
  cbn [bind Resolver.safe_full_path_size Resolver.path_split_string
       Resolver.current_directory_split_string].
  unfold narrow_string_allocate.
  destruct (Z.leb_spec (7 + segments_size names) SSIZE_MAX); [|size_lia].
  replace (Z.to_nat (7 + segments_size names))
    with (4 + (2 + (1 + (length (written "\" names) + 0))))%nat
    by (rewrite <- (length_written "\"); unfold length_of; lia).
  rewrite !replicate_add.
  pose proof (copy_middle 4 (str "\\?\") [] (replicate 4 NUL)
                (replicate 2 NUL ++ replicate 1 NUL
                 ++ replicate (length (written "\" names)) NUL
                 ++ replicate 0 NUL) []) as Hcopy_prefix.
  change (length_of []) with 0 in Hcopy_prefix. cbn [app] in Hcopy_prefix.
  cbn [app]. rewrite Hcopy_prefix by (cbn; lia). clear Hcopy_prefix.
  change (take 4 (str "\\?\")) with (str "\\?\").
  change (Z.to_nat 2) with 2%nat.
  pose proof (copy_middle 2 volume (str "\\?\") (replicate 2 NUL)
                (replicate 1 NUL
                 ++ replicate (length (written "\" names)) NUL
                 ++ replicate 0 NUL) []) as Hcopy_volume.
  change (length_of (str "\\?\")) with 4 in Hcopy_volume.
  rewrite Hcopy_volume by (cbn; lia). clear Hcopy_volume.
  rewrite Hvolume. cbn [replicate].
  pose proof (store_middle (str "\\?\" ++ [letter; ":"%char])
                (replicate (length (written "\" names)) NUL ++ [])
                NUL "\" []) as Hstore.
  change (length_of (str "\\?\" ++ [letter; ":"%char])) with 6 in Hstore.
  rewrite <- app_assoc in Hstore. cbn [app] in Hstore.
  cbn [app]. rewrite Hstore. clear Hstore.
  pose proof (write_segments_all "\"
                "unable to retrieve path string segment." [] 0
                final
                (str "\\?\" ++ [letter; ":"%char; "\"%char])) as Hwrite.
  rewrite Hsurvive, Hfinal in Hwrite.
  change (length_of (str "\\?\" ++ [letter; ":"%char; "\"%char])) with 7
    in Hwrite.
  rewrite Nat.add_0_r in Hwrite. cbn [app str list_ascii_of_string] in Hwrite.
  cbn [app str list_ascii_of_string replicate length].
  rewrite app_nil_r.
  rewrite Hwrite by size_lia. clear Hwrite.
  cbn [bind fst snd]. rewrite size_sub_exact by size_lia.
  cbn [replicate]. rewrite app_nil_r.
  destruct names as [|name names].
  - change (segments_size []) with 0.
    cbn [written map concat after_volume app].
    pose proof (store_middle (str "\\?\" ++ [letter; ":"%char]) [] "\" NUL [])
      as Hlast.
    change (length_of (str "\\?\" ++ [letter; ":"%char])) with (7 + 0 - 1)
      in Hlast.
    cbn [app str list_ascii_of_string] in Hlast. rewrite Hlast. reflexivity.
  - rewrite written_joined by discriminate.
    assert (segments_size (name :: names)
            = length_of (joined "\" (name :: names)) + 1) as Hnames.
    { rewrite <- (length_written "\"), written_joined by discriminate.
      unfold length_of. rewrite length_app. cbn [length]. lia. }
    pose proof (store_middle
                  (str "\\?\" ++ letter :: ":"%char :: "\"%char
                   :: joined "\" (name :: names)) [] "\" NUL []) as Hlast.
    replace (length_of (str "\\?\" ++ letter :: ":"%char :: "\"%char
                        :: joined "\" (name :: names)))
      with (7 + segments_size (name :: names) - 1) in Hlast
      by (rewrite Hnames; unfold length_of;
          cbn [length str list_ascii_of_string app]; lia).
    cbn [app str list_ascii_of_string] in Hlast.
    rewrite Hlast. cbn [after_volume app str list_ascii_of_string].
    f_equal. f_equal. rewrite Hnames. unfold length_of. cbn [length]. lia.
Qed.

Lemma windows_get_full_path_walk (letter : ascii) (segments : list cstring)
    (w : world) :
  Windows.is_letter letter = true ->
  segments <> [] ->
  Forall (fun segment => free_of "\" segment = true) segments ->
  length_of (joined "\" segments) + 8 <= SSIZE_MAX ->
  Windows.libcpath_path_get_full_path
    (Some (str "\\?\" ++ letter :: ":"%char :: "\"%char
           :: joined "\" segments))
    (length_of
       (str "\\?\" ++ letter :: ":"%char :: "\"%char :: joined "\" segments))
    (Some None) (Some 0) w
  = (match walk segments [] false with
     | Some names =>
         Ok (mk_buffer
               ((str "\\?\" ++ letter :: ":"%char :: after_volume names)
                ++ [NUL]) [],
             length_of (after_volume names) + 7)
     | None =>
         fail LIBCERROR_ERROR_DOMAIN_RUNTIME
           LIBCERROR_RUNTIME_ERROR_VALUE_MISSING
           "missing last used path string string segment."
     end, w).
Proof.
  intros Hletter Hsegments Hfree Hmax.
  assert (length_of
            (str "\\?\" ++ letter :: ":"%char :: "\"%char
             :: joined "\" segments)
          = 7 + length_of (joined "\" segments)) as Hlength
    by (unfold length_of; cbn [length str list_ascii_of_string app]; lia).
  assert (0 <= length_of (joined "\" segments)) by (unfold length_of; lia).
  unfold Windows.libcpath_path_get_full_path.
  rewrite get_path_type_extended by size_lia.
  rewrite get_volume_name_extended by (assumption || size_lia).
  rewrite Hlength.
  destruct (Z.eqb_spec (7 + length_of (joined "\" segments)) 0); [lia|].
  rewrite Z.gtb_ltb.
  destruct (Z.ltb_spec (SSIZE_MAX - 1) (7 + length_of (joined "\" segments)));
    [size_lia|].
  cbn [Windows.is_full_type LIBCPATH_TYPE_eqb orb].
  pose proof (windows_resolve_walk
                (str "\\?\" ++ [letter; ":"%char; "\"%char])
                (letter :: ":"%char :: "\"%char :: joined "\" segments)
                letter segments Hsegments Hfree eq_refl) as Hresolve.
  change (length_of (str "\\?\" ++ [letter; ":"%char; "\"%char])) with 7
    in Hresolve.
  rewrite <- app_assoc in Hresolve.
  cbn [app str list_ascii_of_string] in Hresolve.
  cbn [app str list_ascii_of_string] in Hlength.
  rewrite Hlength in Hresolve.
  cbn [app str list_ascii_of_string].
  rewrite Hresolve by size_lia. reflexivity.
Qed.

(** An extended-length Windows path with a drive letter, [\\?\X:\]
    followed by segments, is resolved without a look at the working
    directory, as a walk over the segments: names are pushed, [..] pops,
    empty segments and [.] are skipped, a [..] before any name is
    skipped and a [..] on a stack emptied by earlier [..] makes the call
    fail.  With names left the result is [\\?\X:\] and the names joined
    by separators; without names it is [\\?\X:], the separator after the
    volume being replaced by the end-of-string character. *)
Theorem windows_extended_path_follows_walk (letter : ascii)
    (segments : list cstring) (w : world) :
  Windows.is_letter letter = true ->
  segments <> [] ->
  Forall (fun segment => free_of "\" segment = true) segments ->
  length_of (joined "\" segments) + 8 <= SSIZE_MAX ->
  Windows.libcpath_path_get_full_path
    (Some (str "\\?\" ++ letter :: ":"%char :: "\"%char
           :: joined "\" segments))
    (length_of
       (str "\\?\" ++ letter :: ":"%char :: "\"%char :: joined "\" segments))
    (Some None) (Some 0) w
  = (match walk segments [] false with
     | Some names =>
         Ok (mk_buffer
               ((str "\\?\" ++ letter :: ":"%char :: after_volume names)
                ++ [NUL]) [],
             length_of (after_volume names) + 7)
     | None =>
         fail LIBCERROR_ERROR_DOMAIN_RUNTIME
           LIBCERROR_RUNTIME_ERROR_VALUE_MISSING
           "missing last used path string string segment."
     end, w).
Proof.
  apply windows_get_full_path_walk.
Qed.

Lemma windows_extended_path_follows_walk_witness :
  Windows.libcpath_path_get_full_path (Some (str "\\?\C:\a\..\b\.\\c")) 18
    (Some None) (Some 0) (world_at "D:\work")
  = (Ok (mk_buffer (str "\\?\C:\b\c" ++ [NUL]) [], 11), world_at "D:\work")
  /\ Windows.libcpath_path_get_full_path (Some (str "\\?\C:\a\..")) 11
       (Some None) (Some 0) (world_at "D:\work")
     = (Ok (mk_buffer (str "\\?\C:" ++ [NUL]) [], 7), world_at "D:\work").
Proof.
  split.
  - apply (windows_extended_path_follows_walk "C"
             [str "a"; str ".."; str "b"; str "."; []; str "c"]
             (world_at "D:\work")).
    + reflexivity.
    + discriminate.
    + repeat constructor.
    + vm_compute. discriminate.
  - apply (windows_extended_path_follows_walk "C" [str "a"; str ".."]
             (world_at "D:\work")).
    + reflexivity.
    + discriminate.
    + repeat constructor.
    + vm_compute. discriminate.
Defined.

(** ** Joining and resolving *)

Lemma joined_app (separator : ascii) (a b : list cstring) :
  a <> [] -> b <> [] ->
  joined separator (a ++ b)
  = joined separator a ++ separator :: joined separator b.
Proof.
  intros Ha Hb. induction a as [|x a IH]; [congruence|].
  destruct a as [|y a].
  - cbn [app]. rewrite joined_cons by exact Hb. reflexivity.
  - cbn [app] in *. rewrite joined_cons by discriminate.
    rewrite IH by discriminate.
    rewrite (joined_cons separator x (y :: a)) by discriminate.
    rewrite <- app_assoc. reflexivity.
Qed.

Lemma last_of_joined (separator : ascii) (names : list cstring) :
  forall c : ascii,
    names <> [] ->
    Forall (fun name => is_plain_name name = true) names ->
    Forall (fun name => free_of separator name = true) names ->
    last (c :: joined separator names) <> Some separator.
Proof.
  induction names as [|name names IH]; intros c Hnames Hplain Hfree;
    [congruence|].
  apply Forall_cons in Hplain as [Hname Hplain].
  apply Forall_cons in Hfree as [Hfree_name Hfree].
  destruct names as [|next names].
  - cbn [joined].
    destruct (exists_last (l := name)) as (front & x & ->);
      [intros ->; discriminate|].
    rewrite free_of_app in Hfree_name.
    apply andb_prop in Hfree_name as [_ Hx]. cbn in Hx.
    rewrite andb_true_r in Hx. apply negb_true_iff in Hx.
    apply char_eqb_neq in Hx.
    change (c :: front ++ [x]) with ((c :: front) ++ [x]).
    rewrite last_snoc. congruence.
  - rewrite joined_cons by discriminate.
    change (c :: name ++ separator :: joined separator (next :: names))
      with ((c :: name) ++ separator :: joined separator (next :: names)).
    rewrite last_app_cons. apply IH; (discriminate || assumption).
Qed.

Lemma head_of_joined (separator : ascii) (names : list cstring) :
  names <> [] ->
  Forall (fun name => is_plain_name name = true) names ->
  Forall (fun name => free_of separator name = true) names ->
  head (joined separator names) <> Some separator.
Proof.
  intros Hnames Hplain Hfree. destruct names as [|name names]; [congruence|].
  apply Forall_cons in Hplain as [Hname _].
  apply Forall_cons in Hfree as [Hfree_name _].
  destruct name as [|x name]; [discriminate|].
  cbn [free_of forallb] in Hfree_name.
  apply andb_prop in Hfree_name as [Hx _]. apply negb_true_iff in Hx.
  apply char_eqb_neq in Hx.
  destruct names as [|next names].
  - cbn. congruence.
  - rewrite joined_cons by discriminate. cbn. congruence.
Qed.

(** Joining composes with resolving: the path that [libcpath_path_join]
    builds from an absolute POSIX directory of plain names, whatever the
    number of its trailing separators, and from a relative path of plain
    names, whatever the number of its leading separators, is the
    directory names followed by the path names, and
    [libcpath_path_get_full_path] returns the very same buffer and size
    for it. *)
Theorem joined_path_is_resolved (names_of_directory names : list cstring)
    (n m : nat) (w : world) :
  normalized "/" names_of_directory ->
  normalized "/" names ->
  length_of ("/"%char :: joined "/" names_of_directory) + Z.of_nat n
  + (Z.of_nat m + length_of (joined "/" names)) + 2 <= SSIZE_MAX ->
  exists (path : buffer) (path_size : Z),
    libcpath_path_join "/" (Some None) (Some 0)
      (Some (("/"%char :: joined "/" names_of_directory)
             ++ replicate n "/"%char))
      (length_of (("/"%char :: joined "/" names_of_directory)
                  ++ replicate n "/"%char))
      (Some (replicate m "/"%char ++ joined "/" names))
      (length_of (replicate m "/"%char ++ joined "/" names))
    = Ok (path, path_size)
    /\ buffer_overrun path = []
    /\ c_string (buffer_data path)
       = "/"%char :: joined "/" (names_of_directory ++ names)
    /\ Posix.libcpath_path_get_full_path
         (Some (c_string (buffer_data path)))
         (length_of (c_string (buffer_data path))) (Some None) (Some 0) w
       = (Ok (path, path_size), w).
Proof.
  intros Hdirectory Hnames Hmax.
  pose proof Hdirectory as (Hd & Hd_plain & Hd_free & Hd_nul).
  pose proof Hnames as (Hf & Hf_plain & Hf_free & Hf_nul).
  rewrite join_result;
    [|apply last_of_joined; assumption|apply head_of_joined; assumption
     |exact Hmax].
  assert (("/"%char :: joined "/" names_of_directory)
          ++ "/"%char :: joined "/" names ++ [NUL]
          = ("/"%char :: joined "/" (names_of_directory ++ names)) ++ [NUL])
    as Htext.
  { rewrite joined_app by assumption. cbn [app].
    rewrite <- !app_assoc. reflexivity. }
  assert (normalized "/" (names_of_directory ++ names)) as Hall.
  { repeat split.
    - destruct names_of_directory; [congruence|discriminate].
    - apply Forall_app; split; assumption.
    - apply Forall_app; split; assumption.
    - apply Forall_app; split; assumption. }
  assert (length_of ("/"%char :: joined "/" (names_of_directory ++ names))
          = length_of ("/"%char :: joined "/" names_of_directory)
            + length_of (joined "/" names) + 1) as Hlength.
  { rewrite joined_app by assumption. unfold length_of. cbn [length].
    rewrite length_app. cbn [length]. lia. }
  eexists _, _. split; [reflexivity|]. split; [reflexivity|].
  cbn [buffer_data]. rewrite Htext.
  rewrite c_string_terminated.
  - split; [reflexivity|].
    pose proof (posix_get_full_path_absolute 0 (names_of_directory ++ names) w
                  Hall) as Hresolve.
    cbn [replicate app] in Hresolve.
    rewrite Hresolve by (rewrite Hlength; lia).
    rewrite Hlength. do 3 f_equal. lia.
  - cbn [free_of forallb]. cbn [negb char_eqb Ascii.eqb].
    change (free_of NUL (joined "/" (names_of_directory ++ names)) = true).
    apply free_of_joined; [reflexivity|apply Hall].
Qed.

Lemma joined_path_is_resolved_witness :
  exists (path : buffer) (path_size : Z),
    libcpath_path_join "/" (Some None) (Some 0)
      (Some (str "/usr/lib//")) 10 (Some (str "/cups/filter")) 12
    = Ok (path, path_size)
    /\ buffer_overrun path = []
    /\ c_string (buffer_data path) = str "/usr/lib/cups/filter"
    /\ Posix.libcpath_path_get_full_path
         (Some (c_string (buffer_data path)))
         (length_of (c_string (buffer_data path))) (Some None) (Some 0)
         (world_at "/tmp")
       = (Ok (path, path_size), world_at "/tmp").
Proof.
  apply (joined_path_is_resolved [str "usr"; str "lib"]
           [str "cups"; str "filter"] 2 1 (world_at "/tmp")).
  - repeat split; try discriminate; repeat constructor.
  - repeat split; try discriminate; repeat constructor.
  - vm_compute. discriminate.
Defined.

(** ** The Windows resolver on paths with a volume name *)





























(** ** Idempotence *)



